(** * dotbeam: the frame codec, the geometry and the consensus decoder

  A shallow embedding of the Go library (dotbeam.go, layout.go, the
  encoder, decoder.go) and of the browser scanner (dotbeam-core.js,
  scanner.js), with the properties the protocol description states about
  them.

  Conventions.
  - A Go [int] and a JavaScript integer-valued number are [Z]; a Go
    [byte]/[uint8] is a [Z] in [0, 256) with the wrap-around written out.
  - A Go [float64] and a JavaScript non-integer number are IEEE-754
    binary64 values, [spec_float] with [prec = 53] and [emax = 1024];
    every operation rounds to nearest-even as the hardware does.
  - A Go [map[int][]byte] and a JavaScript object used as a dictionary
    with integer keys are [gmap Z _].
  - Methods that mutate their receiver return the new receiver. *)

From Stdlib Require Import ZArith Floats.SpecFloat Ascii.
From stdpp Require Import base option list gmap sorting strings.

Local Open Scope Z_scope.

(** ** Binary64 arithmetic *)

Module F64.

Definition float := spec_float.
Definition prec : Z := 53.
Definition emax : Z := 1024.

(** Conversion of an integer (Go [float64(n)], a JS integer literal). *)
Definition ofZ (z : Z) : float := binary_normalize prec emax z 0 false.

Definition add : float -> float -> float := SFadd prec emax.
Definition sub : float -> float -> float := SFsub prec emax.
Definition mul : float -> float -> float := SFmul prec emax.
Definition div : float -> float -> float := SFdiv prec emax.
Definition sqrt : float -> float := SFsqrt prec emax.
Definition abs : float -> float := SFabs.
Definition ltb : float -> float -> bool := SFltb.
Definition leb : float -> float -> bool := SFleb.
Definition eqb : float -> float -> bool := SFeqb.

(** A decimal literal [p / q] with [p] and [q] below [2^53]: the division
    is correctly rounded, so this is the double nearest to the decimal. *)
Definition lit (p q : Z) : float := div (ofZ p) (ofZ q).

(** [Math.min]: NaN if either argument is NaN. *)
Definition min (x y : float) : float :=
  match x, y with
  | S754_nan, _ | _, S754_nan => S754_nan
  | _, _ => if ltb y x then y else x
  end.

(** The JavaScript [%] on a finite dividend and a finite non-zero divisor:
    the remainder of the truncated division, which is exact and takes the
    sign of the dividend. *)
Definition rem (x y : float) : float :=
  match x, y with
  | S754_finite sx mx ex, S754_finite _ my ey =>
      let e := Z.min ex ey in
      let X := Z.pos mx * 2 ^ (ex - e) in
      let Y := Z.pos my * 2 ^ (ey - e) in
      let R := X mod Y in
      binary_normalize prec emax (if sx then - R else R) e sx
  | S754_zero s, S754_finite _ _ _ => S754_zero s
  | S754_finite _ _ _, S754_infinity _ => x
  | S754_zero _, S754_infinity _ => x
  | _, _ => S754_nan
  end.

(** [Math.ceil] of a finite number, as an integer. *)
Definition ceilZ (x : float) : Z :=
  match x with
  | S754_finite s m e =>
      let v := if s then Z.neg m else Z.pos m in
      if 0 <=? e then v * 2 ^ e else - ((- v) `div` 2 ^ (- e))
  | _ => 0
  end.

(** [Math.PI] *)
Definition PI : float := S754_finite false 7074237752028440 (-51).

End F64.

Abbreviation float := F64.float.

(** ** The Go library *)

Module Go.

(** *** dotbeam.go *)

Record Config := {
  Rings : Z;
  BitsPerDot : Z;
  FPS : Z;
  UseFountain : bool
}.

Definition DefaultConfig : Config :=
  {| Rings := 4; BitsPerDot := 3; FPS := 5; UseFountain := false |}.

(** A dot of a frame. The coordinates [X], [Y] of the Go struct are
    [radius * cos] and [- radius * sin] of the angle; they are written by
    the encoder and read by the renderer only, and are left out. *)
Record Dot := {
  Ring : Z;
  Index : Z;
  Value : Z
}.

Record Frame := {
  FIndex : Z;
  Total : Z;
  Dots : list Dot;
  Payload : list Z
}.

(** Go's [int] has 32 or 64 bits and wraps; the counts below are computed
    in [Z]. They are those of the program where no sum or product leaves
    the range of a 32-bit [int]: for [TotalDots], up to 26754 rings. *)
Definition TotalDots (c : Config) : Z :=
  fold_left (fun total ring => total + ring * 6) (seqZ 1 (Rings c)) 0.

Definition BitsPerFrame (c : Config) : Z := TotalDots c * BitsPerDot c.

Definition BytesPerFrame (c : Config) : Z := BitsPerFrame c ÷ 8 - 2.

(** *** layout.go *)

(** A position keeps its angle in degrees; its Cartesian coordinates and
    the three anchors of the layout are cosines and sines of angles, which
    no property below reads, and are left out. *)
Record Position := { Angle : float }.

Record RingLayout := {
  Radius : float;
  DotCount : Z;
  Positions : list Position
}.

Record Layout := {
  LConfig : Config;
  Width : float;
  Height : float;
  LRings : list RingLayout
}.

Definition ringRadius (ring totalRings : Z) : float :=
  if totalRings =? 1 then F64.lit 40 100
  else
    let minR := F64.lit 22 100 in
    let maxR := F64.lit 70 100 in
    F64.add minR
      (F64.div (F64.mul (F64.sub maxR minR) (F64.ofZ (ring - 1)))
               (F64.ofZ (totalRings - 1))).

Definition NewLayout (config : Config) (width height : float) : Layout :=
  {| LConfig := config;
     Width := width;
     Height := height;
     LRings :=
       (fun i =>
          let ring := i + 1 in
          let dotCount := ring * 6 in
          let radius := ringRadius ring (Rings config) in
          {| Radius := radius;
             DotCount := dotCount;
             Positions :=
               (fun j => {| Angle := F64.div (F64.mul (F64.ofZ j) (F64.ofZ 360))
                                             (F64.ofZ dotCount) |})
                 <$> seqZ 0 dotCount |})
         <$> seqZ 0 (Rings config) |}.

(** *** The encoder *)

Record Encoder := { config : Config; layout : Layout }.

Definition NewEncoder (c : Config) : Encoder :=
  {| config := c; layout := NewLayout c (F64.ofZ 1) (F64.ofZ 1) |}.

(** [len(s)] *)
Definition len {A} (s : list A) : Z := Z.of_nat (length s).

(** [s[i]] on a slice of bytes or bits, for an index in range. *)
Definition idx (s : list Z) (i : Z) : Z := default 0 (s !! Z.to_nat i).

(** [s[lo:hi]] for [0 <= lo <= hi <= len(s)]. *)
Definition slice {A} (s : list A) (lo hi : Z) : list A :=
  take (Z.to_nat (hi - lo)) (drop (Z.to_nat lo) s).

(** Conversion to [byte] / [uint8]. *)
Definition uint8 (z : Z) : Z := z mod 256.

(** [bytesToBits]: the bits of every byte, most significant first. *)
Definition bytesToBits (data : list Z) : list Z :=
  b ← data; (fun j => Z.land (b ≫ j) 1) <$> reverse (seqZ 0 8).

(** The inner loop of [bytesToDots] over the positions of one ring, from
    position [j], with the running [dotIndex] and the dots appended so
    far; the [break] leaves the loop with both unchanged. *)
Fixpoint ringDots (bits : list Z) (bitsPerDot : Z) (ring : RingLayout)
    (positions : list Position) (j : Z) (dotIndex : Z) (dots : list Dot)
    : Z * list Dot :=
  match positions with
  | [] => (dotIndex, dots)
  | _ :: rest =>
      let bitStart := dotIndex * bitsPerDot in
      if bitStart + bitsPerDot >? len bits then (dotIndex, dots)
      else
        let value :=
          fold_left (fun value b => uint8 (Z.lor (value ≪ 1) (idx bits (bitStart + b))))
                    (seqZ 0 bitsPerDot) 0 in
        ringDots bits bitsPerDot ring rest (j + 1) (dotIndex + 1)
          (dots ++ [ {| Ring := DotCount ring ÷ 6; Index := j; Value := value |} ])
  end.

Definition bytesToDots (e : Encoder) (data : list Z) : list Dot :=
  let bits := bytesToBits data in
  let bitsPerDot := BitsPerDot (config e) in
  snd (fold_left
         (fun '(dotIndex, dots) ring =>
            ringDots bits bitsPerDot ring (Positions ring) 0 dotIndex dots)
         (LRings (layout e)) (0, [])).

Definition Encode (e : Encoder) (data : list Z) : list Frame :=
  let bytesPerFrame := BytesPerFrame (config e) in
  if bytesPerFrame <=? 0 then []
  else
    let totalFrames :=
      let t := (len data + bytesPerFrame - 1) ÷ bytesPerFrame in
      if t >? 255 then 255 else t in
    (fun i =>
       let start := i * bytesPerFrame in
       let end_ := let e0 := start + bytesPerFrame in
                   if e0 >? len data then len data else e0 in
       let chunk := slice data start end_ in
       let frameBytes := uint8 i :: uint8 totalFrames :: chunk in
       let totalBits := BitsPerFrame (config e) in
       let totalBytes := (totalBits + 7) ÷ 8 in
       let frameBytes :=
         if len frameBytes <? totalBytes
         then frameBytes ++ replicate (Z.to_nat (totalBytes - len frameBytes)) 0
         else frameBytes in
       {| FIndex := i;
          Total := totalFrames;
          Dots := bytesToDots e frameBytes;
          Payload := chunk |})
      <$> seqZ 0 totalFrames.

(** *** decoder.go *)

Inductive error := ErrIncompleteData | ErrInvalidFrame.

Record Decoder := {
  dconfig : Config;
  frames : gmap Z (list Z);
  total : Z;
  received : Z
}.

Definition NewDecoder (c : Config) : Decoder :=
  {| dconfig := c; frames := ∅; total := 0; received := 0 |}.

(** With a negative [BitsPerDot] and at least one dot, [make] panics on the
    negative length; the model then has no bits and no bytes. *)
Definition dotsToBytes (d : Decoder) (dots : list Dot) : list Z :=
  let bitsPerDot := BitsPerDot (dconfig d) in
  let bits :=
    dot ← dots;
    (fun b => Z.land (Value dot ≫ b) 1) <$> reverse (seqZ 0 bitsPerDot) in
  let numBytes := len bits ÷ 8 in
  (fun i =>
     fold_left (fun val j => uint8 (Z.lor (val ≪ 1) (idx bits (i * 8 + j))))
               (seqZ 0 8) 0)
    <$> seqZ 0 numBytes.

(** [AddFrame] returns the decoder after the call and Go's
    [(bool, error)] pair, [None] standing for a [nil] error. *)
Definition AddFrame (d : Decoder) (dots : list Dot)
    : Decoder * (bool * option error) :=
  if len dots =? 0 then (d, (false, Some ErrInvalidFrame))
  else
    let data := dotsToBytes d dots in
    if len data <? 2 then (d, (false, Some ErrInvalidFrame))
    else
      let frameIndex := idx data 0 in
      let frameTotal := idx data 1 in
      if frameTotal =? 0 then (d, (false, Some ErrInvalidFrame))
      else
        let payload := drop 2 data in
        let d1 := {| dconfig := dconfig d; frames := frames d;
                     total := frameTotal; received := received d |} in
        let d2 :=
          match frames d1 !! frameIndex with
          | Some _ => d1
          | None => {| dconfig := dconfig d1;
                       frames := <[frameIndex := payload]> (frames d1);
                       total := total d1;
                       received := received d1 + 1 |}
          end in
        (d2, (received d2 >=? total d2, None)).

(** The loop of [Data] from index [i], [n] iterations left. *)
Fixpoint collect (fr : gmap Z (list Z)) (i : Z) (n : nat) (result : list Z)
    : list Z + error :=
  match n with
  | O => inl result
  | S n' =>
      match fr !! i with
      | None => inr ErrIncompleteData
      | Some payload => collect fr (i + 1) n' (result ++ payload)
      end
  end.

Definition Data (d : Decoder) : list Z + error :=
  if received d <? total d then inr ErrIncompleteData
  else collect (frames d) 0 (Z.to_nat (total d)) [].

(** Feeding a sequence of frames to the decoder, in order. *)
Definition feed (d : Decoder) (fs : list Frame) : Decoder :=
  fold_left (fun d f => fst (AddFrame d (Dots f))) fs d.

(** [Progress]: the fraction of frames received. *)
Definition Progress (d : Decoder) : float :=
  if total d =? 0 then F64.ofZ 0
  else F64.div (F64.ofZ (received d)) (F64.ofZ (total d)).

(** [Reset] clears all received frames. *)
Definition Reset (d : Decoder) : Decoder :=
  {| dconfig := dconfig d; frames := ∅; total := 0; received := 0 |}.

(** *** Colours (dotbeam.go) *)

Record Color := { R : Z; G : Z; B : Z }.

(** [hex[i]] for the constant ["0123456789abcdef"]. *)
Definition hexDigit (i : Z) : Ascii.ascii :=
  default "0"%char (String.get (Z.to_nat i) "0123456789abcdef").

Definition hexByte (b : Z) : string :=
  String (hexDigit (b ≫ 4)) (String (hexDigit (Z.land b 0x0f)) EmptyString).

Definition Hex (c : Color) : string :=
  ("#" ++ hexByte (R c) ++ hexByte (G c) ++ hexByte (B c))%string.

(** [DefaultColors]: the palette of eight colours. *)
Definition DefaultColors : list Color :=
  [ {| R := 0xFF; G := 0x44; B := 0x44 |};   (* 000: Red *)
    {| R := 0xFF; G := 0x8C; B := 0x00 |};   (* 001: Orange *)
    {| R := 0xFF; G := 0xD7; B := 0x00 |};   (* 010: Gold *)
    {| R := 0x44; G := 0xFF; B := 0x44 |};   (* 011: Green *)
    {| R := 0x00; G := 0xCE; B := 0xD1 |};   (* 100: Cyan *)
    {| R := 0x44; G := 0x88; B := 0xFF |};   (* 101: Blue *)
    {| R := 0xAA; G := 0x44; B := 0xFF |};   (* 110: Purple *)
    {| R := 0xFF; G := 0x44; B := 0xFF |} ]. (* 111: Magenta *)

(** *** The renderer (render.go) and the sampler of its tests *)

(** The colour [RenderFrame] paints a dot with:
    [DefaultColors[dot.Value&0x07]]. *)
Definition dotColor (value : Z) : Color :=
  default {| R := 0; G := 0; B := 0 |} (DefaultColors !! Z.to_nat (Z.land value 0x07)).

(** [matchColorFromImage]: the index of the nearest palette colour. *)
Definition matchColorFromImage (r g b : Z) : Z :=
  fst (fold_left
         (fun '(bestIdx, bestDist) '(i, c) =>
            let dr := r - R c in
            let dg := g - G c in
            let db := b - B c in
            let d := dr * dr + dg * dg + db * db in
            if d <? bestDist then (uint8 i, d) else (bestIdx, bestDist))
         (zip (seqZ 0 (len DefaultColors)) DefaultColors) (0, 2 ^ 31 - 1)).

End Go.

(** ** The npm package (layout.js), which mirrors layout.go *)

Module Npm.

Definition MIN_RING_RADIUS : float := F64.lit 22 100.
Definition MAX_RING_RADIUS : float := F64.lit 70 100.

Definition ringRadius (ring totalRings : Z) : float :=
  if totalRings =? 1 then F64.lit 4 10
  else
    F64.add MIN_RING_RADIUS
      (F64.div (F64.mul (F64.sub MAX_RING_RADIUS MIN_RING_RADIUS) (F64.ofZ (ring - 1)))
               (F64.ofZ (totalRings - 1))).

(** *** index.js *)

Record Config := { rings : Z; bitsPerDot : Z; fps : Z }.

Definition DEFAULT_CONFIG : Config := {| rings := 4; bitsPerDot := 3; fps := 5 |}.

(** *** The 32-bit integer operators of JavaScript *)

(** [ToInt32]: the number modulo [2^32], read as a signed 32-bit integer. *)
Definition toInt32 (z : Z) : Z := (z + 2 ^ 31) mod 2 ^ 32 - 2 ^ 31.

(** [a >> b], [a << b], [a | b] and [a & b]; the shift count is taken
    modulo 32. *)
Definition sar (a b : Z) : Z := toInt32 a ≫ (b mod 32).
Definition shl (a b : Z) : Z := toInt32 (toInt32 a ≪ (b mod 32)).
Definition bor (a b : Z) : Z := Z.lor (toInt32 a) (toInt32 b).
Definition band (a b : Z) : Z := Z.land (toInt32 a) (toInt32 b).

(** Storing a number in a [Uint8Array]. *)
Definition toUint8 (z : Z) : Z := z mod 256.

(** *** decoder.js, which mirrors decoder.go *)

(** A dot as the decoder reads it: only [value] is used. *)
Record Dot := { ring : Z; index : Z; value : Z }.

Record Decoder := {
  config : Config;
  frames : gmap Z (list Z);     (* the Map *)
  total : Z;
  received : Z
}.

Definition newDecoder (config : Config) : Decoder :=
  {| config := config; frames := ∅; total := 0; received := 0 |}.

(** [this._dotsToBytes(dots)]; [Math.floor(bits.length / 8)] is the
    integer quotient, the division of an array length by 8 being exact in
    binary64. *)
Definition _dotsToBytes (d : Decoder) (dots : list Dot) : list Z :=
  let bpd := bitsPerDot (config d) in
  let bits :=
    dot ← dots;
    (fun b => band (sar (value dot) b) 1) <$> reverse (seqZ 0 bpd) in
  let numBytes := Z.of_nat (length bits) `div` 8 in
  (fun i =>
     toUint8 (fold_left (fun val j => bor (shl val 1) (default 0 (bits !! Z.to_nat (i * 8 + j))))
                        (seqZ 0 8) 0))
    <$> seqZ 0 numBytes.

(** [addFrame]: the message of the [Error] it throws, or the decoder after
    the call and the boolean it returns. *)
Definition addFrame (d : Decoder) (dots : list Dot) : string + Decoder * bool :=
  if Z.of_nat (length dots) =? 0 then inl "dotbeam: invalid frame"%string
  else
    let data := _dotsToBytes d dots in
    if Z.of_nat (length data) <? 2 then inl "dotbeam: invalid frame header"%string
    else
      let frameIndex := default 0 (data !! 0%nat) in
      let frameTotal := default 0 (data !! 1%nat) in
      if frameTotal =? 0 then inl "dotbeam: invalid frame total"%string
      else
        let d1 := {| config := config d; frames := frames d;
                     total := frameTotal; received := received d |} in
        let d2 :=
          match frames d1 !! frameIndex with
          | Some _ => d1
          | None => {| config := config d1;
                       frames := <[frameIndex := drop 2 data]> (frames d1);
                       total := total d1;
                       received := received d1 + 1 |}
          end in
        inr (d2, received d2 >=? total d2).

(** The loop of [data()] from index [i], [n] iterations left; a stored
    payload is a [Uint8Array], which is never falsy. *)
Fixpoint chunks (fr : gmap Z (list Z)) (i : Z) (n : nat) (acc : list (list Z))
    : string + list (list Z) :=
  match n with
  | O => inr acc
  | S n' =>
      match fr !! i with
      | None => inl "dotbeam: incomplete data"%string
      | Some payload => chunks fr (i + 1) n' (acc ++ [payload])
      end
  end.

Definition data (d : Decoder) : string + list Z :=
  if received d <? total d then inl "dotbeam: incomplete data"%string
  else
    match chunks (frames d) 0 (Z.to_nat (total d)) [] with
    | inl e => inl e
    | inr cs => inr (mjoin cs)
    end.

Definition progress (d : Decoder) : float :=
  if total d =? 0 then F64.ofZ 0
  else F64.div (F64.ofZ (received d)) (F64.ofZ (total d)).

Definition reset (d : Decoder) : Decoder :=
  {| config := config d; frames := ∅; total := 0; received := 0 |}.

(** *** layout.js *)

(** A position keeps its angle; [x], [y] and the anchors are cosines and
    sines, which no property below reads, and are left out. *)
Record Position := { angle : float }.

Record RingLayout := { radius : float; dotCount : Z; positions : list Position }.

Record Layout := { lrings : list RingLayout }.

Definition computeLayout (config : Config) : Layout :=
  {| lrings :=
       (fun i =>
          let dotCount := i * 6 in
          let radius := ringRadius i (rings config) in
          {| radius := radius;
             dotCount := dotCount;
             positions :=
               (fun j => {| angle := F64.div (F64.mul (F64.ofZ j) (F64.ofZ 360))
                                             (F64.ofZ dotCount) |})
                 <$> seqZ 0 dotCount |})
         <$> seqZ 1 (rings config) |}.

(** *** encoder.js, which mirrors encoder.go *)

Record Frame := { findex : Z; ftotal : Z; fdots : list Dot; fpayload : list Z }.

Record Encoder := { econfig : Config; layout : Layout }.

Definition newEncoder (config : Config) : Encoder :=
  {| econfig := config; layout := computeLayout config |}.

Definition bytesToBits (data : list Z) : list Z :=
  b ← data; (fun j => band (sar b j) 1) <$> reverse (seqZ 0 8).

Definition totalDots (e : Encoder) : Z :=
  fold_left (fun total ring => total + ring * 6) (seqZ 1 (rings (econfig e))) 0.

Definition bitsPerFrame (e : Encoder) : Z := totalDots e * bitsPerDot (econfig e).

(** [Math.floor(this.bitsPerFrame() / 8) - 2]; the division of an integer
    by 8 is exact in binary64. *)
Definition bytesPerFrame (e : Encoder) : Z := bitsPerFrame e `div` 8 - 2.

(** The inner loop of [_bytesToDots] over the positions of one ring, from
    position [j]; the [break] leaves the loop with [dotIndex] and the dots
    unchanged, and the loop of the next ring breaks at once. The ring
    number [ring.dotCount / 6] is an exact quotient, [dotCount] being a
    multiple of 6. *)
Fixpoint ringDots (bits : list Z) (bpd : Z) (ring : RingLayout)
    (positions : list Position) (j : Z) (dotIndex : Z) (dots : list Dot)
    : Z * list Dot :=
  match positions with
  | [] => (dotIndex, dots)
  | _ :: rest =>
      let bitStart := dotIndex * bpd in
      if bitStart + bpd >? Z.of_nat (length bits) then (dotIndex, dots)
      else
        let value :=
          fold_left (fun value b =>
                       bor (shl value 1) (default 0 (bits !! Z.to_nat (bitStart + b))))
                    (seqZ 0 bpd) 0 in
        ringDots bits bpd ring rest (j + 1) (dotIndex + 1)
          (dots ++ [ {| ring := dotCount ring `div` 6; index := j; value := value |} ])
  end.

Definition _bytesToDots (e : Encoder) (data : list Z) : list Dot :=
  let bits := bytesToBits data in
  let bpd := bitsPerDot (econfig e) in
  snd (fold_left
         (fun '(dotIndex, dots) ring =>
            ringDots bits bpd ring (positions ring) 0 dotIndex dots)
         (lrings (layout e)) (0, [])).

(** [encode]; [Math.ceil(data.length / bpf)] is the binary64 quotient
    rounded up, [Math.ceil(totalBits / 8)] an exact quotient rounded up. *)
Definition encode (e : Encoder) (data : list Z) : list Frame :=
  let bpf := bytesPerFrame e in
  if bpf <=? 0 then []
  else
    let totalFrames :=
      F64.ceilZ (F64.div (F64.ofZ (Z.of_nat (length data))) (F64.ofZ bpf)) in
    let totalFrames := if totalFrames >? 255 then 255 else totalFrames in
    if totalFrames =? 0 then []
    else
      (fun i =>
         let start := i * bpf in
         let end_ := Z.min (start + bpf) (Z.of_nat (length data)) in
         let chunk := take (Z.to_nat (end_ - start)) (drop (Z.to_nat start) data) in
         let frameBytes := toUint8 i :: toUint8 totalFrames :: (toUint8 <$> chunk) in
         let totalBits := bitsPerFrame e in
         let totalBytes := (totalBits + 7) `div` 8 in
         let padded :=
           if Z.of_nat (length frameBytes) <? totalBytes
           then frameBytes
                  ++ replicate (Z.to_nat (totalBytes - Z.of_nat (length frameBytes))) 0
           else frameBytes in
         {| findex := i;
            ftotal := totalFrames;
            fdots := _bytesToDots e padded;
            fpayload := chunk |})
        <$> seqZ 0 totalFrames.

(** [COLORS] of index.js (the [hex] strings are left out). *)
Definition COLORS : list (Z * Z * Z) :=
  [ (0xff, 0x44, 0x44); (0xff, 0x8c, 0x00); (0xff, 0xd7, 0x00); (0x44, 0xff, 0x44);
    (0x00, 0xce, 0xd1); (0x44, 0x88, 0xff); (0xaa, 0x44, 0xff); (0xff, 0x44, 0xff) ].

End Npm.

(** ** The browser core (dotbeam-core.js) *)

Module DotbeamCore.

Record Color := { r : Z; g : Z; b : Z }.

Definition PALETTE : list Color :=
  [ {| r := 0xff; g := 0x44; b := 0x44 |};   (* Red *)
    {| r := 0xff; g := 0x8c; b := 0x00 |};   (* Orange *)
    {| r := 0xff; g := 0xd7; b := 0x00 |};   (* Gold *)
    {| r := 0x44; g := 0xff; b := 0x44 |};   (* Green *)
    {| r := 0x00; g := 0xce; b := 0xd1 |};   (* Cyan *)
    {| r := 0x44; g := 0x88; b := 0xff |};   (* Blue *)
    {| r := 0xaa; g := 0x44; b := 0xff |};   (* Purple *)
    {| r := 0xff; g := 0x44; b := 0xff |} ]. (* Magenta *)

Definition RING_RADIUS_MIN : float := F64.lit 22 100.
Definition RING_RADIUS_MAX : float := F64.lit 70 100.

(** The radius [layout] gives ring [n] of [numRings]. *)
Definition ringRadius (n numRings : Z) : float :=
  if numRings =? 1 then F64.div (F64.add RING_RADIUS_MIN RING_RADIUS_MAX) (F64.ofZ 2)
  else
    F64.add RING_RADIUS_MIN
      (F64.div (F64.mul (F64.sub RING_RADIUS_MAX RING_RADIUS_MIN) (F64.ofZ (n - 1)))
               (F64.ofZ (numRings - 1))).

(** [layout(config)]: the rings with their dots, and the number of dots.
    A dot keeps its angle and its running index; [x], [y] and the anchors
    are cosines and sines and are left out. *)
Record LayoutDot := { angle : float; dotIndex : Z }.

Record LayoutRing := { ringIndex : Z; radius : float; dots : list LayoutDot }.

Record LayoutData := { rings : list LayoutRing; totalDots : Z }.

Definition layout (numRings : Z) : LayoutData :=
  let '(rings, totalDots) :=
    fold_left
      (fun '(rings, totalDots) n =>
         let dotsInRing := n * 6 in
         let radius := ringRadius n numRings in
         let dots :=
           (fun d =>
              {| angle := F64.div (F64.mul (F64.mul (F64.ofZ 2) F64.PI) (F64.ofZ d))
                                  (F64.ofZ dotsInRing);
                 dotIndex := totalDots + d |})
             <$> seqZ 0 dotsInRing in
         (rings ++ [ {| ringIndex := n; radius := radius; dots := dots |} ],
          totalDots + dotsInRing))
      (seqZ 1 numRings) ([], 0) in
  {| rings := rings; totalDots := totalDots |}.

End DotbeamCore.

(** ** The browser scanner (scanner.js) *)

Module Scanner.

Definition palette := DotbeamCore.PALETTE.

(** [Math.max(r, g, b)] and [Math.min(r, g, b)] on integers. *)
Definition max3 (r g b : Z) : Z := Z.max (Z.max r g) b.
Definition min3 (r g b : Z) : Z := Z.min (Z.min r g) b.

(** The hue formula of [rgbToHue], after its near-achromatic test. *)
Definition hueOf (r g b : Z) : float :=
  let max := max3 r g b in
  let min := min3 r g b in
  let delta := max - min in
  let hue :=
    if max =? r then F64.rem (F64.div (F64.ofZ (g - b)) (F64.ofZ delta)) (F64.ofZ 6)
    else if max =? g then F64.add (F64.div (F64.ofZ (b - r)) (F64.ofZ delta)) (F64.ofZ 2)
    else F64.add (F64.div (F64.ofZ (r - g)) (F64.ofZ delta)) (F64.ofZ 4) in
  let hue := F64.mul hue (F64.ofZ 60) in
  if F64.ltb hue (F64.ofZ 0) then F64.add hue (F64.ofZ 360) else hue.

(** RGB (0-255) to hue in degrees; -1 if achromatic. *)
Definition rgbToHue (r g b : Z) : float :=
  let max := max3 r g b in
  let min := min3 r g b in
  let delta := max - min in
  if delta <? 10 then F64.ofZ (-1)
  else hueOf r g b.

Definition paletteHues : list float :=
  (fun c => rgbToHue (DotbeamCore.r c) (DotbeamCore.g c) (DotbeamCore.b c)) <$> palette.

Definition hueDist (h1 h2 : float) : float :=
  let d := F64.abs (F64.sub h1 h2) in
  if F64.ltb (F64.ofZ 180) d then F64.sub (F64.ofZ 360) d else d.

Definition colorDistSq (r1 g1 b1 r2 g2 b2 : Z) : Z :=
  let dr := r1 - r2 in
  let dg := g1 - g2 in
  let db := b1 - b2 in
  dr * dr + dg * dg + db * db.

Definition Infinity : float := S754_infinity false.

(** The nearest-palette loop: [dist i] is the distance to entry [i]; the
    state is [(bestIdx, bestDist)]. *)
Definition nearest (dist : Z -> float) (n : Z) : Z :=
  fst (fold_left
         (fun '(bestIdx, bestDist) i =>
            if F64.ltb (dist i) bestDist then (i, dist i) else (bestIdx, bestDist))
         (seqZ 0 n) (0, Infinity)).

(** The chromatic gate of [matchColor]: [sat > 0.15 && max > 30]. *)
Definition chromatic (r g b : Z) : bool :=
  let max := max3 r g b in
  let min := min3 r g b in
  let sat := if max =? 0 then F64.ofZ 0 else F64.div (F64.ofZ (max - min)) (F64.ofZ max) in
  F64.ltb (F64.lit 15 100) sat && (max >? 30).

Definition matchByHue (sampleHue : float) : Z :=
  nearest (fun i => hueDist sampleHue (default S754_nan (paletteHues !! Z.to_nat i)))
          (Z.of_nat (length palette)).

Definition matchByRgb (r g b : Z) : Z :=
  nearest (fun j =>
             match palette !! Z.to_nat j with
             | Some c => F64.ofZ (colorDistSq r g b (DotbeamCore.r c) (DotbeamCore.g c)
                                              (DotbeamCore.b c))
             | None => S754_nan
             end)
          (Z.of_nat (length palette)).

(** [matchColor] on the integer channel values [sampleDots] passes. *)
Definition matchColor (r g b : Z) : Z :=
  if chromatic r g b then
    let sampleHue := rgbToHue r g b in
    if F64.leb (F64.ofZ 0) sampleHue then matchByHue sampleHue
    else matchByRgb r g b
  else matchByRgb r g b.

(** *** The consensus decoder *)

Definition MIN_VOTES : Z := 5.
Definition FT_SETTLE_MIN : Z := 10.

Record Decoder := {
  _votes : gmap Z (list (list Z));   (* frameIndex -> captures *)
  _frames : gmap Z (list Z);         (* frameIndex -> voted payload *)
  _totalFrames : option Z;           (* null until locked *)
  _received : Z;
  _ftCounts : gmap Z Z;              (* totalFrames value -> captures seen *)
  _ftTotal : Z
}.

Definition newDecoder : Decoder :=
  {| _votes := ∅; _frames := ∅; _totalFrames := None; _received := 0;
     _ftCounts := ∅; _ftTotal := 0 |}.

Record Result := { complete : bool; progress_ : float }.

(** [a[i]] for an array of numbers; out of range it is [undefined], which
    the bit operators read as 0. *)
Definition at0 (a : list Z) (i : Z) : Z := default 0 (a !! Z.to_nat i).

Definition _dotsToBytes (dotValues : list Z) : list Z :=
  let bits :=
    v ← dotValues;
    let val := Z.land v 0x07 in
    [Z.land (val ≫ 2) 1; Z.land (val ≫ 1) 1; Z.land val 1] in
  (fun k =>
     let b := 8 * k in
     fold_left (fun byte bi => Z.lor (byte ≪ 1) (at0 bits (b + bi))) (seqZ 0 8) 0)
    <$> seqZ 0 (Z.of_nat (length bits) `div` 8).

Definition _majorityVote (captures : list (list Z)) : list Z :=
  match captures with
  | [] => []
  | first :: _ =>
      let numDots := Z.of_nat (length first) in
      (fun d =>
         let counts :=
           fold_left (fun counts capture =>
                        let v := Z.land (at0 capture d) 0x07 in
                        alter Z.succ (Z.to_nat v) counts)
                     captures (replicate 8 0) in
         fold_left (fun best v2 => if at0 counts v2 >? at0 counts best then v2 else best)
                   (seqZ 1 7) 0)
        <$> seqZ 0 numDots
  end.

Definition progress (s : Decoder) : float :=
  match _totalFrames s with
  | None => F64.ofZ 0
  | Some totalFrames =>
      if totalFrames =? 0 then F64.ofZ 0
      else
        let total :=
          fold_left
            (fun total i =>
               match _frames s !! i with
               | Some _ => F64.add total (F64.ofZ 1)
               | None =>
                   match _votes s !! i with
                   | Some votes =>
                       F64.add total
                         (F64.min (F64.div (F64.ofZ (Z.of_nat (length votes)))
                                           (F64.ofZ MIN_VOTES))
                                  (F64.lit 99 100))
                   | None => total
                   end
               end)
            (seqZ 0 totalFrames) (F64.ofZ 0) in
        F64.min (F64.div total (F64.ofZ totalFrames)) (F64.ofZ 1)
  end.

(** The entries of an object with integer keys in [for ... in] order:
    ascending keys. *)
Definition key_le (a b : Z * Z) : Prop := a.1 <= b.1.

#[global] Instance key_le_dec : RelDecision key_le.
Proof. intros a b. unfold key_le. apply _. Defined.

Definition entries (m : gmap Z Z) : list (Z * Z) :=
  merge_sort key_le (map_to_list m).

(** The plurality loop: [(bestFt, bestCount)]. *)
Definition plurality (ftCounts : gmap Z Z) : option Z * Z :=
  fold_left
    (fun '(bestFt, bestCount) '(ftKey, count) =>
       if count >? bestCount then (Some ftKey, count) else (bestFt, bestCount))
    (entries ftCounts) (None, 0).

(** The test [bestCount < this._ftTotal * 0.3]. *)
Definition belowThirtyPercent (bestCount ftTotal : Z) : bool :=
  F64.ltb (F64.ofZ bestCount) (F64.mul (F64.ofZ ftTotal) (F64.lit 3 10)).

(** The tally at the head of the locking block. *)
Definition tally (s : Decoder) (totalFrames : Z) : Decoder :=
  {| _votes := _votes s; _frames := _frames s; _totalFrames := _totalFrames s;
     _received := _received s;
     _ftCounts := <[totalFrames := default 0 (_ftCounts s !! totalFrames) + 1]> (_ftCounts s);
     _ftTotal := _ftTotal s + 1 |}.

(** The locking block: the decoder with [_totalFrames] set, or [None] where
    [addFrame] returns [{ complete: false, progress: 0 }] from it. *)
Definition lock (s : Decoder) : option Decoder :=
  match _totalFrames s with
  | Some _ => Some s
  | None =>
      if _ftTotal s <? FT_SETTLE_MIN then None
      else
        let '(bestFt, bestCount) := plurality (_ftCounts s) in
        if belowThirtyPercent bestCount (_ftTotal s) then None
        else Some {| _votes := _votes s; _frames := _frames s; _totalFrames := bestFt;
                     _received := _received s; _ftCounts := _ftCounts s;
                     _ftTotal := _ftTotal s |}
  end.

(** The voting block, entered with a capture that agrees with the lock. *)
Definition vote (s : Decoder) (frameIndex : Z) (dotValues : list Z) : Decoder * Result :=
  let bucket := default [] (_votes s !! frameIndex) ++ [dotValues] in
  let s := {| _votes := <[frameIndex := bucket]> (_votes s); _frames := _frames s;
              _totalFrames := _totalFrames s; _received := _received s;
              _ftCounts := _ftCounts s; _ftTotal := _ftTotal s |} in
  let numVotes := Z.of_nat (length bucket) in
  let finish (s : Decoder) :=
    (s, {| complete := bool_decide (default 0 (_totalFrames s) <= _received s);
           progress_ := progress s |}) in
  if numVotes >=? MIN_VOTES then
    let voted := _majorityVote bucket in
    let votedBytes := _dotsToBytes voted in
    let votedFi := votedBytes !! 0%nat in
    let votedFt := votedBytes !! 1%nat in
    if bool_decide (votedFi ≠ Some frameIndex) || bool_decide (votedFt ≠ _totalFrames s) then
      let s := {| _votes := <[frameIndex := []]> (_votes s); _frames := _frames s;
                  _totalFrames := _totalFrames s; _received := _received s;
                  _ftCounts := _ftCounts s; _ftTotal := _ftTotal s |} in
      (s, {| complete := false; progress_ := progress s |})
    else
      let payload := drop 2 votedBytes in
      let received :=
        match _frames s !! frameIndex with
        | Some _ => _received s
        | None => _received s + 1
        end in
      finish {| _votes := _votes s; _frames := <[frameIndex := payload]> (_frames s);
                _totalFrames := _totalFrames s; _received := received;
                _ftCounts := _ftCounts s; _ftTotal := _ftTotal s |}
  else finish s.

Definition addFrame (s : Decoder) (dotValues : list Z) : Decoder * Result :=
  let rawBytes := _dotsToBytes dotValues in
  if Z.of_nat (length rawBytes) <? 2 then
    (s, {| complete := false; progress_ := progress s |})
  else
    let frameIndex := at0 rawBytes 0 in
    let totalFrames := at0 rawBytes 1 in
    if (totalFrames =? 0) || (totalFrames >? 200) then
      (s, {| complete := false; progress_ := progress s |})
    else if frameIndex >=? totalFrames then
      (s, {| complete := false; progress_ := progress s |})
    else
      let s := tally s totalFrames in
      match lock s with
      | None => (s, {| complete := false; progress_ := F64.ofZ 0 |})
      | Some s =>
          if bool_decide (Some totalFrames ≠ _totalFrames s) then
            (s, {| complete := false; progress_ := progress s |})
          else vote s frameIndex dotValues
      end.

(** Feeding a sequence of captures. *)
Definition addFrames (s : Decoder) (captures : list (list Z)) : Decoder :=
  fold_left (fun s dv => fst (addFrame s dv)) captures s.

(** *** Temporal stabilisation of the transform (in [_scan]) *)

Record Point := { x : float; y : float }.

Record Blob := { bx : float; by_ : float; size : Z }.

Record Transform := {
  center : Point;
  scale : float;
  rotation : float;
  anchors : list Blob
}.

Definition centerDrift (fresh cached : Transform) : float :=
  let cdx := F64.sub (x (center fresh)) (x (center cached)) in
  let cdy := F64.sub (y (center fresh)) (y (center cached)) in
  F64.sqrt (F64.add (F64.mul cdx cdx) (F64.mul cdy cdy)).

Definition scaleDrift (fresh cached : Transform) : float :=
  F64.abs (F64.sub (scale fresh) (scale cached)).

Definition rotDrift (fresh cached : Transform) : float :=
  F64.abs (F64.sub (rotation fresh) (rotation cached)).

Definition maxCenterDrift (cached : Transform) : float :=
  F64.mul (scale cached) (F64.lit 15 100).

Definition maxScaleDrift (cached : Transform) : float :=
  F64.mul (scale cached) (F64.lit 20 100).

Definition maxRotDrift : float :=
  F64.div (F64.mul (F64.ofZ 15) F64.PI) (F64.ofZ 180).

(** The "derive or reuse transform" block of [_scan]: from the cache, the
    number of blobs and what [deriveTransform] returns for them ([None] is
    [null]), the transform used for this tick and the cache after it. *)
Definition reuseTransform (cachedTransform : option Transform) (blobs : Z)
    (freshTransform : option Transform) : option Transform * option Transform :=
  let '(transform, cachedTransform) :=
    if blobs >=? 3 then
      match freshTransform, cachedTransform with
      | Some fresh, Some cached =>
          if F64.ltb (centerDrift fresh cached) (maxCenterDrift cached)
             && F64.ltb (scaleDrift fresh cached) (maxScaleDrift cached)
             && F64.ltb (rotDrift fresh cached) maxRotDrift
          then (Some fresh, Some fresh)
          else (Some cached, Some cached)
      | Some fresh, None => (Some fresh, None)
      | None, _ => (None, cachedTransform)
      end
    else (None, cachedTransform) in
  match transform, cachedTransform with
  | None, Some cached => (Some cached, cachedTransform)
  | _, _ => (transform, cachedTransform)
  end.

(** [reassemble]: the accepted payloads, in the order of their frame
    indices (an accepted payload is an array, which is never falsy). *)
Definition reassemble (s : Decoder) : list Z :=
  match _totalFrames s with
  | None => []
  | Some totalFrames =>
      if totalFrames =? 0 then []
      else mjoin (omap (fun i => _frames s !! i) (seqZ 0 totalFrames))
  end.

End Scanner.

(** * Auxiliary notions used in the proofs *)

Module Aux.
Import Go.

Definition bit (x : Z) : Prop := x = 0 \/ x = 1.

Definition byte (b : Z) : Prop := 0 <= b < 256.

(** The eight bits of a byte, most significant first. *)
Definition bits8 (b : Z) : list Z := (fun j => Z.land (b ≫ j) 1) <$> reverse (seqZ 0 8).

(** The byte the packing loop builds from the bits at [bits[off..off+7]]. *)
Definition pack8 (bits : list Z) (off : Z) : Z :=
  fold_left (fun val j => uint8 (Z.lor (val ≪ 1) (idx bits (off + j)))) (seqZ 0 8) 0.

(** The value the encoder gives the dot number [k]. *)
Definition dotValue (bits : list Z) (bitsPerDot k : Z) : Z :=
  fold_left (fun value b => uint8 (Z.lor (value ≪ 1) (idx bits (k * bitsPerDot + b))))
            (seqZ 0 bitsPerDot) 0.

(** The bits the decoder reads from a dot value. *)
Definition dotBits (bitsPerDot v : Z) : list Z :=
  (fun b => Z.land (v ≫ b) 1) <$> reverse (seqZ 0 bitsPerDot).

(** The chunk of the payload that frame [i] carries under the default
    configuration (20 payload bytes a frame). *)
Definition chunkOf (data : list Z) (i : Z) : list Z :=
  slice data (i * 20) (if i * 20 + 20 >? len data then len data else i * 20 + 20).

(** The payload the decoder stores for frame [i]: the chunk, zero-padded
    to the 20 bytes of a frame. *)
Definition stored (data : list Z) (i : Z) : list Z :=
  chunkOf data i ++ replicate (20 - length (chunkOf data i)) 0.

(** The number of frames [Encode] makes of the payload. *)
Definition frameCount (data : list Z) : Z :=
  let t := (len data + 20 - 1) ÷ 20 in if t >? 255 then 255 else t.

(** Frame [i] as [Encode] builds it under the default configuration. *)
Definition encoded (data : list Z) (i : Z) : Frame :=
  {| FIndex := i;
     Total := frameCount data;
     Dots :=
       bytesToDots (NewEncoder DefaultConfig)
         (let frameBytes := uint8 i :: uint8 (frameCount data) :: chunkOf data i in
          if len frameBytes <? 23
          then frameBytes ++ replicate (Z.to_nat (23 - len frameBytes)) 0
          else frameBytes);
     Payload := chunkOf data i |}.

(** The same notions for any configuration [c]: the chunk frame [i]
    carries, the payload the decoder stores for it, the number of frames
    and frame [i] as [Encode] builds it. *)
Definition chunkAt (c : Config) (data : list Z) (i : Z) : list Z :=
  slice data (i * BytesPerFrame c)
    (if i * BytesPerFrame c + BytesPerFrame c >? len data then len data
     else i * BytesPerFrame c + BytesPerFrame c).

Definition storedAt (c : Config) (data : list Z) (i : Z) : list Z :=
  chunkAt c data i ++ replicate (Z.to_nat (BytesPerFrame c) - length (chunkAt c data i)) 0.

Definition framesOf (c : Config) (data : list Z) : Z :=
  let t := (len data + BytesPerFrame c - 1) ÷ BytesPerFrame c in
  if t >? 255 then 255 else t.

Definition paddedAt (c : Config) (data : list Z) (i : Z) : list Z :=
  let frameBytes := uint8 i :: uint8 (framesOf c data) :: chunkAt c data i in
  let totalBytes := (BitsPerFrame c + 7) ÷ 8 in
  if len frameBytes <? totalBytes
  then frameBytes ++ replicate (Z.to_nat (totalBytes - len frameBytes)) 0
  else frameBytes.

Definition encodedAt (c : Config) (data : list Z) (i : Z) : Frame :=
  {| FIndex := i;
     Total := framesOf c data;
     Dots := bytesToDots (NewEncoder c) (paddedAt c data i);
     Payload := chunkAt c data i |}.

(** What the camera reads off frame [i] when every dot is matched to its
    own colour: the dot values in layout order. *)
Definition captureAt (c : Config) (data : list Z) (i : Z) : list Z :=
  Value <$> Dots (encodedAt c data i).

(** How often [j] occurs in [l]. *)
Definition occurrences (j : Z) (l : list Z) : Z :=
  Z.of_nat (length (filter (fun i => i = j) l)).

(** The scanner's decoder while it still counts header totals: [k]
    captures that all said [T] have been tallied and nothing is stored. *)
Definition settling (T k : Z) (s : Scanner.Decoder) : Prop :=
  Scanner._votes s = ∅ /\ Scanner._frames s = ∅ /\
  Scanner._totalFrames s = None /\ Scanner._received s = 0 /\
  Scanner._ftTotal s = k /\
  Scanner._ftCounts s = (if k =? 0 then ∅ else {[ T := k ]}).

(** The scanner's decoder after it has locked on the total of the payload
    and voted on clean captures of the frames [l]: a bucket holds the
    captures of its frame, and a frame is stored once it has five. *)
Definition voting (c : Config) (data : list Z) (l : list Z) (s : Scanner.Decoder) : Prop :=
  Scanner._totalFrames s = Some (framesOf c data) /\
  (forall j, Scanner._votes s !! j
             = if occurrences j l =? 0 then None
               else Some (replicate (Z.to_nat (occurrences j l)) (captureAt c data j))) /\
  (forall j, Scanner._frames s !! j
             = if 5 <=? occurrences j l then Some (storedAt c data j) else None) /\
  Scanner._received s = Z.of_nat (size (Scanner._frames s)).

(** What every scanner decoder reached from [newDecoder] satisfies: the
    received count is the number of stored frames, and frames are stored
    only under indices below the locked total. *)
Definition sound (s : Scanner.Decoder) : Prop :=
  Scanner._received s = Z.of_nat (size (Scanner._frames s)) /\
  forall j, is_Some (Scanner._frames s !! j) ->
            exists T, Scanner._totalFrames s = Some T /\ 0 <= j < T.

(** The npm package's view of a Go configuration, dot and frame. *)
Definition npmConfig (c : Config) : Npm.Config :=
  {| Npm.rings := Rings c; Npm.bitsPerDot := BitsPerDot c; Npm.fps := FPS c |}.

Definition npmDot (dot : Dot) : Npm.Dot :=
  {| Npm.ring := Ring dot; Npm.index := Index dot; Npm.value := Value dot |}.

Definition npmFrame (f : Frame) : Npm.Frame :=
  {| Npm.findex := FIndex f; Npm.ftotal := Total f;
     Npm.fdots := npmDot <$> Dots f; Npm.fpayload := Payload f |}.

(** What every Go decoder reached from [NewDecoder] satisfies: the received
    count is the number of stored frames, and the stored indices and the
    total are bytes. *)
Definition consistent (d : Decoder) : Prop :=
  received d = Z.of_nat (size (frames d)) /\
  (forall j, is_Some (frames d !! j) -> 0 <= j < 256) /\
  0 <= total d < 256.

(** The dots of a frame whose header says index 1 of 1. *)
Definition index_ge_total_dots : list Dot :=
  bytesToDots (NewEncoder DefaultConfig) ([1; 1] ++ replicate 21 0).

(** The dots of two frames with the same index 0: "hi" as frame 0 of 1 and
    "xy" as frame 0 of 2. *)
Definition hi_dots : list Dot :=
  bytesToDots (NewEncoder DefaultConfig) ([0; 1; 104; 105] ++ replicate 19 0).
Definition xy_dots : list Dot :=
  bytesToDots (NewEncoder DefaultConfig) ([0; 2; 120; 121] ++ replicate 19 0).

(** Captures of the 60 dots of the default layout whose header bytes
    are (index 0, total 3), (index 0, total 5) and (index 1, total 3); the
    payload dots are all 0. *)
Definition capture_0_of_3 : list Z := [0; 0; 0; 0; 1; 4] ++ replicate 54 0.
Definition capture_1_of_3 : list Z := [0; 0; 2; 0; 1; 4] ++ replicate 54 0.

(** A decoder locked on 3 whose bucket for frame 0 holds four captures
    that read as frame 1. *)
Definition contaminated : Scanner.Decoder :=
  {| Scanner._votes := {[ 0 := replicate 4 capture_1_of_3 ]};
     Scanner._frames := ∅;
     Scanner._totalFrames := Some 3;
     Scanner._received := 0;
     Scanner._ftCounts := {[ 3 := 10 ]};
     Scanner._ftTotal := 10 |}.

(** A cached transform and fresh ones with the same scale and rotation
    whose centre is 20 and 30 pixels away: 10 and 15 percent of the scale. *)
Definition cached_transform : Scanner.Transform :=
  {| Scanner.center := {| Scanner.x := F64.ofZ 320; Scanner.y := F64.ofZ 240 |};
     Scanner.scale := F64.ofZ 200;
     Scanner.rotation := F64.lit 1 10;
     Scanner.anchors := [] |}.

Definition fresh_transform (dx dy : Z) : Scanner.Transform :=
  {| Scanner.center := {| Scanner.x := F64.ofZ (320 + dx); Scanner.y := F64.ofZ (240 + dy) |};
     Scanner.scale := F64.ofZ 200;
     Scanner.rotation := F64.lit 1 10;
     Scanner.anchors := [] |}.

(** A fresh transform at the cached centre, with its own scale and
    rotation. *)
Definition scaled_transform (s : Z) (r : float) : Scanner.Transform :=
  {| Scanner.center := {| Scanner.x := F64.ofZ 320; Scanner.y := F64.ofZ 240 |};
     Scanner.scale := F64.ofZ s;
     Scanner.rotation := r;
     Scanner.anchors := [] |}.


End Aux.

(** * Properties *)

(** ** Bit packing *)

Section Bits.
Import Go Aux.

Lemma bytesToBits_cons b data : bytesToBits (b :: data) = bits8 b ++ bytesToBits data.
Proof. reflexivity. Qed.

Lemma length_bits8 b : length (bits8 b) = 8%nat.
Proof. reflexivity. Qed.

Lemma length_bytesToBits data : length (bytesToBits data) = (8 * length data)%nat.
Proof.
  induction data as [|b data IH]; [done|].
  rewrite bytesToBits_cons, length_app, length_bits8, IH. simpl. lia.
Qed.

Lemma bytesToBits_lookup data (i j : nat) b :
  data !! i = Some b -> (j < 8)%nat ->
  bytesToBits data !! (8 * i + j)%nat = Some (Z.land (b ≫ (7 - Z.of_nat j)) 1).
Proof.
  revert i. induction data as [|b0 data IH]; intros i Hi Hj; [done|].
  rewrite bytesToBits_cons. destruct i as [|i].
  - simpl in Hi. injection Hi as ->. rewrite lookup_app_l by (rewrite length_bits8; lia).
    replace (8 * 0 + j)%nat with j by lia.
    do 8 (destruct j as [|j]; [reflexivity|]). lia.
  - simpl in Hi. rewrite lookup_app_r by (rewrite length_bits8; lia).
    rewrite length_bits8. replace (8 * S i + j - 8)%nat with (8 * i + j)%nat by lia.
    by apply IH.
Qed.

Lemma land_1_bit x : Z.land x 1 = 0 \/ Z.land x 1 = 1.
Proof.
  assert (H : Z.land x 1 = x mod 2) by (apply (Z.land_ones x 1); lia).
  assert (0 <= x mod 2 < 2) by (apply Z.mod_pos_bound; lia). lia.
Qed.

Lemma bytesToBits_bit data : Forall (fun x => x = 0 \/ x = 1) (bytesToBits data).
Proof.
  induction data as [|b data IH]; [constructor|].
  rewrite bytesToBits_cons. apply Forall_app. split; [|done].
  unfold bits8. apply Forall_fmap, Forall_forall. intros j _. apply land_1_bit.
Qed.

(** Packing the eight bits of a byte gives the byte back. *)
Lemma pack_bits8 b :
  0 <= b < 256 ->
  fold_left (fun val x => uint8 (Z.lor (val ≪ 1) x)) (bits8 b) 0 = b.
Proof.
  intros Hb.
  assert (Hall : forallb (fun b => fold_left (fun val x => uint8 (Z.lor (val ≪ 1) x)) (bits8 b) 0 =? b)
                   (seqZ 0 256) = true) by (vm_compute; reflexivity).
  rewrite forallb_forall in Hall.
  apply Z.eqb_eq, Hall, list_elem_of_In, elem_of_seqZ. lia.
Qed.

End Bits.

(** ** Dots written by the encoder, bits read by the decoder *)

Section DotCodec.
Import Go Aux.

Lemma ringDots_values bits bpd ring positions :
  forall j k dots,
    0 < bpd -> 0 <= k ->
    (k + len positions) * bpd <= len bits ->
    fst (ringDots bits bpd ring positions j k dots) = k + len positions /\
    Value <$> snd (ringDots bits bpd ring positions j k dots)
    = (Value <$> dots) ++ (dotValue bits bpd <$> seqZ k (len positions)).
Proof.
  induction positions as [|p rest IH]; intros j k dots Hb Hk Hlen.
  - simpl. split; [unfold len; simpl; lia|]. by rewrite app_nil_r.
  - simpl ringDots. fold (dotValue bits bpd k).
    assert (Hl : len (p :: rest) = len rest + 1) by (unfold len; simpl; lia).
    rewrite Hl in *.
    assert (0 <= len rest) by (unfold len; lia).
    destruct (Z.gtb_spec (k * bpd + bpd) (len bits)) as [Hgt|Hle]; [nia|].
    destruct (IH (j + 1) (k + 1)
                (dots ++ [ {| Ring := DotCount ring ÷ 6; Index := j;
                              Value := dotValue bits bpd k |} ])) as [IH1 IH2];
      [lia|lia|nia|].
    split; [rewrite IH1; lia|].
    rewrite IH2, fmap_app, <- app_assoc. f_equal. simpl.
    rewrite (seqZ_cons k) by (unfold len; lia). simpl. do 2 f_equal. f_equal; lia.
Qed.

Lemma bytesToDots_values e data :
  0 < BitsPerDot (config e) ->
  len (LRings (layout e) ≫= Positions) * BitsPerDot (config e) <= len (bytesToBits data) ->
  Value <$> bytesToDots e data
  = dotValue (bytesToBits data) (BitsPerDot (config e))
      <$> seqZ 0 (len (LRings (layout e) ≫= Positions)).
Proof.
  intros Hb. unfold bytesToDots.
  set (bits := bytesToBits data). set (bpd := BitsPerDot (config e)).
  assert (G : forall rings k dots, 0 <= k ->
    (k + len (rings ≫= Positions)) * bpd <= len bits ->
    Value <$> snd (fold_left (fun '(dotIndex, dots) ring =>
                     ringDots bits bpd ring (Positions ring) 0 dotIndex dots) rings (k, dots))
    = (Value <$> dots) ++ (dotValue bits bpd <$> seqZ k (len (rings ≫= Positions)))).
  { induction rings as [|r rings IH]; intros k dots Hk Hlen.
    - simpl. by rewrite app_nil_r.
    - simpl fold_left. unfold len in *. rewrite bind_cons, length_app in *.
      destruct (ringDots_values bits bpd r (Positions r) 0 k dots) as [H1 H2];
        [done|done|unfold len; nia|].
      destruct (ringDots bits bpd r (Positions r) 0 k dots) as [k' dots'] eqn:E.
      simpl in H1, H2. subst k'. unfold len in *.
      rewrite IH by (unfold len; nia). rewrite H2, <- app_assoc. f_equal.
      rewrite Nat2Z.inj_add, seqZ_app by lia.
      by rewrite fmap_app. }
  intros Hlen. rewrite (G _ 0 []); [done|lia|by rewrite Z.add_0_l].
Qed.

Lemma dotBits_dotValue b0 b1 b2 :
  bit b0 -> bit b1 -> bit b2 ->
  dotBits 3 (fold_left (fun value x => uint8 (Z.lor (value ≪ 1) x)) [b0; b1; b2] 0)
  = [b0; b1; b2].
Proof. by intros [-> | ->] [-> | ->] [-> | ->]. Qed.

Lemma idx_lookup (l : list Z) (i : nat) x : l !! i = Some x -> idx l (Z.of_nat i) = x.
Proof. unfold idx. rewrite Nat2Z.id. by intros ->. Qed.

(** Reading back the dots [k .. k+n-1] gives the bits they were made of. *)
Lemma decode_values bits (n : nat) :
  Forall bit bits ->
  forall k : nat,
    (3 * (k + n) <= length bits)%nat ->
    (dotValue bits 3 <$> seqZ (Z.of_nat k) (Z.of_nat n)) ≫= dotBits 3
    = take (3 * n) (drop (3 * k) bits).
Proof.
  intros Hbits. induction n as [|n IH]; intros k Hlen.
  - by rewrite Nat.mul_0_r.
  - rewrite seqZ_cons by lia.
    replace (Z.succ (Z.of_nat k)) with (Z.of_nat (S k)) by lia.
    replace (Z.pred (Z.of_nat (S n))) with (Z.of_nat n) by lia.
    rewrite fmap_cons, bind_cons, IH by lia.
    destruct (lookup_lt_is_Some_2 bits (3 * k)) as [b0 H0]; [lia|].
    destruct (lookup_lt_is_Some_2 bits (3 * k + 1)) as [b1 H1]; [lia|].
    destruct (lookup_lt_is_Some_2 bits (3 * k + 2)) as [b2 H2]; [lia|].
    rewrite (drop_S bits b0 (3 * k)) by done.
    rewrite (drop_S bits b1 (S (3 * k))) by (rewrite <- H1; f_equal; lia).
    rewrite (drop_S bits b2 (S (S (3 * k)))) by (rewrite <- H2; f_equal; lia).
    replace (3 * S n)%nat with (S (S (S (3 * n)))) by lia. simpl take.
    replace (S (S (S (3 * k)))) with (3 * S k)%nat by lia.
    change (?a :: ?b :: ?c :: ?l) with ([a; b; c] ++ l).
    f_equal; [|do 2 f_equal; lia].
    unfold dotValue. change (seqZ 0 3) with [0; 1; 2]. simpl fold_left.
    replace (Z.of_nat k * 3 + 0) with (Z.of_nat (3 * k)) by lia.
    replace (Z.of_nat k * 3 + 1) with (Z.of_nat (3 * k + 1)) by lia.
    replace (Z.of_nat k * 3 + 2) with (Z.of_nat (3 * k + 2)) by lia.
    rewrite (idx_lookup _ _ _ H0), (idx_lookup _ _ _ H1), (idx_lookup _ _ _ H2).
    apply (dotBits_dotValue b0 b1 b2);
      eapply (proj1 (Forall_lookup _ _) Hbits); eassumption.
Qed.

End DotCodec.

(** ** One frame through the default codec *)

Section FrameCodec.
Import Go Aux.

Lemma default_dot_count :
  len (LRings (layout (NewEncoder DefaultConfig)) ≫= Positions) = 60.
Proof. vm_compute. reflexivity. Qed.

Lemma pack8_bytesToBits data (i n : nat) b :
  Forall byte data -> data !! i = Some b -> (8 * i + 8 <= n)%nat ->
  pack8 (take n (bytesToBits data)) (Z.of_nat i * 8) = b.
Proof.
  intros Hdata Hi Hn.
  assert (Hj : forall j : Z, 0 <= j < 8 ->
    idx (take n (bytesToBits data)) (Z.of_nat i * 8 + j) = Z.land (b ≫ (7 - j)) 1).
  { intros j Hj.
    replace (Z.of_nat i * 8 + j) with (Z.of_nat (8 * i + Z.to_nat j)) by lia.
    replace (7 - j) with (7 - Z.of_nat (Z.to_nat j)) by lia.
    apply idx_lookup. rewrite lookup_take_lt by lia. apply bytesToBits_lookup; [done|lia]. }
  unfold pack8. change (seqZ 0 8) with [0; 1; 2; 3; 4; 5; 6; 7]. simpl fold_left.
  rewrite (Hj 0), (Hj 1), (Hj 2), (Hj 3), (Hj 4), (Hj 5), (Hj 6), (Hj 7) by lia.
  apply (pack_bits8 b). eapply (proj1 (Forall_lookup _ _) Hdata). eassumption.
Qed.

(** The decoder reads back the first 22 bytes of the 23 the encoder has
    spread over the 60 dots. *)
Lemma dotsToBytes_bytesToDots d frameBytes :
  dconfig d = DefaultConfig ->
  Forall byte frameBytes -> (23 <= length frameBytes)%nat ->
  dotsToBytes d (bytesToDots (NewEncoder DefaultConfig) frameBytes)
  = take 22 frameBytes.
Proof.
  intros Hd Hbytes Hlen. unfold dotsToBytes. rewrite Hd.
  change (BitsPerDot DefaultConfig) with 3.
  pose proof (length_bytesToBits frameBytes) as Hbl.
  assert (Hbits :
    (bytesToDots (NewEncoder DefaultConfig) frameBytes
       ≫= fun dot => (fun b => Z.land (Value dot ≫ b) 1) <$> reverse (seqZ 0 3))
    = take 180 (bytesToBits frameBytes)).
  { change (fun dot => (fun b => Z.land (Value dot ≫ b) 1) <$> reverse (seqZ 0 3))
      with (dotBits 3 ∘ Value).
    rewrite <- list_fmap_bind, bytesToDots_values.
    - rewrite default_dot_count.
      change (BitsPerDot (config (NewEncoder DefaultConfig))) with 3.
      apply (decode_values (bytesToBits frameBytes) 60 (bytesToBits_bit _) 0). lia.
    - done.
    - rewrite default_dot_count. unfold len. rewrite Hbl.
      change (BitsPerDot (config (NewEncoder DefaultConfig))) with 3. lia. }
  rewrite Hbits.
  assert (Hn : len (take 180 (bytesToBits frameBytes)) ÷ 8 = 22).
  { unfold len. rewrite length_take_le by lia. reflexivity. }
  rewrite Hn.
  apply (list_eq_same_length _ _ 22).
  - rewrite length_take_le; lia.
  - by rewrite length_fmap, length_seqZ.
  - intros i x y Hi Hx Hy.
    rewrite list_lookup_fmap, lookup_seqZ_lt in Hx by lia. simpl in Hx.
    injection Hx as <-. rewrite lookup_take_lt in Hy by lia.
    change (fold_left _ (seqZ 0 8) 0)
      with (pack8 (take 180 (bytesToBits frameBytes)) (Z.of_nat i * 8)).
    apply pack8_bytesToBits; [done|done|lia].
Qed.

End FrameCodec.

(** ** Encoding a payload and decoding all its frames *)

Section RoundTrip.
Import Go Aux.

Variable data : list Z.
Hypothesis data_bytes : Forall byte data.

Let e := NewEncoder DefaultConfig.

Lemma chunkOf_take i : 0 <= i -> chunkOf data i = take 20 (drop (Z.to_nat (i * 20)) data).
Proof.
  intros Hi. unfold chunkOf, slice, len.
  destruct (Z.gtb_spec (i * 20 + 20) (Z.of_nat (length data))) as [H|H].
  - rewrite !take_ge; [done|rewrite length_drop; lia|rewrite length_drop; lia].
  - f_equal. lia.
Qed.

Lemma chunkOf_length i : 0 <= i -> (length (chunkOf data i) <= 20)%nat.
Proof. intros Hi. rewrite chunkOf_take, length_take by done. lia. Qed.

Lemma chunkOf_bytes i : 0 <= i -> Forall byte (chunkOf data i).
Proof.
  intros Hi. rewrite chunkOf_take by done.
  apply Forall_take, Forall_drop, data_bytes.
Qed.

(** What [AddFrame] does with the dots of frame [i] of [T]. *)
Lemma AddFrame_encoded d i T :
  dconfig d = DefaultConfig -> 0 <= i < T -> T <= 255 ->
  let frameBytes := uint8 i :: uint8 T :: chunkOf data i in
  let frameBytes :=
    if len frameBytes <? 23
    then frameBytes ++ replicate (Z.to_nat (23 - len frameBytes)) 0
    else frameBytes in
  AddFrame d (bytesToDots e frameBytes)
  = match frames d !! i with
    | Some _ =>
        ({| dconfig := dconfig d; frames := frames d; total := T; received := received d |},
         (received d >=? T, None))
    | None =>
        ({| dconfig := dconfig d; frames := <[i := stored data i]> (frames d);
            total := T; received := received d + 1 |},
         (received d + 1 >=? T, None))
    end.
Proof.
  intros Hd Hi HT.
  pose proof (chunkOf_length i ltac:(lia)) as Hcl.
  pose proof (chunkOf_bytes i ltac:(lia)) as Hcb.
  unfold uint8. rewrite !Z.mod_small by lia.
  assert (Hlt : (len (i :: T :: chunkOf data i) <? 23) = true)
    by (apply Z.ltb_lt; unfold len; simpl; lia).
  cbv zeta. rewrite Hlt.
  set (fb := (i :: T :: chunkOf data i) ++ _).
  assert (Hfl : length fb = 23%nat).
  { unfold fb, len. rewrite length_app, length_replicate. simpl length. lia. }
  assert (Hfb : take 22 fb = i :: T :: stored data i).
  { unfold fb, stored, len. simpl length.
    replace (Z.to_nat (23 - Z.of_nat (S (S (length (chunkOf data i))))))
      with (S (20 - length (chunkOf data i))) by lia.
    change (take 22 ((i :: T :: chunkOf data i) ++ ?R)) with (i :: T :: take 20 (chunkOf data i ++ R)).
    do 2 f_equal. rewrite take_app_ge by lia. f_equal.
    rewrite take_replicate. f_equal. lia. }
  assert (Hdec : dotsToBytes d (bytesToDots e fb) = i :: T :: stored data i).
  { rewrite <- Hfb. apply dotsToBytes_bytesToDots; [done| |].
    - unfold fb. apply Forall_app. split.
      + repeat constructor; [lia|lia|lia|lia|done].
      + apply Forall_replicate. unfold byte. lia.
    - lia. }
  assert (Hdots : (len (bytesToDots e fb) =? 0) = false).
  { apply Z.eqb_neq. unfold len.
    rewrite <- (length_fmap Value), bytesToDots_values.
    - rewrite length_fmap, length_seqZ. fold e. unfold e.
      rewrite default_dot_count. lia.
    - done.
    - fold e. unfold e. rewrite default_dot_count. unfold len.
      rewrite length_bytesToBits.
      change (BitsPerDot (config (NewEncoder DefaultConfig))) with 3.
      rewrite Hfl. lia. }
  unfold AddFrame. rewrite Hdots, Hdec.
  assert (Hl2 : (len (i :: T :: stored data i) <? 2) = false)
    by (apply Z.ltb_ge; unfold len; simpl; lia).
  rewrite Hl2. change (idx (i :: T :: stored data i) 0) with i.
  change (idx (i :: T :: stored data i) 1) with T.
  assert (HT0 : (T =? 0) = false) by (apply Z.eqb_neq; lia).
  rewrite HT0. simpl frames. change (drop 2 (i :: T :: stored data i)) with (stored data i).
  destruct (frames d !! i); reflexivity.
Qed.

Lemma Encode_default : Encode e data = encoded data <$> seqZ 0 (frameCount data).
Proof. reflexivity. Qed.

(** The decoder after the first [k] frames. *)
Lemma feed_prefix (k : nat) :
  Z.of_nat k <= (frameCount data) -> (frameCount data) <= 255 ->
  let d := feed (NewDecoder DefaultConfig) (encoded data <$> seqZ 0 (Z.of_nat k)) in
  dconfig d = DefaultConfig /\
  received d = Z.of_nat k /\
  total d = (if k is O then 0 else (frameCount data)) /\
  forall j, frames d !! j
            = if bool_decide (0 <= j < Z.of_nat k) then Some (stored data j) else None.
Proof.
  intros Hk HT. induction k as [|k IH].
  - simpl. repeat split. intros j. rewrite bool_decide_eq_false_2 by lia. done.
  - destruct IH as (Hc & Hr & Ht & Hf); [lia|].
    cbv zeta. rewrite seqZ_S, fmap_app. unfold feed in *.
    rewrite fold_left_app, Z.add_0_l.
    change (encoded data <$> [Z.of_nat k]) with [encoded data (Z.of_nat k)]. cbn [fold_left].
    set (d := fold_left _ _ _) in *.
    change (Dots (encoded data (Z.of_nat k))) with
      (bytesToDots e
         (let frameBytes := uint8 (Z.of_nat k) :: uint8 (frameCount data) :: chunkOf data (Z.of_nat k) in
          if len frameBytes <? 23
          then frameBytes ++ replicate (Z.to_nat (23 - len frameBytes)) 0
          else frameBytes)).
    pose proof (AddFrame_encoded d (Z.of_nat k) (frameCount data) Hc) as HA.
    cbv zeta in *. rewrite HA by lia. clear HA.
    rewrite Hf, bool_decide_eq_false_2 by lia. simpl.
    repeat split; [done|lia|].
    intros j. destruct (decide (j = Z.of_nat k)) as [->|Hne].
    + rewrite lookup_insert_eq, bool_decide_eq_true_2 by lia. done.
    + rewrite lookup_insert_ne, Hf by done.
      destruct (decide (0 <= j < Z.of_nat k)).
      * rewrite !bool_decide_eq_true_2 by lia. done.
      * rewrite !bool_decide_eq_false_2 by lia. done.
Qed.

Lemma collect_stored (fr : gmap Z (list Z)) (n : nat) :
  forall i acc,
    (forall j, i <= j < i + Z.of_nat n -> fr !! j = Some (stored data j)) ->
    collect fr i n acc = inl (acc ++ mjoin (stored data <$> seqZ i (Z.of_nat n))).
Proof.
  induction n as [|n IH]; intros i acc Hfr.
  - simpl. by rewrite app_nil_r.
  - simpl collect. rewrite Hfr by lia. rewrite IH by (intros; apply Hfr; lia).
    rewrite (seqZ_cons i) by lia. rewrite fmap_cons. simpl mjoin.
    replace (Z.succ i) with (i + 1) by lia.
    replace (Z.pred (Z.of_nat (S n))) with (Z.of_nat n) by lia.
    by rewrite <- app_assoc.
Qed.

(** The stored data payloads, put one after the other, are the payload and
    the padding of its last frame. *)
Lemma join_stored (n : nat) :
  forall i : nat,
    (20 * (i + n) < length data <= 20 * (i + S n))%nat ->
    mjoin (stored data <$> seqZ (Z.of_nat i) (Z.of_nat (S n)))
    = drop (20 * i) data ++ replicate (20 * (i + S n) - length data) 0.
Proof.
  induction n as [|n IH]; intros i Hlen.
  - change (seqZ (Z.of_nat i) (Z.of_nat 1)) with [Z.of_nat i]. simpl.
    rewrite app_nil_r. unfold stored. rewrite chunkOf_take by lia.
    replace (Z.to_nat (Z.of_nat i * 20)) with (20 * i)%nat by lia.
    rewrite take_ge by (rewrite length_drop; lia).
    rewrite length_drop. do 2 f_equal. lia.
  - rewrite seqZ_cons by lia.
    replace (Z.succ (Z.of_nat i)) with (Z.of_nat (S i)) by lia.
    replace (Z.pred (Z.of_nat (S (S n)))) with (Z.of_nat (S n)) by lia.
    rewrite fmap_cons. simpl mjoin. rewrite IH by lia.
    unfold stored. rewrite chunkOf_take by lia.
    replace (Z.to_nat (Z.of_nat i * 20)) with (20 * i)%nat by lia.
    rewrite length_take, length_drop.
    replace (20 - 20 `min` (length data - 20 * i))%nat with 0%nat by lia.
    simpl replicate. rewrite app_nil_r, app_assoc.
    replace (20 * S i)%nat with (20 * i + 20)%nat by lia.
    rewrite <- drop_drop, take_drop. do 2 f_equal. lia.
Qed.

End RoundTrip.

(** * The Go codec: round trip, truncation, duplicates *)

Section GoClaims.
Import Go Aux.

Lemma frameCount_bounds (data : list Z) :
  0 < len data <= 5100 ->
  1 <= frameCount data <= 255 /\
  20 * (frameCount data - 1) < len data <= 20 * frameCount data.
Proof.
  intros Hlen. unfold frameCount.
  rewrite Z.quot_div_nonneg by (unfold len in *; lia).
  pose proof (Z.div_mod (len data + 20 - 1) 20 ltac:(lia)) as Hdm.
  pose proof (Z.mod_pos_bound (len data + 20 - 1) 20 ltac:(lia)) as Hm.
  cbv zeta. destruct (Z.gtb_spec ((len data + 20 - 1) `div` 20) 255); lia.
Qed.

(** C1. Round trip under the default configuration: for every payload of
    1 to 5100 bytes, feeding the dots of every frame [Encode] returns to
    [AddFrame], in order, and then calling [Data], returns (without error)
    the payload followed by zero padding only. *)
Theorem roundtrip_default (P : list Z) :
  Forall (fun b => 0 <= b < 256) P ->
  0 < len P <= 5100 ->
  exists pad : nat,
    Data (feed (NewDecoder DefaultConfig) (Encode (NewEncoder DefaultConfig) P))
    = inl (P ++ replicate pad 0) /\
    take (length P) (P ++ replicate pad 0) = P.
Proof.
  intros Hbytes Hlen.
  destruct (frameCount_bounds P Hlen) as [HT Hchunks].
  exists (20 * Z.to_nat (frameCount P) - length P)%nat.
  split; [|by rewrite take_app_length].
  rewrite Encode_default.
  destruct (feed_prefix P Hbytes (Z.to_nat (frameCount P))) as (Hc & Hr & Ht & Hf);
    [lia|lia|].
  rewrite Z2Nat.id in * by lia.
  set (d := feed _ _) in *.
  destruct (Z.to_nat (frameCount P)) as [|n] eqn:En; [lia|].
  unfold Data. rewrite Hr, Ht, Z.ltb_irrefl, En.
  rewrite (collect_stored P (frames d) (S n) 0 []).
  - rewrite app_nil_l. change 0 with (Z.of_nat 0) at 1.
    rewrite (join_stored P n 0) by (unfold len in *; lia).
    rewrite Nat.mul_0_r, drop_0. do 2 f_equal.
  - intros j Hj. rewrite Hf, bool_decide_eq_true_2 by lia. done.
Qed.

(** The scenario of the protocol description: the payload "hi". *)
Lemma roundtrip_default_hi :
  exists pad : nat,
    Data (feed (NewDecoder DefaultConfig) (Encode (NewEncoder DefaultConfig) [104; 105]))
    = inl ([104; 105] ++ replicate pad 0) /\
    take 2 ([104; 105] ++ replicate pad 0) = [104; 105].
Proof.
  apply (roundtrip_default [104; 105]).
  - repeat constructor; lia.
  - unfold len. simpl. lia.
Defined.

(** The chunks of the first [n] frames are the first [n * bytesPerFrame]
    bytes of the payload. *)
Lemma chunks_join (data : list Z) (bpf : Z) (n : nat) :
  0 < bpf -> Z.of_nat n * bpf <= len data ->
  mjoin ((fun i => slice data (i * bpf)
                     (if i * bpf + bpf >? len data then len data else i * bpf + bpf))
           <$> seqZ 0 (Z.of_nat n))
  = take (Z.to_nat (Z.of_nat n * bpf)) data.
Proof.
  intros Hbpf. induction n as [|n IH]; intros Hlen; [done|].
  rewrite seqZ_S, fmap_app, join_app, IH by lia.
  simpl. rewrite app_nil_r, Z.add_0_l. unfold slice.
  destruct (Z.gtb_spec (Z.of_nat n * bpf + bpf) (len data)) as [H|H]; [lia|].
  replace (Z.to_nat (Z.of_nat n * bpf + bpf - Z.of_nat n * bpf)) with (Z.to_nat bpf) by lia.
  rewrite take_take_drop. f_equal. lia.
Qed.

(** C9, where it fails: a configuration of one ring and three bits per dot
    has 18 bits per frame and so no room for a payload byte; every payload
    is longer than [255 * BytesPerFrame = 0] bytes, and [Encode] returns no
    frame at all, not 255. *)
Lemma Encode_no_frames :
  let c := {| Rings := 1; BitsPerDot := 3; FPS := 5; UseFountain := false |} in
  BytesPerFrame c = 0 /\
  255 * BytesPerFrame c < len [1; 2; 3] /\
  Encode (NewEncoder c) [1; 2; 3] = [] /\
  length (Encode (NewEncoder c) [1; 2; 3]) <> 255%nat.
Proof. cbv zeta. repeat split; try (vm_compute; congruence). Qed.

(** C9, as the encoder has it. The payload is longer than 255 frames'
    worth of bytes; the bits per frame and the length of the payload are
    below [2 ^ 30] in absolute value, so that Go's [int] does not wrap.
    - Under a configuration with [BytesPerFrame <= 0], [Encode] returns no
      frame at all.
    - Under a configuration with [BytesPerFrame > 0] the payload is cut:
      [Encode] returns exactly 255 frames, numbered 0 to 254 of 255, whose
      payloads put together are the first [255 * BytesPerFrame] bytes; the
      rest is dropped, and the result type carries nothing else. *)
Theorem Encode_truncates (e : Encoder) (data : list Z) :
  - 2 ^ 30 < BitsPerFrame (config e) < 2 ^ 30 -> len data < 2 ^ 30 ->
  255 * BytesPerFrame (config e) < len data ->
  (BytesPerFrame (config e) <= 0 -> Encode e data = []) /\
  (0 < BytesPerFrame (config e) ->
   length (Encode e data) = 255%nat /\
   FIndex <$> Encode e data = seqZ 0 255 /\
   Forall (fun f => Total f = 255) (Encode e data) /\
   mjoin (Payload <$> Encode e data)
   = take (Z.to_nat (255 * BytesPerFrame (config e))) data /\
   (length (mjoin (Payload <$> Encode e data)) < length data)%nat).
Proof.
  intros _ _ Hlen. split.
  { intros H0. unfold Encode. cbv zeta.
    destruct (Z.leb_spec (BytesPerFrame (config e)) 0); [done|lia]. }
  intros Hbpf. unfold Encode.
  set (bpf := BytesPerFrame (config e)) in *. cbv zeta.
  destruct (Z.leb_spec bpf 0) as [H0|_]; [lia|].
  assert (HT : (if (len data + bpf - 1) ÷ bpf >? 255 then 255
                else (len data + bpf - 1) ÷ bpf) = 255).
  { rewrite Z.quot_div_nonneg by (unfold len in *; lia).
    destruct (Z.gtb_spec ((len data + bpf - 1) `div` bpf) 255) as [H|H]; [done|].
    assert (256 <= (len data + bpf - 1) `div` bpf); [|lia].
    apply Z.div_le_lower_bound; lia. }
  rewrite HT. set (fs := _ <$> seqZ 0 255).
  assert (Hjoin : mjoin (Payload <$> fs) = take (Z.to_nat (255 * bpf)) data).
  { unfold fs. rewrite <- list_fmap_compose.
    apply (chunks_join data bpf 255 Hbpf). lia. }
  split; [|split; [|split; [|split]]].
  - unfold fs. by rewrite length_fmap, length_seqZ.
  - unfold fs. rewrite <- list_fmap_compose. apply list_fmap_id.
  - unfold fs. apply Forall_fmap, Forall_forall. done.
  - exact Hjoin.
  - rewrite Hjoin, length_take. unfold len in *. lia.
Qed.

(** A payload of 5101 bytes under the default configuration. *)
Lemma Encode_truncates_5101 :
  let e := NewEncoder DefaultConfig in
  let data := replicate (Z.to_nat 5101) 7 in
  length (Encode e data) = 255%nat /\
  FIndex <$> Encode e data = seqZ 0 255 /\
  Forall (fun f => Total f = 255) (Encode e data) /\
  mjoin (Payload <$> Encode e data)
  = take (Z.to_nat (255 * BytesPerFrame (config e))) data /\
  (length (mjoin (Payload <$> Encode e data)) < length data)%nat.
Proof.
  apply (Encode_truncates (NewEncoder DefaultConfig) (replicate (Z.to_nat 5101) 7)).
  - split; reflexivity.
  - reflexivity.
  - reflexivity.
  - reflexivity.
Defined.

(** C10. In the Go decoder a valid frame whose index is already stored
    changes neither the stored payloads nor the received count; the total
    is overwritten by the frame total of the new header. *)
Theorem AddFrame_duplicate (d : Decoder) (dots : list Dot) :
  snd (snd (AddFrame d dots)) = None ->
  is_Some (frames d !! idx (dotsToBytes d dots) 0) ->
  frames (fst (AddFrame d dots)) = frames d /\
  received (fst (AddFrame d dots)) = received d /\
  total (fst (AddFrame d dots)) = idx (dotsToBytes d dots) 1.
Proof.
  unfold AddFrame. intros Hok [payload Hstored].
  destruct (len dots =? 0); [done|].
  destruct (len (dotsToBytes d dots) <? 2); [done|].
  destruct (idx (dotsToBytes d dots) 1 =? 0); [done|].
  simpl. rewrite Hstored. done.
Qed.

(** "hi" stored as frame 0 of 1, then "xy" arriving as frame 0 of 2: the
    stored payload stays "hi", one frame is counted, the total becomes 2. *)
Lemma AddFrame_duplicate_example :
  let d := (AddFrame (NewDecoder DefaultConfig) hi_dots).1 in
  frames (AddFrame d xy_dots).1 = frames d /\
  received (AddFrame d xy_dots).1 = received d /\
  total (AddFrame d xy_dots).1 = idx (dotsToBytes d xy_dots) 1.
Proof.
  apply (AddFrame_duplicate (AddFrame (NewDecoder DefaultConfig) hi_dots).1 xy_dots).
  - vm_compute. reflexivity.
  - eexists. vm_compute. reflexivity.
Defined.

End GoClaims.

(** * Malformed headers *)

Section Malformed.
Import Go Aux.

(** The Go decoder rejects an empty frame, a frame of fewer than two bytes
    and a frame total of zero, and leaves the decoder as it was. *)
Lemma AddFrame_rejects (d : Decoder) (dots : list Dot) :
  len dots = 0 \/ len (dotsToBytes d dots) < 2 \/ idx (dotsToBytes d dots) 1 = 0 ->
  AddFrame d dots = (d, (false, Some ErrInvalidFrame)).
Proof.
  unfold AddFrame. intros H.
  destruct (Z.eqb_spec (len dots) 0); [done|].
  destruct (Z.ltb_spec (len (dotsToBytes d dots)) 2); [done|].
  destruct (Z.eqb_spec (idx (dotsToBytes d dots) 1) 0); [done|lia].
Qed.

(** C5. The Go decoder does not compare the frame index with the frame
    total: a header with index 1 and total 1 is stored, counted, and
    reported as completing the transfer, after which [Data] fails. *)
Theorem AddFrame_index_ge_total :
  let d := NewDecoder DefaultConfig in
  take 2 (dotsToBytes d index_ge_total_dots) = [1; 1] /\
  AddFrame d index_ge_total_dots
  = ({| dconfig := DefaultConfig; frames := {[ 1 := replicate 20 0 ]};
        total := 1; received := 1 |}, (true, None)) /\
  Data (fst (AddFrame d index_ge_total_dots)) = inr ErrIncompleteData.
Proof. vm_compute. repeat split; reflexivity. Qed.

End Malformed.

Section ScannerMalformed.
Import Scanner.

(** The scanner's decoder discards a capture with a malformed header (fewer
    than two bytes, total 0, total above 200, index not below the total):
    the decoder is unchanged, the capture does not complete the transfer and
    the progress reported is that of the unchanged decoder. *)
Lemma addFrame_malformed (s : Decoder) (dotValues : list Z) :
  let rawBytes := _dotsToBytes dotValues in
  Z.of_nat (length rawBytes) < 2 \/ at0 rawBytes 1 = 0 \/ 200 < at0 rawBytes 1 \/
  at0 rawBytes 1 <= at0 rawBytes 0 ->
  addFrame s dotValues = (s, {| complete := false; progress_ := progress s |}).
Proof.
  cbv zeta. unfold addFrame. intros H.
  destruct (Z.ltb_spec (Z.of_nat (length (_dotsToBytes dotValues))) 2); [done|].
  destruct (Z.eqb_spec (at0 (_dotsToBytes dotValues) 1) 0); [done|].
  destruct (Z.gtb_spec (at0 (_dotsToBytes dotValues) 1) 200); [done|].
  simpl. destruct (Z.geb_spec (at0 (_dotsToBytes dotValues) 0) (at0 (_dotsToBytes dotValues) 1));
    [done|lia].
Qed.

End ScannerMalformed.

(** * Ring radii *)

(** C8. With exactly one ring, [ringRadius] of layout.go (and of the npm
    layout.js) returns 0.40; the midpoint of 0.22 and 0.70, which
    dotbeam-core.js uses for that case, is another number. *)
Theorem ringRadius_one_ring :
  (forall ring, Go.ringRadius ring 1 = F64.lit 40 100) /\
  (forall ring, Npm.ringRadius ring 1 = F64.lit 40 100) /\
  F64.lit 40 100 <> F64.lit 46 100 /\
  F64.lit 40 100 <> F64.div (F64.add (F64.lit 22 100) (F64.lit 70 100)) (F64.ofZ 2) /\
  (forall n, DotbeamCore.ringRadius n 1
             = F64.div (F64.add (F64.lit 22 100) (F64.lit 70 100)) (F64.ofZ 2)).
Proof.
  split; [reflexivity|]. split; [reflexivity|].
  split; [vm_compute; discriminate|]. split; [vm_compute; discriminate|].
  reflexivity.
Qed.

(** With the four rings of the default configuration the radii run from
    0.22 for ring 1 to 0.70 for ring 4, in equal steps. *)
Lemma ringRadius_default :
  Go.ringRadius 1 4 = F64.lit 22 100 /\
  Go.ringRadius 2 4 = F64.lit 38 100 /\
  Go.ringRadius 3 4 = F64.lit 54 100 /\
  Go.ringRadius 4 4 = F64.lit 70 100.
Proof. vm_compute. repeat split; reflexivity. Qed.

(** * The per-dot majority vote *)

Section MajorityVote.
Import Scanner.

(** The tally loop of [_majorityVote] at dot [d]. *)
Lemma counts_spec (d : Z) (captures : list (list Z)) :
  forall (counts : list Z) (v : Z),
    0 <= v < 8 -> length counts = 8%nat ->
    at0 (fold_left (fun counts capture =>
                      alter Z.succ (Z.to_nat (Z.land (at0 capture d) 0x07)) counts)
                   captures counts) v
    = at0 counts v
      + Z.of_nat (length (filter (fun c => Z.land (at0 c d) 0x07 = v) captures)).
Proof.
  assert (Hat : forall (l : list Z) i x, l !! Z.to_nat i = Some x -> at0 l i = x)
    by (intros l i x Hl; unfold at0; by rewrite Hl).
  induction captures as [|c captures IH]; intros counts v Hv Hlen.
  - simpl. lia.
  - simpl fold_left. rewrite IH by (rewrite ?length_alter; done).
    rewrite filter_cons.
    destruct (lookup_lt_is_Some_2 counts (Z.to_nat v)) as [n Hn]; [lia|].
    rewrite (Hat counts v n Hn).
    assert (Hmask : 0 <= Z.land (at0 c d) 7 < 8).
    { assert (E : Z.land (at0 c d) 7 = at0 c d mod 8) by (apply (Z.land_ones _ 3); lia).
      rewrite E. apply Z.mod_pos_bound. lia. }
    destruct (decide (Z.land (at0 c d) 7 = v)) as [Heq|Hne].
    + rewrite (Hat _ v (Z.succ n)); [simpl; lia|].
      rewrite Heq, list_lookup_alter, decide_True, Hn by done. done.
    + rewrite (Hat _ v n); [done|].
      rewrite list_lookup_alter_ne, Hn by lia. done.
Qed.

Lemma filter_disjoint_length {A} (P Q : A -> Prop)
    `{forall x, Decision (P x)} `{forall x, Decision (Q x)} (l : list A) :
  (forall x, P x -> Q x -> False) ->
  (length (filter P l) + length (filter Q l) <= length l)%nat.
Proof.
  intros HPQ. induction l as [|x l IH]; [done|].
  rewrite !filter_cons.
  destruct (decide (P x)), (decide (Q x)); simpl; try lia.
  exfalso. eauto.
Qed.

Lemma filter_impl_length {A} (P Q : A -> Prop)
    `{forall x, Decision (P x)} `{forall x, Decision (Q x)} (l : list A) :
  (forall x, P x -> Q x) ->
  (length (filter P l) <= length (filter Q l))%nat.
Proof.
  intros HPQ. induction l as [|x l IH]; [done|].
  rewrite !filter_cons.
  destruct (decide (P x)), (decide (Q x)); simpl; try lia.
  exfalso. eauto.
Qed.

(** The selection loop of [_majorityVote] returns a strict maximum. *)
Lemma best_spec (counts : list Z) (m : Z) (l : list Z) :
  0 <= m < 8 ->
  (forall v, 0 <= v < 8 -> v <> m -> at0 counts v < at0 counts m) ->
  Forall (fun v => 0 <= v < 8) l ->
  forall best,
    0 <= best < 8 ->
    best = m \/ m ∈ l ->
    fold_left (fun best v2 => if at0 counts v2 >? at0 counts best then v2 else best) l best
    = m.
Proof.
  intros Hm Hmax Hl. induction Hl as [|v2 l Hv2 Hl IH]; intros best Hb Hinv.
  - destruct Hinv as [Heq|Hin]; [done|]. by apply elem_of_nil in Hin.
  - simpl. destruct (Z.gtb_spec (at0 counts v2) (at0 counts best)) as [Hgt|Hle].
    + apply IH; [done|]. destruct Hinv as [Heq|Hin].
      * subst best. destruct (decide (v2 = m)) as [Heq|Hne]; [lia|].
        specialize (Hmax v2 Hv2 Hne). lia.
      * apply elem_of_cons in Hin as [Heq|Hin]; [by left|by right].
    + apply IH; [done|]. destruct Hinv as [Heq|Hin]; [by left|].
      apply elem_of_cons in Hin as [Heq|Hin]; [|by right].
      left. subst v2. destruct (decide (best = m)) as [|Hne]; [done|].
      specialize (Hmax best Hb Hne). lia.
Qed.

(** C3. Where, at every dot position, a strict majority of the captures
    hold the same value, [_majorityVote] returns that value at every
    position, whatever the other captures hold there. *)
Theorem majorityVote_majority (captures : list (list Z)) (maj : list Z) :
  (5 <= length captures)%nat ->
  Forall (fun c => length c = length maj) captures ->
  Forall (fun m => 0 <= m < 8) maj ->
  (forall (d : nat) (m : Z),
     maj !! d = Some m ->
     (length captures < 2 * length (filter (fun c => c !! d = Some m) captures))%nat) ->
  _majorityVote captures = maj.
Proof.
  intros Hn Hlen Hrange Hmaj.
  destruct captures as [|first rest] eqn:Ecap; [simpl in Hn; lia|].
  rewrite <- Ecap in *. unfold _majorityVote. rewrite Ecap at 1.
  assert (Hfirst : length first = length maj).
  { rewrite Ecap in Hlen. by inversion Hlen. }
  rewrite Hfirst. clear Hfirst Ecap first rest.
  apply list_eq. intros d.
  destruct (maj !! d) as [m|] eqn:Hm.
  2: { apply lookup_ge_None_2. apply lookup_ge_None_1 in Hm.
       rewrite length_fmap, length_seqZ. lia. }
  assert (Hd : (d < length maj)%nat) by (apply lookup_lt_is_Some; eauto).
  rewrite list_lookup_fmap, lookup_seqZ_lt by lia.
  cbv [fmap option_fmap option_map]. f_equal. rewrite Z.add_0_l.
  assert (Hmr : 0 <= m < 8) by (eapply (proj1 (Forall_lookup _ _) Hrange); eassumption).
  set (counts := fold_left _ captures (replicate 8 0)).
  assert (Hcounts : forall v, 0 <= v < 8 ->
    at0 counts v
    = Z.of_nat (length (filter (fun c => Z.land (at0 c (Z.of_nat d)) 0x07 = v) captures))).
  { intros v Hv. unfold counts. rewrite counts_spec by done.
    unfold at0 at 1. rewrite lookup_replicate_2 by lia. done. }
  apply best_spec; [done| |by apply Forall_seqZ; lia|lia|].
  - intros v Hv Hne. rewrite !Hcounts by done.
    specialize (Hmaj d m Hm).
    pose proof (filter_disjoint_length
                  (fun c => Z.land (at0 c (Z.of_nat d)) 7 = v)
                  (fun c => Z.land (at0 c (Z.of_nat d)) 7 = m) captures) as Hdis.
    pose proof (filter_impl_length
                  (fun c : list Z => c !! d = Some m)
                  (fun c => Z.land (at0 c (Z.of_nat d)) 7 = m) captures) as Himp.
    assert ((length (filter (fun c : list Z => c !! d = Some m) captures)
             <= length (filter (fun c => Z.land (at0 c (Z.of_nat d)) 7 = m) captures))%nat).
    { apply Himp. intros c Hc. unfold at0. rewrite Nat2Z.id, Hc. simpl.
      change 7 with (Z.ones 3). rewrite Z.land_ones by lia. apply Z.mod_small. lia. }
    assert ((length (filter (fun c => Z.land (at0 c (Z.of_nat d)) 7 = v) captures)
             + length (filter (fun c => Z.land (at0 c (Z.of_nat d)) 7 = m) captures)
             <= length captures)%nat).
    { apply Hdis. intros c H1 H2. congruence. }
    lia.
  - destruct (decide (m = 0)) as [->|]; [by left|]. right. apply elem_of_seqZ. lia.
Qed.

(** Five captures of three dots; at each dot three captures agree and two
    hold other values. *)
Lemma majorityVote_majority_example :
  _majorityVote [[1; 2; 3]; [1; 7; 0]; [1; 2; 5]; [6; 0; 3]; [4; 2; 3]] = [1; 2; 3].
Proof.
  apply majorityVote_majority.
  - simpl. lia.
  - repeat constructor.
  - repeat constructor; lia.
  - intros [|[|[|d]]] m Hm; simpl in Hm; try discriminate;
      injection Hm as <-; vm_compute; lia.
Defined.

End MajorityVote.

(** * Binary64 arithmetic on normal numbers *)

Section Binary64.

Lemma digits2_size (p : positive) : digits2_pos p = Pos.size p.
Proof. induction p as [p IH|p IH|]; simpl; congruence. Qed.

Lemma size_bounds (p : positive) :
  2 ^ (Z.pos (Pos.size p) - 1) <= Z.pos p < 2 ^ Z.pos (Pos.size p).
Proof.
  pose proof (Pos.size_gt p) as Hgt. pose proof (Pos.size_le p) as Hle.
  apply Pos2Z.pos_lt_pos in Hgt. apply Pos2Z.pos_le_pos in Hle.
  rewrite Pos2Z.inj_pow in Hgt, Hle. rewrite (Pos2Z.inj_xO p) in Hle.
  assert (E : 2 ^ Z.pos (Pos.size p) = 2 * 2 ^ (Z.pos (Pos.size p) - 1)).
  { rewrite <- Z.pow_succ_r by lia. f_equal. lia. }
  rewrite E in *. set (x := 2 ^ (Z.pos (Pos.size p) - 1)) in *. clearbody x. lia.
Qed.

Lemma size_unique (p : positive) (d : Z) :
  2 ^ (d - 1) <= Z.pos p < 2 ^ d -> Z.pos (Pos.size p) = d.
Proof.
  intros [Hlo Hhi]. pose proof (size_bounds p) as [Blo Bhi].
  assert (Hd : 0 < d).
  { destruct (Z.lt_ge_cases 0 d) as [|Hd]; [done|].
    assert (2 ^ d <= 1); [|lia].
    destruct (Z.eq_dec d 0) as [->|]; [done|]. rewrite Z.pow_neg_r by lia. lia. }
  destruct (Z.lt_trichotomy (Z.pos (Pos.size p)) d) as [Hlt|[Heq|Hgt]]; [|done|].
  - assert (2 ^ Z.pos (Pos.size p) <= 2 ^ (d - 1)) by (apply Z.pow_le_mono_r; lia). lia.
  - assert (2 ^ d <= 2 ^ (Z.pos (Pos.size p) - 1)) by (apply Z.pow_le_mono_r; lia). lia.
Qed.


(** One step of the shift to the right, on a mantissa that is not
    negative. *)
Lemma shr_1_spec (m : Z) (r s : bool) :
  0 <= m ->
  shr_1 {| shr_m := m; shr_r := r; shr_s := s |}
  = {| shr_m := Z.div2 m; shr_r := Z.odd m; shr_s := r || s |}.
Proof. intros Hm. destruct m as [|[p|p|]|p]; try done; lia. Qed.

Lemma iter_pos_nat {A} (f : A -> A) (n : positive) (x : A) :
  SpecFloat.iter_pos f n x = Nat.iter (Pos.to_nat n) f x.
Proof.
  revert x. induction n as [n IH|n IH|]; intros x; cbn [SpecFloat.iter_pos].
  - rewrite !IH, Pos2Nat.inj_xI.
    replace (S (2 * Pos.to_nat n)) with (Pos.to_nat n + (Pos.to_nat n + 1))%nat by lia.
    rewrite !Nat.iter_add. simpl. done.
  - rewrite !IH, Pos2Nat.inj_xO.
    replace (2 * Pos.to_nat n)%nat with (Pos.to_nat n + Pos.to_nat n)%nat by lia.
    by rewrite Nat.iter_add.
  - done.
Qed.

(** The shift by [j] bits keeps the quotient, and remembers in its two
    flags whether the remainder [rho] is at least, and whether it is
    exactly, one half or zero. *)
Lemma shr_iter (P : Z) (j : nat) :
  0 <= P ->
  let mrs := Nat.iter j shr_1 {| shr_m := P; shr_r := false; shr_s := false |} in
  exists rho,
    0 <= shr_m mrs /\
    P = shr_m mrs * 2 ^ Z.of_nat j + rho /\ 0 <= rho < 2 ^ Z.of_nat j /\
    (shr_r mrs = true -> 2 ^ Z.of_nat j <= 2 * rho) /\
    (shr_r mrs = false -> 2 * rho < 2 ^ Z.of_nat j) /\
    (shr_s mrs = false -> shr_r mrs = false -> rho = 0) /\
    (shr_s mrs = false -> shr_r mrs = true -> 2 * rho = 2 ^ Z.of_nat j).
Proof.
  intros HP. induction j as [|j IH]; cbv zeta.
  - exists 0. simpl. repeat split; try done; lia.
  - destruct IH as (rho & Hm & HPe & Hrho & Hr1 & Hr0 & Hs0 & Hs1).
    rewrite Nat.iter_succ.
    destruct (Nat.iter j shr_1 _) as [m r s]. cbn [shr_m shr_r shr_s] in *.
    rewrite shr_1_spec by done. cbn [shr_m shr_r shr_s].
    rewrite Nat2Z.inj_succ, Z.pow_succ_r by lia.
    set (K := 2 ^ Z.of_nat j) in *.
    assert (HK : 0 < K) by (apply Z.pow_pos_nonneg; lia).
    pose proof (Z.div2_odd m) as Hdo.
    set (d := Z.div2 m) in *. clearbody d.
    exists ((if Z.odd m then K else 0) + rho).
    destruct (Z.odd m); cbn [Z.b2z] in Hdo; subst m.
    + split; [lia|]. split; [lia|]. split; [lia|].
      split; [intros _; lia|]. split; [intros Hf; discriminate|].
      split; [intros _ Hf; discriminate|].
      intros Hrs _. apply orb_false_elim in Hrs as [-> ->].
      rewrite (Hs0 eq_refl eq_refl). lia.
    + split; [lia|]. split; [lia|]. split; [lia|].
      split; [intros Hf; discriminate|]. split; [intros _; lia|].
      split; [|intros _ Hf; discriminate].
      intros Hrs _. apply orb_false_elim in Hrs as [-> ->].
      rewrite (Hs0 eq_refl eq_refl). lia.
Qed.

End Binary64.

Section Rounding.

Lemma fexp_normal (d : Z) : -1074 <= d - 53 -> fexp 53 1024 d = d - 53.
Proof. intros H. unfold fexp, emin. change (3 - 1024 - 53) with (-1074). apply Z.max_l. lia. Qed.

Lemma shr_pos (mrs : shr_record) (e n : Z) :
  0 < n -> shr mrs e n = (Nat.iter (Z.to_nat n) shr_1 mrs, e + n).
Proof.
  intros Hn. destruct n as [|p|p]; try lia. unfold shr.
  by rewrite iter_pos_nat.
Qed.

Lemma shr_zero (mrs : shr_record) (e : Z) : shr mrs e 0 = (mrs, e).
Proof. done. Qed.

(** The value [round_nearest_even] picks, from the quotient and the flags
    of the shift. *)
Lemma round_nearest_even_spec (P : Z) (j : nat) :
  0 <= P ->
  let mrs := Nat.iter j shr_1 {| shr_m := P; shr_r := false; shr_s := false |} in
  let a := round_nearest_even (shr_m mrs) (loc_of_shr_record mrs) in
  let K := 2 ^ Z.of_nat j in
  shr_m mrs <= a <= shr_m mrs + 1 /\
  shr_m mrs * K <= P < (shr_m mrs + 1) * K /\
  2 * P - K <= 2 * (a * K) <= 2 * P + K.
Proof.
  intros HP. cbv zeta.
  destruct (shr_iter P j HP) as (rho & Hm & HPe & Hrho & Hr1 & Hr0 & Hs0 & Hs1).
  cbv zeta in *. destruct (Nat.iter j shr_1 _) as [m r s]. cbn [shr_m shr_r shr_s] in *.
  set (K := 2 ^ Z.of_nat j) in *. clearbody K.
  unfold loc_of_shr_record, round_nearest_even.
  destruct r, s.
  - specialize (Hr1 eq_refl). split; [lia|]. split; lia.
  - specialize (Hs1 eq_refl eq_refl). destruct (Z.even m); split; try lia; split; lia.
  - specialize (Hr0 eq_refl). split; [lia|]. split; lia.
  - specialize (Hs0 eq_refl eq_refl). split; [lia|]. split; lia.
Qed.

(** Rounding a positive integer mantissa of more than 53 bits, in the range
    of the normal numbers: the result is a canonical normal number, the
    multiple [a * K] of the unit [K = 2 ^ (D - 53)] nearest to the
    mantissa. *)
Lemma round_pos (P : positive) (ex : Z) :
  let D := Z.pos (Pos.size P) in
  53 < D -> -1074 <= D + ex - 53 -> D + ex <= 1023 ->
  exists (r : positive) (f a : Z),
    binary_round_aux 53 1024 false (Z.pos P) ex loc_Exact = S754_finite false r f /\
    Z.pos (Pos.size r) = 53 /\ ex <= f /\
    Z.pos r * 2 ^ (f - ex) = a * 2 ^ (D - 53) /\
    2 * Z.pos P - 2 ^ (D - 53) <= 2 * (a * 2 ^ (D - 53)) <= 2 * Z.pos P + 2 ^ (D - 53).
Proof.
  intros D HD Hlo Hhi.
  pose proof (size_bounds P) as HP. fold D in HP.
  unfold binary_round_aux, shr_fexp.
  change (Zdigits2 (Z.pos P)) with (Z.pos (digits2_pos P)).
  rewrite digits2_size. fold D. rewrite fexp_normal by lia.
  replace (D + ex - 53 - ex) with (D - 53) by lia.
  rewrite shr_pos by lia. cbn [shr_record_of_loc].
  pose proof (round_nearest_even_spec (Z.pos P) (Z.to_nat (D - 53)) ltac:(lia)) as Hr.
  cbv zeta in Hr. rewrite Z2Nat.id in Hr by lia.
  set (mrs := Nat.iter _ shr_1 _) in *.
  set (a := round_nearest_even _ _) in *.
  set (K := 2 ^ (D - 53)) in *.
  destruct Hr as (Ha & Hm & HA).
  assert (HK : 0 < K) by (apply Z.pow_pos_nonneg; lia).
  assert (HDK : 2 ^ (D - 1) = 2 ^ 52 * K).
  { unfold K. rewrite <- Z.pow_add_r by lia. f_equal. lia. }
  assert (HDK' : 2 ^ D = 2 ^ 53 * K).
  { unfold K. rewrite <- Z.pow_add_r by lia. f_equal. lia. }
  rewrite HDK, HDK' in HP.
  assert (Hm52 : 2 ^ 52 <= shr_m mrs < 2 ^ 53) by nia.
  assert (Ha53 : 2 ^ 52 <= a <= 2 ^ 53) by lia.
  destruct (Z.eq_dec a (2 ^ 53)) as [Htop|Hnot].
  - rewrite Htop.
    exists (2 ^ 52)%positive, (ex + (D - 53) + 1), a.
    split.
    { change (Zdigits2 (2 ^ 53)) with 54.
      rewrite fexp_normal by lia.
      replace (54 + (ex + (D - 53)) - 53 - (ex + (D - 53))) with 1 by lia.
      change (shr {| shr_m := 2 ^ 53; shr_r := false; shr_s := false |} (ex + (D - 53)) 1)
        with ({| shr_m := 2 ^ 52; shr_r := false; shr_s := false |}, ex + (D - 53) + 1).
      cbn [shr_m]. change (2 ^ 52) with (Z.pos (2 ^ 52)).
      destruct (Z.leb_spec (ex + (D - 53) + 1) (1024 - 53)); [done|lia]. }
    split; [done|]. split; [lia|]. split; [|done].
    replace (ex + (D - 53) + 1 - ex) with (1 + (D - 53)) by lia.
    rewrite Z.pow_add_r by lia. fold K. rewrite Htop. change (2 ^ 1) with 2.
    change (Z.pos (2 ^ 52)) with (2 ^ 52). change (2 ^ 53) with (2 * 2 ^ 52). lia.
  - destruct a as [|q|q] eqn:Ea; [lia| |lia].
    exists q, (ex + (D - 53)), (Z.pos q).
    assert (Hq : Z.pos (Pos.size q) = 53) by (apply size_unique; lia).
    split.
    { change (Zdigits2 (Z.pos q)) with (Z.pos (digits2_pos q)).
      rewrite digits2_size, Hq, fexp_normal by lia.
      replace (53 + (ex + (D - 53)) - 53 - (ex + (D - 53))) with 0 by lia.
      rewrite shr_zero. cbn [shr_record_of_loc shr_m].
      destruct (Z.leb_spec (ex + (D - 53)) (1024 - 53)); [done|lia]. }
    split; [done|]. split; [lia|]. split; [|done].
    replace (ex + (D - 53) - ex) with (D - 53) by lia. done.
Qed.

End Rounding.

Section Comparison.

(** The order on positive numbers in canonical form is the order of their
    values. *)
Lemma ltb_canonical (m1 m2 : positive) (e1 e2 g : Z) :
  Z.pos (Pos.size m1) = 53 -> Z.pos (Pos.size m2) = 53 -> g <= e1 -> g <= e2 ->
  SFltb (S754_finite false m1 e1) (S754_finite false m2 e2)
  = (Z.pos m1 * 2 ^ (e1 - g) <? Z.pos m2 * 2 ^ (e2 - g)).
Proof.
  intros H1 H2 G1 G2.
  pose proof (size_bounds m1) as B1. pose proof (size_bounds m2) as B2.
  rewrite H1 in B1. rewrite H2 in B2. change (2 ^ (53 - 1)) with (2 ^ 52) in *.
  unfold SFltb, SFcompare.
  change (PosDef.Pos.compare_cont Eq m1 m2) with (Pos.compare m1 m2).
  destruct (Z.compare_spec e1 e2) as [He|He|He].
  - subst e2. set (X := 2 ^ (e1 - g)).
    assert (HX : 0 < X) by (apply Z.pow_pos_nonneg; lia).
    destruct (Pos.compare_spec m1 m2) as [Hm|Hm|Hm]; symmetry.
    + subst m2. apply Z.ltb_irrefl.
    + apply Z.ltb_lt. apply Z.mul_lt_mono_pos_r; [done|lia].
    + apply Z.ltb_ge. apply Z.mul_le_mono_nonneg_r; lia.
  - symmetry. apply Z.ltb_lt.
    replace (e2 - g) with ((e2 - e1) + (e1 - g)) by lia.
    rewrite Z.pow_add_r by lia.
    set (X := 2 ^ (e1 - g)). assert (HX : 0 < X) by (apply Z.pow_pos_nonneg; lia).
    assert (HY : 2 ^ 1 <= 2 ^ (e2 - e1)) by (apply Z.pow_le_mono_r; lia).
    change (2 ^ 1) with 2 in HY. set (Y := 2 ^ (e2 - e1)) in *.
    assert (Z.pos m1 * X < 2 ^ 53 * X) by (apply Z.mul_lt_mono_pos_r; lia).
    assert (2 ^ 52 * (2 * X) <= Z.pos m2 * (Y * X)).
    { apply Z.mul_le_mono_nonneg; try lia. apply Z.mul_le_mono_nonneg_r; lia. }
    change (2 ^ 53) with (2 ^ 52 * 2) in *. lia.
  - symmetry. apply Z.ltb_ge.
    replace (e1 - g) with ((e1 - e2) + (e2 - g)) by lia.
    rewrite Z.pow_add_r by lia.
    set (X := 2 ^ (e2 - g)). assert (HX : 0 < X) by (apply Z.pow_pos_nonneg; lia).
    assert (HY : 2 ^ 1 <= 2 ^ (e1 - e2)) by (apply Z.pow_le_mono_r; lia).
    change (2 ^ 1) with 2 in HY. set (Y := 2 ^ (e1 - e2)) in *.
    assert (Z.pos m2 * X <= 2 ^ 53 * X) by (apply Z.mul_le_mono_nonneg_r; lia).
    assert (2 ^ 52 * (2 * X) <= Z.pos m1 * (Y * X)).
    { apply Z.mul_le_mono_nonneg; try lia. apply Z.mul_le_mono_nonneg_r; lia. }
    change (2 ^ 53) with (2 ^ 52 * 2) in *. lia.
Qed.

(** [a <= b] and [b < c] give [a < c], for positive finite [b] and [c]. *)
Lemma leb_ltb_trans (a : float) (mb mc : positive) (eb ec : Z) :
  F64.leb a (S754_finite false mb eb) = true ->
  F64.ltb (S754_finite false mb eb) (S754_finite false mc ec) = true ->
  F64.ltb a (S754_finite false mc ec) = true.
Proof.
  unfold F64.leb, F64.ltb, SFleb, SFltb.
  destruct a as [sa|sa| |sa ma ea]; try done.
  - by destruct sa.
  - simpl. destruct sa; [done|].
    change (PosDef.Pos.compare_cont Eq ma mb) with (Pos.compare ma mb).
    change (PosDef.Pos.compare_cont Eq mb mc) with (Pos.compare mb mc).
    change (PosDef.Pos.compare_cont Eq ma mc) with (Pos.compare ma mc).
    destruct (Z.compare_spec ea eb) as [Hab|Hab|Hab],
             (Z.compare_spec eb ec) as [Hbc|Hbc|Hbc],
             (Z.compare_spec ea ec) as [Hac|Hac|Hac]; try done; try lia.
    destruct (Pos.compare_spec ma mb), (Pos.compare_spec mb mc),
             (Pos.compare_spec ma mc); try done; lia.
Qed.



(** The product of a positive number in canonical form with a constant
    whose mantissa has 53 bits: the multiple of [K] nearest to the product
    of the mantissas, where [K] is [2 ^ 52] or [2 ^ 53]. *)
Lemma mul_canonical (m M : positive) (e E : Z) :
  Z.pos (Pos.size m) = 53 -> Z.pos (Pos.size M) = 53 ->
  -1074 <= e + E + 52 -> e + E + 106 <= 1023 ->
  exists (r : positive) (f a K : Z),
    F64.mul (S754_finite false m e) (S754_finite false M E) = S754_finite false r f /\
    Z.pos (Pos.size r) = 53 /\ e + E <= f /\
    Z.pos r * 2 ^ (f - (e + E)) = a * K /\
    (K = 2 ^ 52 \/ K = 2 ^ 53) /\
    2 * (Z.pos m * Z.pos M) - K <= 2 * (a * K) <= 2 * (Z.pos m * Z.pos M) + K.
Proof.
  intros Hm HM Hlo Hhi.
  pose proof (size_bounds m) as Bm. pose proof (size_bounds M) as BM.
  rewrite Hm in Bm. rewrite HM in BM. change (2 ^ (53 - 1)) with (2 ^ 52) in *.
  pose proof (size_bounds (m * M)) as BP.
  set (D := Z.pos (Pos.size (m * M))) in *. rewrite Pos2Z.inj_mul in BP.
  assert (HD : D = 105 \/ D = 106).
  { assert (2 ^ 104 <= Z.pos m * Z.pos M < 2 ^ 106) as HP.
    { change (2 ^ 104) with (2 ^ 52 * 2 ^ 52). change (2 ^ 106) with (2 ^ 53 * 2 ^ 53).
      split; [apply Z.mul_le_mono_nonneg; lia|apply Z.mul_lt_mono_nonneg; lia]. }
    destruct (Z.le_gt_cases D 104) as [H1|H1].
    - assert (2 ^ D <= 2 ^ 104) by (apply Z.pow_le_mono_r; lia). lia.
    - destruct (Z.le_gt_cases 107 D) as [H2|H2]; [|lia].
      assert (2 ^ 106 <= 2 ^ (D - 1)) by (apply Z.pow_le_mono_r; lia). lia. }
  destruct (round_pos (m * M) (e + E)) as (r & f & a & Hr & Hs & Hf & Hv & Hb);
    fold D; [lia|lia|lia|].
  exists r, f, a, (2 ^ (D - 53)). rewrite Pos2Z.inj_mul in Hb.
  split; [exact Hr|]. split; [done|]. split; [done|]. split; [done|].
  split; [|done]. destruct HD as [-> | ->]; [by left|by right].
Qed.

End Comparison.

(** * The consensus decoder: locking the frame total *)

Section Locking.
Import Scanner.






(** Far beyond any tally a scan can reach the test is no longer exact: in a
    tally of [2 ^ 52 + 1] captures a count that is below 30 percent by one
    tenth of a capture passes it. *)
Lemma belowThirtyPercent_inexact :
  10 * 1351079888211149 < 3 * (2 ^ 52 + 1) /\
  belowThirtyPercent 1351079888211149 (2 ^ 52 + 1) = false.
Proof. split; [lia|]. vm_compute. reflexivity. Qed.

Lemma lock_locked (s : Decoder) (T : Z) : _totalFrames s = Some T -> lock s = Some s.
Proof. unfold lock. by intros ->. Qed.

Lemma lock_fields (s s1 : Decoder) :
  lock s = Some s1 ->
  _votes s1 = _votes s /\ _frames s1 = _frames s /\ _received s1 = _received s /\
  _ftCounts s1 = _ftCounts s /\ _ftTotal s1 = _ftTotal s.
Proof.
  unfold lock. destruct (_totalFrames s); [by intros [= <-]|].
  destruct (_ftTotal s <? FT_SETTLE_MIN); [done|].
  destruct (plurality (_ftCounts s)) as [bestFt bestCount].
  destruct (belowThirtyPercent bestCount (_ftTotal s)); [done|].
  by intros [= <-].
Qed.


(** A capture with a well-formed header reaches the tally. *)
Lemma addFrame_wellformed (s : Decoder) (dotValues : list Z) :
  let rawBytes := _dotsToBytes dotValues in
  let frameIndex := at0 rawBytes 0 in
  let totalFrames := at0 rawBytes 1 in
  2 <= Z.of_nat (length rawBytes) -> 0 < totalFrames <= 200 -> frameIndex < totalFrames ->
  addFrame s dotValues
  = match lock (tally s totalFrames) with
    | None => (tally s totalFrames, {| complete := false; progress_ := F64.ofZ 0 |})
    | Some s1 =>
        if bool_decide (Some totalFrames ≠ _totalFrames s1)
        then (s1, {| complete := false; progress_ := progress s1 |})
        else vote s1 frameIndex dotValues
    end.
Proof.
  cbv zeta. intros H2 Ht Hi. unfold addFrame.
  destruct (Z.ltb_spec (Z.of_nat (length (_dotsToBytes dotValues))) 2); [lia|].
  destruct (Z.eqb_spec (at0 (_dotsToBytes dotValues) 1) 0); [lia|].
  destruct (Z.gtb_spec (at0 (_dotsToBytes dotValues) 1) 200); [lia|].
  simpl. destruct (Z.geb_spec (at0 (_dotsToBytes dotValues) 0) (at0 (_dotsToBytes dotValues) 1));
    [lia|done].
Qed.








End Locking.

(** * The consensus decoder: contaminated votes *)

Section Contamination.
Import Scanner.

(** C4. In a locked decoder, when the bucket of the capture's frame index
    reaches the vote threshold and the header of the majority-voted dots
    differs from the bucket key or from the locked total, the bucket is
    emptied, nothing is stored or counted as received, and the capture does
    not complete the transfer. *)
Theorem vote_contaminated (s : Decoder) (dotValues : list Z) :
  let rawBytes := _dotsToBytes dotValues in
  let frameIndex := at0 rawBytes 0 in
  let totalFrames := at0 rawBytes 1 in
  let bucket := default [] (_votes s !! frameIndex) ++ [dotValues] in
  let votedBytes := _dotsToBytes (_majorityVote bucket) in
  let s' := (addFrame s dotValues).1 in
  2 <= Z.of_nat (length rawBytes) -> 0 < totalFrames <= 200 -> frameIndex < totalFrames ->
  _totalFrames s = Some totalFrames ->
  MIN_VOTES <= Z.of_nat (length bucket) ->
  votedBytes !! 0%nat <> Some frameIndex \/ votedBytes !! 1%nat <> Some totalFrames ->
  _votes s' = <[frameIndex := []]> (_votes s) /\
  _frames s' = _frames s /\
  _received s' = _received s /\
  _totalFrames s' = _totalFrames s /\
  (addFrame s dotValues).2 = {| complete := false; progress_ := progress s' |}.
Proof.
  cbv zeta. intros H2 Ht Hi HT Hn Hmis.
  rewrite addFrame_wellformed by done.
  rewrite (lock_locked (tally s _) (at0 (_dotsToBytes dotValues) 1)) by done.
  rewrite bool_decide_eq_false_2 by (simpl; rewrite HT; intros H; by apply H).
  unfold vote, tally. cbv zeta. cbn [_votes _totalFrames _frames _received].
  destruct (Z.geb_spec (Z.of_nat (length (default [] (_votes s !! at0 (_dotsToBytes dotValues) 0)
                                          ++ [dotValues]))) MIN_VOTES) as [_|Hlt]; [|lia].
  rewrite HT.
  assert (Hb : bool_decide
                 (_dotsToBytes (_majorityVote (default [] (_votes s !! at0 (_dotsToBytes dotValues) 0)
                                               ++ [dotValues])) !! 0%nat
                  ≠ Some (at0 (_dotsToBytes dotValues) 0))
               || bool_decide
                    (_dotsToBytes (_majorityVote (default [] (_votes s !! at0 (_dotsToBytes dotValues) 0)
                                                  ++ [dotValues])) !! 1%nat
                     ≠ Some (at0 (_dotsToBytes dotValues) 1)) = true).
  { apply orb_true_iff. destruct Hmis as [H|H]; [left|right]; by apply bool_decide_eq_true_2. }
  rewrite Hb. simpl. rewrite insert_insert_eq. done.
Qed.

(** A bucket for frame 0 that holds four captures reading as frame 1 is
    emptied by the fifth capture. *)
Lemma vote_contaminated_example :
  let s' := (addFrame Aux.contaminated Aux.capture_0_of_3).1 in
  _votes s' = <[0 := []]> (_votes Aux.contaminated) /\
  _frames s' = _frames Aux.contaminated /\
  _received s' = _received Aux.contaminated /\
  _totalFrames s' = _totalFrames Aux.contaminated /\
  (addFrame Aux.contaminated Aux.capture_0_of_3).2
  = {| complete := false; progress_ := progress s' |}.
Proof.
  apply (vote_contaminated Aux.contaminated Aux.capture_0_of_3).
  - vm_compute. discriminate.
  - vm_compute. split; [reflexivity|discriminate].
  - reflexivity.
  - reflexivity.
  - vm_compute. discriminate.
  - left. vm_compute. discriminate.
Defined.

End Contamination.

(** * Comparisons in binary64 *)

Lemma SFcompare_antisym (x y : float) :
  SFcompare y x = option_map CompOpp (SFcompare x y).
Proof.
  destruct x as [sx|sx| |sx mx ex], y as [sy|sy| |sy my ey]; simpl; try done;
    try (by destruct sx); try (by destruct sy); try (by destruct sx, sy).
  f_equal. destruct sx, sy; try done.
  - rewrite (Z.compare_antisym ey ex). destruct (ey ?= ex); simpl; try done.
    by rewrite (Pos.compare_cont_antisym mx my Eq).
  - rewrite (Z.compare_antisym ey ex). destruct (ey ?= ex); simpl; try done.
    by rewrite (Pos.compare_cont_antisym mx my Eq).
Qed.

(** [a <= b] excludes [b < a]. *)
Lemma leb_not_ltb (a b : float) : F64.leb a b = true -> F64.ltb b a = false.
Proof.
  unfold F64.leb, F64.ltb, SFleb, SFltb. rewrite (SFcompare_antisym a b).
  destruct (SFcompare a b) as [[| |]|]; simpl; done.
Qed.

(** * Temporal stabilisation of the transform *)

Section Percentages.

Lemma lit_10_100 : F64.lit 10 100 = S754_finite false 7205759403792794 (-56).
Proof. vm_compute. reflexivity. Qed.

Lemma lit_15_100 : F64.lit 15 100 = S754_finite false 5404319552844595 (-55).
Proof. vm_compute. reflexivity. Qed.

Lemma lit_20_100 : F64.lit 20 100 = S754_finite false 7205759403792794 (-55).
Proof. vm_compute. reflexivity. Qed.

(** What is at most 10 percent of a positive normal number is below 15
    percent of it, with both percentages rounded as the code computes
    them. *)
Lemma ten_below_fifteen (d : float) (m : positive) (e : Z) :
  Z.pos (Pos.size m) = 53 -> -1070 <= e <= 971 ->
  F64.leb d (F64.mul (S754_finite false m e) (F64.lit 10 100)) = true ->
  F64.ltb d (F64.mul (S754_finite false m e) (F64.lit 15 100)) = true.
Proof.
  intros Hm He. rewrite lit_10_100, lit_15_100.
  pose proof (size_bounds m) as Bm. rewrite Hm in Bm.
  change (2 ^ (53 - 1)) with (2 ^ 52) in Bm.
  destruct (mul_canonical m 7205759403792794 e (-56))
    as (r1 & f1 & a1 & K1 & E1 & Hs1 & Hf1 & Hv1 & HK1 & Hb1); [done|done|lia|lia|].
  destruct (mul_canonical m 5404319552844595 e (-55))
    as (r2 & f2 & a2 & K2 & E2 & Hs2 & Hf2 & Hv2 & HK2 & Hb2); [done|done|lia|lia|].
  rewrite E1, E2. intros Hle. apply (leb_ltb_trans d r1 r2 f1 f2 Hle).
  unfold F64.ltb. rewrite (ltb_canonical r1 r2 f1 f2 (e + -56)) by lia.
  apply Z.ltb_lt. rewrite Hv1.
  replace (f2 - (e + -56)) with (1 + (f2 - (e + -55))) by lia.
  rewrite Z.pow_add_r, Z.mul_assoc, (Z.mul_comm (Z.pos r2)), <- Z.mul_assoc, Hv2 by lia.
  change (2 ^ 1) with 2.
  destruct HK1 as [-> | ->], HK2 as [-> | ->]; lia.
Qed.

(** Any percentage of a positive normal number, with a constant of 53 bits,
    is positive. *)
Lemma twenty_positive (m : positive) (e : Z) :
  Z.pos (Pos.size m) = 53 -> -1070 <= e <= 971 ->
  F64.ltb (S754_zero false) (F64.mul (S754_finite false m e) (F64.lit 20 100)) = true.
Proof.
  intros Hm He. rewrite lit_20_100.
  destruct (mul_canonical m 7205759403792794 e (-55))
    as (r & f & a & K & E & _); [done|done|lia|lia|].
  by rewrite E.
Qed.

(** The drift of a number from itself is zero. *)
Lemma drift_self (v : float) :
  F64.ltb (F64.abs v) Scanner.Infinity = true ->
  F64.abs (F64.sub v v) = S754_zero false.
Proof.
  destruct v as [s|s| |s m e]; try done.
  - by destruct s.
  - intros _. unfold F64.sub, SFsub. cbv zeta. rewrite Z.sub_diag. done.
Qed.

End Percentages.

Section Stabilisation.
Import Scanner.

(** C6. With a cached transform and a freshly derived one, the fresh one
    replaces the cache (and is used) exactly when its centre drift is below
    15 percent of the cached scale, its scale drift below 20 percent of the
    cached scale and its rotation drift below 15 degrees; otherwise the
    cache is kept and used. The drifts are the distance of the centres, the
    absolute difference of the scales and the absolute difference of the
    rotations. In particular a centre drift of 15 percent of the cached
    scale or more is rejected whatever the rest, and so are a scale drift of
    20 percent or more and a rotation drift of 15 degrees or more; with the
    same scale and rotation, a centre drift of at most 10 percent of the
    cached scale is accepted, for every cached scale that is a positive
    normal number and every cached rotation that is a number. At the scale
    200: a centre 30 pixels away (15 percent) is rejected and one 20 pixels
    away (10 percent) accepted, the scale 240 is rejected and 239 accepted,
    a rotation 0.27 radians away is rejected and one 0.25 radians away
    accepted. *)
Theorem transform_drift_gate (cached fresh : Transform) (blobs : Z) :
  3 <= blobs ->
  let cdx := F64.sub (x (center fresh)) (x (center cached)) in
  let cdy := F64.sub (y (center fresh)) (y (center cached)) in
  let cd := F64.sqrt (F64.add (F64.mul cdx cdx) (F64.mul cdy cdy)) in
  let sd := F64.abs (F64.sub (scale fresh) (scale cached)) in
  let rd := F64.abs (F64.sub (rotation fresh) (rotation cached)) in
  let percent p := F64.mul (scale cached) (F64.lit p 100) in
  let degrees15 := F64.div (F64.mul (F64.ofZ 15) F64.PI) (F64.ofZ 180) in
  let within :=
    F64.ltb cd (percent 15) && F64.ltb sd (percent 20) && F64.ltb rd degrees15 in
  let result := reuseTransform (Some cached) blobs (Some fresh) in
  let gate c f := reuseTransform (Some c) blobs (Some f) in
  (within = true -> result = (Some fresh, Some fresh)) /\
  (within = false -> result = (Some cached, Some cached)) /\
  (F64.leb (percent 15) cd = true -> result = (Some cached, Some cached)) /\
  (F64.leb (percent 20) sd = true -> result = (Some cached, Some cached)) /\
  (F64.leb degrees15 rd = true -> result = (Some cached, Some cached)) /\
  (forall (m : positive) (e : Z),
     scale cached = S754_finite false m e -> Z.pos (Pos.size m) = 53 -> -1070 <= e <= 971 ->
     F64.ltb (F64.abs (rotation cached)) Infinity = true ->
     scale fresh = scale cached -> rotation fresh = rotation cached ->
     F64.leb cd (percent 10) = true ->
     result = (Some fresh, Some fresh)) /\
  (centerDrift (Aux.fresh_transform 30 0) Aux.cached_transform = F64.ofZ 30 /\
   gate Aux.cached_transform (Aux.fresh_transform 30 0)
   = (Some Aux.cached_transform, Some Aux.cached_transform)) /\
  (centerDrift (Aux.fresh_transform 12 16) Aux.cached_transform = F64.ofZ 20 /\
   gate Aux.cached_transform (Aux.fresh_transform 12 16)
   = (Some (Aux.fresh_transform 12 16), Some (Aux.fresh_transform 12 16))) /\
  (gate Aux.cached_transform (Aux.scaled_transform 240 (F64.lit 1 10))
   = (Some Aux.cached_transform, Some Aux.cached_transform) /\
   gate Aux.cached_transform (Aux.scaled_transform 239 (F64.lit 1 10))
   = (Some (Aux.scaled_transform 239 (F64.lit 1 10)),
      Some (Aux.scaled_transform 239 (F64.lit 1 10)))) /\
  (gate Aux.cached_transform (Aux.scaled_transform 200 (F64.lit 37 100))
   = (Some Aux.cached_transform, Some Aux.cached_transform) /\
   gate Aux.cached_transform (Aux.scaled_transform 200 (F64.lit 35 100))
   = (Some (Aux.scaled_transform 200 (F64.lit 35 100)),
      Some (Aux.scaled_transform 200 (F64.lit 35 100)))).
Proof.
  intros Hb. cbv zeta.
  assert (Hge : (blobs >=? 3) = true) by (apply Z.geb_le; lia).
  assert (Hgen : forall c f,
    reuseTransform (Some c) blobs (Some f)
    = if F64.ltb
           (F64.sqrt
              (F64.add
                 (F64.mul (F64.sub (x (center f)) (x (center c)))
                          (F64.sub (x (center f)) (x (center c))))
                 (F64.mul (F64.sub (y (center f)) (y (center c)))
                          (F64.sub (y (center f)) (y (center c))))))
           (F64.mul (scale c) (F64.lit 15 100))
         && F64.ltb (F64.abs (F64.sub (scale f) (scale c)))
                    (F64.mul (scale c) (F64.lit 20 100))
         && F64.ltb (F64.abs (F64.sub (rotation f) (rotation c)))
                    (F64.div (F64.mul (F64.ofZ 15) F64.PI) (F64.ofZ 180))
      then (Some f, Some f) else (Some c, Some c)).
  { intros c f. unfold reuseTransform. rewrite Hge.
    unfold centerDrift, scaleDrift, rotDrift, maxCenterDrift, maxScaleDrift, maxRotDrift.
    cbv zeta. by destruct (_ && _). }
  assert (Hinst : forall c f b,
    (F64.ltb (centerDrift f c) (maxCenterDrift c)
     && F64.ltb (scaleDrift f c) (maxScaleDrift c)
     && F64.ltb (rotDrift f c) maxRotDrift) = b ->
    reuseTransform (Some c) blobs (Some f) = if b then (Some f, Some f) else (Some c, Some c)).
  { intros c f b <-. unfold reuseTransform. rewrite Hge. by destruct (_ && _). }
  split; [|split; [|split; [|split; [|split; [|split; [|split; [|split; [|split]]]]]]]].
  - intros Hw. by rewrite Hgen, Hw.
  - intros Hw. by rewrite Hgen, Hw.
  - intros Hle. by rewrite Hgen, (leb_not_ltb _ _ Hle).
  - intros Hle. by rewrite Hgen, (leb_not_ltb _ _ Hle), andb_false_r.
  - intros Hle. by rewrite Hgen, (leb_not_ltb _ _ Hle), andb_false_r.
  - intros m e Hs Hm He Hr Es Er Hle. rewrite Hgen, Es, Er, !drift_self; [|done|].
    + rewrite Hs in *. rewrite (ten_below_fifteen _ m e Hm He Hle).
      by rewrite (twenty_positive m e Hm He).
    + rewrite Hs. done.
  - split; [vm_compute; reflexivity|].
    apply (Hinst _ _ false). vm_compute. reflexivity.
  - split; [vm_compute; reflexivity|].
    apply (Hinst _ _ true). vm_compute. reflexivity.
  - split; [apply (Hinst _ _ false)|apply (Hinst _ _ true)]; vm_compute; reflexivity.
  - split; [apply (Hinst _ _ false)|apply (Hinst _ _ true)]; vm_compute; reflexivity.
Qed.

(** A fresh transform at twice the cached scale, with three blobs. *)
Lemma transform_drift_gate_example :
  reuseTransform (Some Aux.cached_transform) 3
    (Some (Aux.scaled_transform 400 (F64.lit 1 10)))
  = (Some Aux.cached_transform, Some Aux.cached_transform).
Proof.
  apply (proj1 (proj2 (proj2 (proj2
           (transform_drift_gate Aux.cached_transform
              (Aux.scaled_transform 400 (F64.lit 1 10)) 3 ltac:(lia)))))).
  vm_compute. reflexivity.
Defined.

End Stabilisation.

(** * Hue matching *)

Section Hue.
Import Scanner.

(** C7, as stated, fails in two ways. Two samples with the same hue of 30
    degrees that both pass the chromatic gate are matched to different
    palette entries, because the darker one has a channel spread below 10,
    for which [rgbToHue] returns -1 and [matchColor] falls back to RGB
    distance; and two samples for which [rgbToHue] returns the same value,
    -1, are matched to different entries. *)
Lemma same_hue_different_index :
  (chromatic 40 36 32 = true /\ chromatic 200 120 40 = true /\
   hueOf 40 36 32 = F64.ofZ 30 /\ hueOf 200 120 40 = F64.ofZ 30 /\
   matchColor 40 36 32 = 0 /\ matchColor 200 120 40 = 1) /\
  (chromatic 31 25 25 = true /\ chromatic 25 31 25 = true /\
   rgbToHue 31 25 25 = rgbToHue 25 31 25 /\
   matchColor 31 25 25 = 0 /\ matchColor 25 31 25 = 3) /\
  ~ (forall r1 g1 b1 r2 g2 b2,
       chromatic r1 g1 b1 = true -> chromatic r2 g2 b2 = true ->
       rgbToHue r1 g1 b1 = rgbToHue r2 g2 b2 ->
       matchColor r1 g1 b1 = matchColor r2 g2 b2) /\
  ~ (forall r1 g1 b1 r2 g2 b2,
       chromatic r1 g1 b1 = true -> chromatic r2 g2 b2 = true ->
       hueOf r1 g1 b1 = hueOf r2 g2 b2 ->
       matchColor r1 g1 b1 = matchColor r2 g2 b2).
Proof.
  split; [vm_compute; repeat split; reflexivity|].
  split; [vm_compute; repeat split; reflexivity|]. split.
  - intros H. specialize (H 31 25 25 25 31 25). vm_compute in H.
    by specialize (H eq_refl eq_refl eq_refl).
  - intros H. specialize (H 40 36 32 200 120 40). vm_compute in H.
    by specialize (H eq_refl eq_refl eq_refl).
Qed.

(** C7, as the classifier has it: two samples that pass the chromatic gate
    and for which [rgbToHue] returns the same hue, not the marker -1 of a
    channel spread below 10, are matched to the same palette entry; (200,
    40, 40) and (255, 80, 80) both pass the gate, have the hue 0 and are
    matched to entry 0. *)
Theorem matchColor_same_hue (r1 g1 b1 r2 g2 b2 : Z) :
  chromatic r1 g1 b1 = true -> chromatic r2 g2 b2 = true ->
  rgbToHue r1 g1 b1 = rgbToHue r2 g2 b2 ->
  F64.leb (F64.ofZ 0) (rgbToHue r1 g1 b1) = true ->
  matchColor r1 g1 b1 = matchColor r2 g2 b2 /\
  chromatic 200 40 40 = true /\ chromatic 255 80 80 = true /\
  rgbToHue 200 40 40 = F64.ofZ 0 /\ rgbToHue 255 80 80 = F64.ofZ 0 /\
  matchColor 200 40 40 = 0 /\ matchColor 255 80 80 = 0.
Proof.
  intros Hc1 Hc2 Hh Hpos. split; [|vm_compute; repeat split; reflexivity].
  unfold matchColor. rewrite Hc1, Hc2, <- Hh, Hpos. done.
Qed.

(** Two oranges of different brightness. *)
Lemma matchColor_same_hue_example :
  matchColor 200 120 40 = matchColor 100 60 20 /\
  chromatic 200 40 40 = true /\ chromatic 255 80 80 = true /\
  rgbToHue 200 40 40 = F64.ofZ 0 /\ rgbToHue 255 80 80 = F64.ofZ 0 /\
  matchColor 200 40 40 = 0 /\ matchColor 255 80 80 = 0.
Proof.
  apply (matchColor_same_hue 200 120 40 100 60 20);
    vm_compute; reflexivity.
Defined.

End Hue.

(** * More of the Go library *)

(** ** Dot counts and the layout *)

Section GoGeometry.
Import Go.

Lemma TotalDots_loop (n : nat) :
  fold_left (fun total ring => total + ring * 6) (seqZ 1 (Z.of_nat n)) 0
  = 3 * Z.of_nat n * (Z.of_nat n + 1).
Proof.
  induction n as [|n IH]; [done|].
  rewrite seqZ_S, fold_left_app, IH. simpl. lia.
Qed.

Lemma TotalDots_eq (c : Config) :
  TotalDots c = 3 * Z.max 0 (Rings c) * (Z.max 0 (Rings c) + 1).
Proof.
  unfold TotalDots. destruct (Z.le_gt_cases (Rings c) 0) as [Hle|Hgt].
  - rewrite seqZ_nil by done. simpl. lia.
  - rewrite <- (Z2Nat.id (Rings c)) at 1 by lia. rewrite TotalDots_loop. lia.
Qed.

(** X1. Up to 26754 rings, where the sum stays in the range of a 32-bit
    [int], [TotalDots] is [3 * Rings * (Rings + 1)], and 0 for a ring count
    that is not positive. *)
Theorem TotalDots_closed_form (c : Config) :
  Rings c <= 26754 ->
  TotalDots c = 3 * Z.max 0 (Rings c) * (Z.max 0 (Rings c) + 1) /\
  0 <= TotalDots c < 2 ^ 31.
Proof.
  intros HR. rewrite TotalDots_eq. split; [done|].
  set (R := Z.max 0 (Rings c)). assert (HR' : 0 <= R <= 26754) by lia.
  assert (R * (R + 1) <= 26754 * 26755) by (apply Z.mul_le_mono_nonneg; lia).
  change (2 ^ 31) with 2147483648. nia.
Qed.

(** The four rings of the default configuration have 60 dots. *)
Lemma TotalDots_closed_form_example :
  TotalDots DefaultConfig = 60 /\ 0 <= TotalDots DefaultConfig < 2 ^ 31.
Proof.
  apply (TotalDots_closed_form DefaultConfig). simpl. lia.
Defined.

Lemma positions_join (f : Z -> RingLayout) (n : nat) :
  (forall i, 0 <= i -> len (Positions (f i)) = 6 * (i + 1)) ->
  len ((f <$> seqZ 0 (Z.of_nat n)) ≫= Positions) = 3 * Z.of_nat n * (Z.of_nat n + 1).
Proof.
  intros Hf. induction n as [|n IH]; [done|].
  rewrite seqZ_S, fmap_app, bind_app. unfold len in *.
  rewrite length_app, Nat2Z.inj_add, IH. simpl.
  rewrite app_nil_r, Z.add_0_l, Hf by lia. lia.
Qed.

Lemma NewLayout_positions (c : Config) (w h : float) :
  len (LRings (NewLayout c w h) ≫= Positions) = TotalDots c.
Proof.
  rewrite TotalDots_eq. unfold NewLayout. cbn [LRings].
  destruct (Z.le_gt_cases (Rings c) 0) as [Hle|Hgt].
  - rewrite seqZ_nil by done. unfold len. simpl. lia.
  - replace (seqZ 0 (Rings c)) with (seqZ 0 (Z.of_nat (Z.to_nat (Rings c))))
      by (f_equal; lia).
    rewrite positions_join; [lia|].
    intros i Hi. simpl. unfold len. rewrite length_fmap, length_seqZ. lia.
Qed.

(** X2. For a ring count that is not negative, the layout has one ring for
    each ring of the configuration; ring number [i + 1] has [6 * (i + 1)]
    dots, that many positions and the radius [ringRadius] gives it; all
    rings together have [TotalDots] positions. *)
Theorem NewLayout_rings (c : Config) (w h : float) :
  0 <= Rings c ->
  len (LRings (NewLayout c w h)) = Rings c /\
  (forall (i : nat) (r : RingLayout),
     LRings (NewLayout c w h) !! i = Some r ->
     DotCount r = 6 * (Z.of_nat i + 1) /\
     len (Positions r) = DotCount r /\
     Radius r = ringRadius (Z.of_nat i + 1) (Rings c)) /\
  len (LRings (NewLayout c w h) ≫= Positions) = TotalDots c.
Proof.
  intros Hrings. split; [|split].
  - unfold NewLayout, len. simpl. rewrite length_fmap, length_seqZ. lia.
  - intros i r Hr. unfold NewLayout in Hr. simpl in Hr.
    rewrite list_lookup_fmap in Hr.
    destruct (seqZ 0 (Rings c) !! i) as [j|] eqn:Hj; [|done].
    apply lookup_seqZ in Hj as [-> Hi]. injection Hr as <-. simpl.
    rewrite Z.add_0_l. split; [lia|]. split; [|done].
    unfold len. rewrite length_fmap, length_seqZ. lia.
  - apply NewLayout_positions.
Qed.

(** The layout of the default configuration, in normalised coordinates. *)
Lemma NewLayout_rings_example :
  len (LRings (NewLayout DefaultConfig (F64.ofZ 1) (F64.ofZ 1))) = Rings DefaultConfig /\
  (forall (i : nat) (r : RingLayout),
     LRings (NewLayout DefaultConfig (F64.ofZ 1) (F64.ofZ 1)) !! i = Some r ->
     DotCount r = 6 * (Z.of_nat i + 1) /\
     len (Positions r) = DotCount r /\
     Radius r = ringRadius (Z.of_nat i + 1) (Rings DefaultConfig)) /\
  len (LRings (NewLayout DefaultConfig (F64.ofZ 1) (F64.ofZ 1)) ≫= Positions)
  = TotalDots DefaultConfig.
Proof. apply (NewLayout_rings DefaultConfig). simpl. lia. Defined.

End GoGeometry.

(** ** Bits in and out of a dot, for any number of bits per dot *)

Section GenericBits.
Import Go Aux.

Lemma idx_seq_take (bits : list Z) (off n : nat) :
  (off + n <= length bits)%nat ->
  (fun b => idx bits (Z.of_nat off + b)) <$> seqZ 0 (Z.of_nat n) = take n (drop off bits).
Proof.
  intros Hlen. induction n as [|n IH]; [done|].
  rewrite seqZ_S, fmap_app, IH by lia.
  destruct (lookup_lt_is_Some_2 bits (off + n)) as [x Hx]; [lia|].
  rewrite (take_S_r _ _ x) by (rewrite lookup_drop; done).
  f_equal. simpl. f_equal. rewrite Z.add_0_l.
  replace (Z.of_nat off + Z.of_nat n) with (Z.of_nat (off + n)) by lia.
  by apply idx_lookup.
Qed.

Lemma dotBits_S (n : nat) (v : Z) :
  dotBits (Z.of_nat (S n)) v = dotBits (Z.of_nat n) (v ≫ 1) ++ [Z.land v 1].
Proof.
  unfold dotBits. rewrite (seqZ_cons 0) by lia.
  replace (Z.pred (Z.of_nat (S n))) with (Z.of_nat n) by lia.
  rewrite reverse_cons, fmap_app. f_equal.
  rewrite <- (fmap_add_seqZ 1 0), <- fmap_reverse, <- list_fmap_compose.
  apply list_fmap_ext. intros i b Hb. simpl.
  apply list_elem_of_lookup_2, elem_of_reverse, elem_of_seqZ in Hb.
  rewrite Z.shiftr_shiftr by lia. do 2 f_equal; lia.
Qed.

Lemma lor_shift_bit (v x : Z) : 0 <= v -> bit x -> Z.lor (v ≪ 1) x = 2 * v + x.
Proof.
  intros Hv Hx. rewrite Z.shiftl_mul_pow2 by lia.
  assert (Hl : Z.land (v * 2 ^ 1) x = 0).
  { destruct Hx as [-> | ->]; [apply Z.land_0_r|].
    assert (E : Z.land (v * 2 ^ 1) 1 = (v * 2 ^ 1) mod 2) by (apply (Z.land_ones _ 1); lia).
    rewrite E. change (2 ^ 1) with 2. apply Z.mod_mul. lia. }
  rewrite <- Z.lxor_lor, <- Z.add_nocarry_lxor by done. change (2 ^ 1) with 2. lia.
Qed.

(** Packing up to eight bits, most significant first, gives a number below
    [2 ^ n] from which the decoder reads the same bits back. *)
Lemma pack_bits (bs : list Z) :
  Forall bit bs -> (length bs <= 8)%nat ->
  let v := fold_left (fun value x => uint8 (Z.lor (value ≪ 1) x)) bs 0 in
  0 <= v < 2 ^ Z.of_nat (length bs) /\ dotBits (Z.of_nat (length bs)) v = bs.
Proof.
  induction bs as [|x bs IH] using rev_ind; intros Hbits Hlen; cbv zeta.
  - simpl. split; [lia|done].
  - apply Forall_app in Hbits as [Hbs Hx]. apply (proj1 (Forall_singleton _ _)) in Hx.
    rewrite length_app in *. simpl length in *.
    destruct IH as [Hv Hd]; [done|lia|].
    rewrite fold_left_app. simpl fold_left.
    set (v := fold_left _ bs 0) in *.
    rewrite lor_shift_bit by (done || lia).
    assert (Hpow : 2 ^ Z.of_nat (length bs + 1) = 2 * 2 ^ Z.of_nat (length bs)).
    { rewrite Nat2Z.inj_add, Z.pow_add_r by lia. change (2 ^ Z.of_nat 1) with 2. lia. }
    assert (H256 : 2 ^ Z.of_nat (length bs + 1) <= 256).
    { change 256 with (2 ^ 8). apply Z.pow_le_mono_r; lia. }
    assert (Hr : 0 <= 2 * v + x < 2 ^ Z.of_nat (length bs + 1)).
    { destruct Hx as [-> | ->]; lia. }
    unfold uint8. rewrite Z.mod_small by lia. split; [done|].
    replace (length bs + 1)%nat with (S (length bs)) by lia.
    rewrite dotBits_S. f_equal.
    + rewrite Z.shiftr_div_pow2 by lia. change (2 ^ 1) with 2.
      replace ((2 * v + x) `div` 2) with v; [done|].
      destruct Hx as [-> | ->]; [rewrite Z.add_0_r, Z.mul_comm, Z.div_mul; lia|].
      rewrite Z.mul_comm, Z.div_add_l by lia. change (1 `div` 2) with 0. lia.
    + f_equal.
      assert (E : Z.land (2 * v + x) 1 = (2 * v + x) mod 2) by (apply (Z.land_ones _ 1); lia).
      rewrite E, Z.add_comm, Z.mul_comm, Z.mod_add by lia.
      destruct Hx as [-> | ->]; done.
Qed.

Lemma fold_left_fmap {A B C} (f : A -> B -> A) (g : C -> B) (l : list C) (a : A) :
  fold_left f (g <$> l) a = fold_left (fun a x => f a (g x)) l a.
Proof. revert a. induction l as [|x l IH]; intros a; simpl; [done|apply IH]. Qed.

Lemma fold_left_ext {A B} (f g : A -> B -> A) (l : list B) (a : A) :
  (forall a x, f a x = g a x) -> fold_left f l a = fold_left g l a.
Proof.
  intros Hfg. revert a. induction l as [|x l IH]; intros a; simpl; [done|].
  by rewrite Hfg, IH.
Qed.

(** The value of dot [k] is the packing of its [bpd] bits. *)
Lemma dotValue_take (bits : list Z) (bpd k : nat) :
  (k * bpd + bpd <= length bits)%nat ->
  dotValue bits (Z.of_nat bpd) (Z.of_nat k)
  = fold_left (fun value x => uint8 (Z.lor (value ≪ 1) x)) (take bpd (drop (k * bpd) bits)) 0.
Proof.
  intros Hlen. unfold dotValue.
  rewrite <- (idx_seq_take bits (k * bpd) bpd) by lia.
  rewrite fold_left_fmap. apply fold_left_ext. intros value b. do 4 f_equal. lia.
Qed.

Lemma dotValue_spec (bits : list Z) (bpd k : nat) :
  Forall bit bits -> (bpd <= 8)%nat -> (k * bpd + bpd <= length bits)%nat ->
  0 <= dotValue bits (Z.of_nat bpd) (Z.of_nat k) < 2 ^ Z.of_nat bpd /\
  dotBits (Z.of_nat bpd) (dotValue bits (Z.of_nat bpd) (Z.of_nat k))
  = take bpd (drop (k * bpd) bits).
Proof.
  intros Hbits Hbpd Hlen. rewrite dotValue_take by done.
  assert (Hl : length (take bpd (drop (k * bpd) bits)) = bpd)
    by (rewrite length_take, length_drop; lia).
  pose proof (pack_bits (take bpd (drop (k * bpd) bits))) as Hp.
  rewrite Hl in Hp. apply Hp; [|lia].
  by apply Forall_take, Forall_drop.
Qed.

(** Reading back the dots [k .. k+n-1] gives the bits they were made of. *)
Lemma decode_values_gen (bits : list Z) (bpd n : nat) :
  Forall bit bits -> (bpd <= 8)%nat ->
  forall k : nat,
    ((k + n) * bpd <= length bits)%nat ->
    (dotValue bits (Z.of_nat bpd) <$> seqZ (Z.of_nat k) (Z.of_nat n)) ≫= dotBits (Z.of_nat bpd)
    = take (n * bpd) (drop (k * bpd) bits).
Proof.
  intros Hbits Hbpd. induction n as [|n IH]; intros k Hlen; [done|].
  rewrite seqZ_cons by lia.
  replace (Z.succ (Z.of_nat k)) with (Z.of_nat (S k)) by lia.
  replace (Z.pred (Z.of_nat (S n))) with (Z.of_nat n) by lia.
  rewrite fmap_cons, bind_cons, IH by lia.
  rewrite (proj2 (dotValue_spec bits bpd k Hbits Hbpd ltac:(lia))).
  replace (S k * bpd)%nat with (k * bpd + bpd)%nat by lia.
  rewrite <- drop_drop, take_take_drop. f_equal; lia.
Qed.

End GenericBits.

(** ** One frame through the codec of any configuration *)

Section GenericCodec.
Import Go Aux.

Variable c : Config.
Hypothesis bpd_range : 1 <= BitsPerDot c <= 8.

Lemma TotalDots_nonneg : 0 <= TotalDots c.
Proof. rewrite TotalDots_eq. nia. Qed.

Lemma bytesToDots_values_gen (frameBytes : list Z) :
  BitsPerFrame c <= 8 * len frameBytes ->
  Value <$> bytesToDots (NewEncoder c) frameBytes
  = dotValue (bytesToBits frameBytes) (BitsPerDot c) <$> seqZ 0 (TotalDots c).
Proof.
  intros Hlen.
  rewrite bytesToDots_values;
    change (layout (NewEncoder c)) with (NewLayout c (F64.ofZ 1) (F64.ofZ 1));
    change (config (NewEncoder c)) with c; rewrite ?NewLayout_positions.
  - done.
  - lia.
  - unfold len in *. rewrite length_bytesToBits. unfold BitsPerFrame in Hlen. lia.
Qed.

(** The decoder reads back the first [BitsPerFrame / 8] bytes the encoder
    has spread over the dots. *)
Lemma dotsToBytes_bytesToDots_gen (d : Decoder) (frameBytes : list Z) :
  dconfig d = c ->
  Forall byte frameBytes -> BitsPerFrame c <= 8 * len frameBytes ->
  dotsToBytes d (bytesToDots (NewEncoder c) frameBytes)
  = take (Z.to_nat (BitsPerFrame c ÷ 8)) frameBytes.
Proof.
  intros Hd Hbytes Hlen. unfold dotsToBytes. rewrite Hd.
  pose proof TotalDots_nonneg as HN.
  pose proof (length_bytesToBits frameBytes) as Hbl.
  assert (Hbf : BitsPerFrame c = Z.of_nat (Z.to_nat (TotalDots c) * Z.to_nat (BitsPerDot c)))
    by (unfold BitsPerFrame; lia).
  assert (Hbits :
    (bytesToDots (NewEncoder c) frameBytes
       ≫= fun dot => (fun b => Z.land (Value dot ≫ b) 1) <$> reverse (seqZ 0 (BitsPerDot c)))
    = take (Z.to_nat (TotalDots c) * Z.to_nat (BitsPerDot c)) (bytesToBits frameBytes)).
  { change (fun dot => (fun b => Z.land (Value dot ≫ b) 1) <$> reverse (seqZ 0 (BitsPerDot c)))
      with (dotBits (BitsPerDot c) ∘ Value).
    rewrite <- list_fmap_bind, bytesToDots_values_gen by done.
    rewrite <- (Z2Nat.id (BitsPerDot c)) by lia.
    rewrite <- (Z2Nat.id (TotalDots c)) at 1 by lia.
    rewrite Nat2Z.id.
    apply (decode_values_gen (bytesToBits frameBytes) (Z.to_nat (BitsPerDot c))
             (Z.to_nat (TotalDots c)) (bytesToBits_bit _) ltac:(lia) 0%nat).
    unfold len in *. lia. }
  rewrite Hbits.
  assert (Hn : len (take (Z.to_nat (TotalDots c) * Z.to_nat (BitsPerDot c))
                         (bytesToBits frameBytes)) = BitsPerFrame c).
  { unfold len in *. rewrite length_take_le by lia. lia. }
  rewrite Hn.
  assert (Hq : 0 <= BitsPerFrame c ÷ 8 /\ 8 * (BitsPerFrame c ÷ 8) <= BitsPerFrame c).
  { rewrite Z.quot_div_nonneg by lia.
    pose proof (Z.mul_div_le (BitsPerFrame c) 8 ltac:(lia)).
    pose proof (Z.div_pos (BitsPerFrame c) 8 ltac:(lia) ltac:(lia)). lia. }
  apply (list_eq_same_length _ _ (Z.to_nat (BitsPerFrame c ÷ 8))).
  - rewrite length_take_le; [done|]. unfold len in *. lia.
  - by rewrite length_fmap, length_seqZ.
  - intros i x y Hi Hx Hy.
    rewrite list_lookup_fmap, lookup_seqZ_lt in Hx by lia.
    cbv [fmap option_fmap option_map] in Hx. injection Hx as <-.
    rewrite lookup_take_lt in Hy by lia. rewrite Z.add_0_l.
    change (fold_left _ (seqZ 0 8) 0)
      with (pack8 (take (Z.to_nat (TotalDots c) * Z.to_nat (BitsPerDot c))
                        (bytesToBits frameBytes)) (Z.of_nat i * 8)).
    apply pack8_bytesToBits; [done|done|lia].
Qed.

(** Every dot the encoder writes has a value of [BitsPerDot] bits, and
    there are [TotalDots] of them. *)
Lemma bytesToDots_dots (frameBytes : list Z) :
  BitsPerFrame c <= 8 * len frameBytes ->
  len (bytesToDots (NewEncoder c) frameBytes) = TotalDots c /\
  Forall (fun dot => 0 <= Value dot < 2 ^ BitsPerDot c) (bytesToDots (NewEncoder c) frameBytes).
Proof.
  intros Hlen. pose proof TotalDots_nonneg as HN.
  pose proof (bytesToDots_values_gen frameBytes Hlen) as Hv. split.
  - unfold len. rewrite <- (length_fmap Value), Hv, length_fmap, length_seqZ. lia.
  - assert (H : Forall (fun v => 0 <= v < 2 ^ BitsPerDot c)
                       (Value <$> bytesToDots (NewEncoder c) frameBytes));
      [|by apply Forall_fmap in H].
    rewrite Hv. apply Forall_fmap, Forall_seqZ. intros k Hk. simpl.
    rewrite <- (Z2Nat.id (BitsPerDot c)), <- (Z2Nat.id k) by lia.
    apply dotValue_spec; [apply bytesToBits_bit|lia|].
    rewrite length_bytesToBits. unfold BitsPerFrame, len in *. nia.
Qed.

End GenericCodec.

(** ** What [Data] returns *)

Section GoData.
Import Go.

Lemma collect_present (fr : gmap Z (list Z)) (n : nat) :
  forall i acc,
    (forall j, i <= j < i + Z.of_nat n -> is_Some (fr !! j)) ->
    collect fr i n acc
    = inl (acc ++ mjoin ((fun j => default [] (fr !! j)) <$> seqZ i (Z.of_nat n))).
Proof.
  induction n as [|n IH]; intros i acc Hfr.
  - simpl. by rewrite app_nil_r.
  - simpl collect. destruct (Hfr i ltac:(lia)) as [payload Hp]. rewrite Hp.
    rewrite IH by (intros; apply Hfr; lia).
    rewrite (seqZ_cons i) by lia. rewrite fmap_cons. simpl mjoin. rewrite Hp. simpl.
    replace (Z.succ i) with (i + 1) by lia.
    replace (Z.pred (Z.of_nat (S n))) with (Z.of_nat n) by lia.
    by rewrite <- app_assoc.
Qed.

Lemma collect_missing (fr : gmap Z (list Z)) (n : nat) :
  forall i acc j,
    i <= j < i + Z.of_nat n -> fr !! j = None ->
    collect fr i n acc = inr ErrIncompleteData.
Proof.
  induction n as [|n IH]; intros i acc j Hj Hnone; [lia|].
  simpl. destruct (fr !! i) as [payload|] eqn:Hi; [|done].
  apply (IH _ _ j); [|done].
  destruct (decide (j = i)) as [->|]; [congruence|lia].
Qed.

(** X3. [Data] never returns partial data: it fails with
    [ErrIncompleteData] when fewer frames than the total were received or
    when some index below the total is not stored, and otherwise returns the
    stored payloads of the indices 0 to total - 1, in that order. *)
Theorem Data_spec (d : Decoder) :
  (received d < total d \/ (exists j, 0 <= j < total d /\ frames d !! j = None) ->
   Data d = inr ErrIncompleteData) /\
  (total d <= received d /\ (forall j, 0 <= j < total d -> is_Some (frames d !! j)) ->
   Data d = inl (mjoin ((fun j => default [] (frames d !! j)) <$> seqZ 0 (total d)))).
Proof.
  unfold Data. split.
  - intros [Hlt|(j & Hj & Hnone)].
    + by rewrite (proj2 (Z.ltb_lt _ _) Hlt).
    + destruct (received d <? total d); [done|].
      apply (collect_missing _ _ _ _ j); [lia|done].
  - intros [Hle Hall]. rewrite (proj2 (Z.ltb_ge _ _) Hle).
    rewrite collect_present by (intros; apply Hall; lia).
    destruct (Z.le_gt_cases 0 (total d)).
    + by rewrite Z2Nat.id.
    + rewrite Z2Nat.nonpos by lia. by rewrite (seqZ_nil 0 (total d)) by lia.
Qed.

(** [AddFrame] by cases: it fails exactly on an empty frame, on dots that
    give fewer than two bytes and on a frame total of 0; the error is
    [ErrInvalidFrame], the decoder is left as it was and the result is
    [false]. Otherwise the payload of the decoded index is stored
    afterwards, the total is the frame total of the header, and the result
    says whether the received count has reached it. *)
Lemma AddFrame_spec (d : Decoder) (dots : list Dot) :
  let data := dotsToBytes d dots in
  let invalid := dots = [] \/ len data < 2 \/ idx data 1 = 0 in
  (invalid -> AddFrame d dots = (d, (false, Some ErrInvalidFrame))) /\
  (~ invalid ->
   (AddFrame d dots).2.2 = None /\
   is_Some (frames (AddFrame d dots).1 !! idx data 0) /\
   (frames d !! idx data 0 = None ->
    frames (AddFrame d dots).1 = <[idx data 0 := drop 2 data]> (frames d) /\
    received (AddFrame d dots).1 = received d + 1) /\
   total (AddFrame d dots).1 = idx data 1 /\
   (AddFrame d dots).2.1
   = bool_decide (total (AddFrame d dots).1 <= received (AddFrame d dots).1)).
Proof.
  cbv zeta. unfold AddFrame. split.
  - intros H.
    destruct (Z.eqb_spec (len dots) 0) as [|Hn]; [done|].
    destruct (Z.ltb_spec (len (dotsToBytes d dots)) 2); [done|].
    destruct (Z.eqb_spec (idx (dotsToBytes d dots) 1) 0); [done|].
    destruct H as [->|[?|?]]; [done|lia|lia].
  - intros H.
    destruct (Z.eqb_spec (len dots) 0) as [Hl|Hn].
    { exfalso. apply H. left. destruct dots; [done|]. unfold len in Hl. simpl in Hl. lia. }
    destruct (Z.ltb_spec (len (dotsToBytes d dots)) 2); [exfalso; apply H; auto|].
    destruct (Z.eqb_spec (idx (dotsToBytes d dots) 1) 0); [exfalso; apply H; auto|].
    cbn [frames total received dconfig].
    destruct (frames d !! idx (dotsToBytes d dots) 0) as [p|] eqn:Hp;
      cbn [frames total received dconfig fst snd].
    + rewrite Hp. repeat split; try done.
      destruct (Z.geb_spec (received d) (idx (dotsToBytes d dots) 1));
        [by rewrite bool_decide_eq_true_2 by lia|by rewrite bool_decide_eq_false_2 by lia].
    + rewrite lookup_insert_eq. repeat split; try done.
      destruct (Z.geb_spec (received d + 1) (idx (dotsToBytes d dots) 1));
        [by rewrite bool_decide_eq_true_2 by lia|by rewrite bool_decide_eq_false_2 by lia].
Qed.

End GoData.

(** ** Encoding and decoding under any configuration, in any order *)

Section GenericRoundTrip.
Import Go Aux.

Variable c : Config.
Variable data : list Z.
Hypothesis bpd_range : 1 <= BitsPerDot c <= 8.
Hypothesis bpf_pos : 0 < BytesPerFrame c.
Hypothesis data_bytes : Forall byte data.

Lemma frame_sizes :
  BitsPerFrame c ÷ 8 = BytesPerFrame c + 2 /\
  BytesPerFrame c + 2 <= (BitsPerFrame c + 7) ÷ 8 /\
  BitsPerFrame c <= 8 * ((BitsPerFrame c + 7) ÷ 8) /\
  0 <= BitsPerFrame c.
Proof.
  assert (H0 : 0 <= BitsPerFrame c).
  { unfold BitsPerFrame. pose proof (TotalDots_nonneg c). nia. }
  unfold BytesPerFrame in *.
  rewrite !Z.quot_div_nonneg in * by lia.
  pose proof (Z.div_mod (BitsPerFrame c) 8 ltac:(lia)).
  pose proof (Z.mod_pos_bound (BitsPerFrame c) 8 ltac:(lia)).
  pose proof (Z.div_mod (BitsPerFrame c + 7) 8 ltac:(lia)).
  pose proof (Z.mod_pos_bound (BitsPerFrame c + 7) 8 ltac:(lia)).
  lia.
Qed.

Lemma chunkAt_take i :
  0 <= i ->
  chunkAt c data i
  = take (Z.to_nat (BytesPerFrame c)) (drop (Z.to_nat (i * BytesPerFrame c)) data).
Proof.
  clear bpd_range data_bytes.
  intros Hi. unfold chunkAt, slice, len.
  destruct (Z.gtb_spec (i * BytesPerFrame c + BytesPerFrame c) (Z.of_nat (length data)))
    as [H|H].
  - rewrite !take_ge; [done|rewrite length_drop; lia|rewrite length_drop; lia].
  - f_equal. lia.
Qed.

Lemma chunkAt_length i : 0 <= i -> len (chunkAt c data i) <= BytesPerFrame c.
Proof.
  clear bpd_range data_bytes.
  intros Hi. unfold len. rewrite chunkAt_take, length_take by done. lia.
Qed.

Lemma chunkAt_bytes i : 0 <= i -> Forall byte (chunkAt c data i).
Proof.
  intros Hi. rewrite chunkAt_take by done. apply Forall_take, Forall_drop, data_bytes.
Qed.

(** The frame bytes the encoder spreads over the dots. *)
Lemma paddedAt_spec i :
  0 <= i < 256 -> 0 <= framesOf c data < 256 ->
  Forall byte (paddedAt c data i) /\
  BitsPerFrame c <= 8 * len (paddedAt c data i) /\
  take (Z.to_nat (BitsPerFrame c ÷ 8)) (paddedAt c data i)
  = i :: framesOf c data :: storedAt c data i.
Proof.
  intros Hi HT.
  destruct frame_sizes as (Hnb & Htb & Hbits & H0).
  pose proof (chunkAt_length i ltac:(lia)) as Hcl.
  pose proof (chunkAt_bytes i ltac:(lia)) as Hcb.
  unfold paddedAt, uint8. rewrite !Z.mod_small by lia. cbv zeta.
  set (T := framesOf c data) in *. set (ch := chunkAt c data i) in *.
  assert (Hlen : len (i :: T :: ch) = 2 + len ch) by (unfold len; simpl; lia).
  assert (Hhead : Forall byte (i :: T :: ch)).
  { repeat constructor; [lia|lia|lia|lia|done]. }
  rewrite Hnb. unfold storedAt. fold ch.
  replace (Z.to_nat (BytesPerFrame c + 2)) with (S (S (Z.to_nat (BytesPerFrame c)))) by lia.
  destruct (Z.ltb_spec (len (i :: T :: ch)) ((BitsPerFrame c + 7) ÷ 8)) as [Hlt|Hge].
  - split; [|split].
    + apply Forall_app. split; [done|]. apply Forall_replicate. unfold byte. lia.
    + unfold len in *. rewrite length_app, length_replicate. lia.
    + change (take (S (S ?n)) ((i :: T :: ch) ++ ?R)) with (i :: T :: take n (ch ++ R)).
      do 2 f_equal. unfold len in *. rewrite take_app_ge by lia. f_equal.
      rewrite take_replicate. f_equal. simpl length. lia.
  - split; [done|]. split; [lia|].
    change (take (S (S ?n)) (i :: T :: ch)) with (i :: T :: take n ch).
    do 2 f_equal. unfold len in *. simpl length in *.
    rewrite take_ge by lia.
    replace (Z.to_nat (BytesPerFrame c) - length ch)%nat with 0%nat by lia.
    by rewrite app_nil_r.
Qed.

(** What [AddFrame] does with the dots of frame [i]. *)
Lemma AddFrame_encodedAt d i :
  dconfig d = c -> 0 <= i < framesOf c data -> framesOf c data <= 255 ->
  AddFrame d (Dots (encodedAt c data i))
  = match frames d !! i with
    | Some _ =>
        ({| dconfig := dconfig d; frames := frames d; total := framesOf c data;
            received := received d |},
         (received d >=? framesOf c data, None))
    | None =>
        ({| dconfig := dconfig d; frames := <[i := storedAt c data i]> (frames d);
            total := framesOf c data; received := received d + 1 |},
         (received d + 1 >=? framesOf c data, None))
    end.
Proof.
  intros Hd Hi HT. cbn [Dots encodedAt].
  destruct (paddedAt_spec i ltac:(lia) ltac:(lia)) as (Hbytes & Hbits & Htake).
  destruct frame_sizes as (Hnb & Htb & _ & H0).
  assert (Hdec : dotsToBytes d (bytesToDots (NewEncoder c) (paddedAt c data i))
                 = i :: framesOf c data :: storedAt c data i).
  { rewrite <- Htake. by apply dotsToBytes_bytesToDots_gen. }
  assert (Hdots : (len (bytesToDots (NewEncoder c) (paddedAt c data i)) =? 0) = false).
  { apply Z.eqb_neq. rewrite (proj1 (bytesToDots_dots c bpd_range _ Hbits)).
    intros E. pose proof bpf_pos as Hp. unfold BytesPerFrame, BitsPerFrame in Hp.
    rewrite E, Z.mul_0_l in Hp. change (0 ÷ 8) with 0 in Hp. lia. }
  unfold AddFrame. rewrite Hdots, Hdec.
  assert (Hl2 : (len (i :: framesOf c data :: storedAt c data i) <? 2) = false)
    by (apply Z.ltb_ge; unfold len; simpl; lia).
  rewrite Hl2. change (idx (i :: framesOf c data :: storedAt c data i) 0) with i.
  change (idx (i :: framesOf c data :: storedAt c data i) 1) with (framesOf c data).
  assert (HT0 : (framesOf c data =? 0) = false) by (apply Z.eqb_neq; lia).
  rewrite HT0. cbn [frames].
  change (drop 2 (i :: framesOf c data :: storedAt c data i)) with (storedAt c data i).
  destruct (frames d !! i); reflexivity.
Qed.

Lemma Encode_encodedAt :
  Encode (NewEncoder c) data = encodedAt c data <$> seqZ 0 (framesOf c data).
Proof.
  clear bpd_range data_bytes.
  unfold Encode. change (config (NewEncoder c)) with c.
  destruct (Z.leb_spec (BytesPerFrame c) 0); [lia|]. reflexivity.
Qed.

Lemma size_full (m : gmap Z (list Z)) (T : Z) :
  (forall j, is_Some (m !! j) <-> 0 <= j < T) -> size m = Z.to_nat T.
Proof.
  intros Hm. rewrite <- size_dom.
  assert (E : dom m = list_to_set (seqZ 0 T)).
  { apply set_eq. intros j. rewrite elem_of_dom, Hm, elem_of_list_to_set, elem_of_seqZ. lia. }
  rewrite E, size_list_to_set by apply NoDup_seqZ. apply length_seqZ.
Qed.

Lemma size_partial (m : gmap Z (list Z)) (T j0 : Z) :
  (forall j, is_Some (m !! j) -> 0 <= j < T) -> 0 <= j0 < T -> m !! j0 = None ->
  (size m < Z.to_nat T)%nat.
Proof.
  intros Hm Hj0 Hnone.
  assert (Hs : (size (<[j0 := []]> m) <= Z.to_nat T)%nat).
  { rewrite <- size_dom.
    assert (Hsub : dom (<[j0 := []]> m) ⊆ (list_to_set (seqZ 0 T) : gset Z)).
    { intros j Hj. apply elem_of_dom in Hj. apply elem_of_list_to_set, elem_of_seqZ.
      destruct (decide (j = j0)) as [->|Hne]; [lia|].
      rewrite lookup_insert_ne in Hj by done. specialize (Hm j Hj). lia. }
    apply subseteq_size in Hsub.
    rewrite size_list_to_set in Hsub by apply NoDup_seqZ.
    by rewrite length_seqZ in Hsub. }
  rewrite map_size_insert_None in Hs by done. lia.
Qed.

(** The decoder after the frames with the indices [l], in that order. *)
Lemma feed_indices (l : list Z) :
  Forall (fun i => 0 <= i < framesOf c data) l -> framesOf c data <= 255 ->
  let d := feed (NewDecoder c) (encodedAt c data <$> l) in
  dconfig d = c /\
  received d = Z.of_nat (size (frames d)) /\
  total d = (if l is [] then 0 else framesOf c data) /\
  forall j, frames d !! j
            = if bool_decide (j ∈ l) then Some (storedAt c data j) else None.
Proof.
  intros Hl HT. induction l as [|i l IH] using rev_ind.
  - simpl. repeat split.
  - apply Forall_app in Hl as [Hl Hi]. apply (proj1 (Forall_singleton _ _)) in Hi.
    destruct (IH Hl) as (Hc & Hr & Ht & Hf). clear IH.
    cbv zeta. unfold feed in *. rewrite fmap_app, fold_left_app.
    change (encodedAt c data <$> [i]) with [encodedAt c data i]. cbn [fold_left].
    set (d := fold_left _ _ _) in *.
    rewrite (AddFrame_encodedAt d i Hc Hi HT).
    assert (Hne : (if l ++ [i] is [] then 0 else framesOf c data) = framesOf c data)
      by (by destruct l).
    rewrite Hne. rewrite (Hf i).
    destruct (decide (i ∈ l)) as [Hin|Hnin].
    + rewrite bool_decide_eq_true_2 by done. cbn [fst dconfig received frames total].
      repeat split; try done.
      intros j. rewrite Hf.
      destruct (decide (j ∈ l)) as [Hj|Hj].
      * rewrite !bool_decide_eq_true_2; [done| |done]. apply elem_of_app. by left.
      * rewrite !bool_decide_eq_false_2; [done| |done].
        intros Hj'. apply elem_of_app in Hj' as [?|Hj']; [done|].
        apply list_elem_of_singleton in Hj'. rewrite Hj' in Hj. done.
    + rewrite bool_decide_eq_false_2 by done. cbn [fst dconfig received frames total].
      split; [done|]. split; [|split; [done|]].
      * rewrite map_size_insert_None by (rewrite Hf, bool_decide_eq_false_2; done). lia.
      * intros j. destruct (decide (j = i)) as [->|Hji].
        -- rewrite lookup_insert_eq, bool_decide_eq_true_2; [done|].
           apply elem_of_app. right. by apply list_elem_of_singleton.
        -- rewrite lookup_insert_ne, Hf by done.
           destruct (decide (j ∈ l)) as [Hj|Hj].
           ++ rewrite !bool_decide_eq_true_2; [done| |done]. apply elem_of_app. by left.
           ++ rewrite !bool_decide_eq_false_2; [done| |done].
              intros Hj'. apply elem_of_app in Hj' as [?|Hj']; [done|].
              apply list_elem_of_singleton in Hj'. done.
Qed.

Lemma framesOf_bounds :
  len data <= 255 * BytesPerFrame c ->
  0 <= framesOf c data <= 255 /\
  len data <= BytesPerFrame c * framesOf c data /\
  BytesPerFrame c * framesOf c data < len data + BytesPerFrame c.
Proof.
  clear bpd_range data_bytes.
  intros Hlen. unfold framesOf.
  rewrite Z.quot_div_nonneg by (unfold len in *; lia).
  pose proof (Z.div_mod (len data + BytesPerFrame c - 1) (BytesPerFrame c) ltac:(lia)) as Hdm.
  pose proof (Z.mod_pos_bound (len data + BytesPerFrame c - 1) (BytesPerFrame c) bpf_pos) as Hm.
  assert (Hq : 0 <= (len data + BytesPerFrame c - 1) `div` BytesPerFrame c)
    by (apply Z.div_pos; unfold len; lia).
  cbv zeta.
  destruct (Z.gtb_spec ((len data + BytesPerFrame c - 1) `div` BytesPerFrame c) 255); nia.
Qed.

(** The stored payloads, put one after the other, are the payload and
    the padding of its last frame. *)
Lemma join_storedAt (n : nat) :
  forall i : nat,
    (Z.to_nat (BytesPerFrame c) * (i + n) < length data
     <= Z.to_nat (BytesPerFrame c) * (i + S n))%nat ->
    mjoin (storedAt c data <$> seqZ (Z.of_nat i) (Z.of_nat (S n)))
    = drop (Z.to_nat (BytesPerFrame c) * i) data
      ++ replicate (Z.to_nat (BytesPerFrame c) * (i + S n) - length data) 0.
Proof.
  induction n as [|n IH]; intros i Hlen.
  - change (seqZ (Z.of_nat i) (Z.of_nat 1)) with [Z.of_nat i]. simpl.
    rewrite app_nil_r. unfold storedAt. rewrite chunkAt_take by lia.
    replace (Z.to_nat (Z.of_nat i * BytesPerFrame c))
      with (Z.to_nat (BytesPerFrame c) * i)%nat by lia.
    rewrite take_ge by (rewrite length_drop; lia).
    rewrite length_drop. do 2 f_equal. lia.
  - rewrite seqZ_cons by lia.
    replace (Z.succ (Z.of_nat i)) with (Z.of_nat (S i)) by lia.
    replace (Z.pred (Z.of_nat (S (S n)))) with (Z.of_nat (S n)) by lia.
    rewrite fmap_cons. simpl mjoin. rewrite IH by lia.
    unfold storedAt. rewrite chunkAt_take by lia.
    replace (Z.to_nat (Z.of_nat i * BytesPerFrame c))
      with (Z.to_nat (BytesPerFrame c) * i)%nat by lia.
    rewrite length_take, length_drop.
    replace (Z.to_nat (BytesPerFrame c)
             - Z.to_nat (BytesPerFrame c) `min` (length data - Z.to_nat (BytesPerFrame c) * i))%nat
      with 0%nat by lia.
    simpl replicate. rewrite app_nil_r, app_assoc.
    replace (Z.to_nat (BytesPerFrame c) * S i)%nat
      with (Z.to_nat (BytesPerFrame c) * i + Z.to_nat (BytesPerFrame c))%nat by lia.
    rewrite <- drop_drop, take_drop. do 2 f_equal. lia.
Qed.

(** Frames taken from what [Encode] returns are the frames of some indices. *)
Lemma frames_indices (fs : list Frame) :
  (forall f, f ∈ fs -> f ∈ Encode (NewEncoder c) data) ->
  exists l, fs = encodedAt c data <$> l /\ Forall (fun i => 0 <= i < framesOf c data) l.
Proof.
  induction fs as [|f fs IH]; intros Hfs.
  - by exists [].
  - destruct IH as (l & -> & Hl); [intros g Hg; apply Hfs; by right|].
    assert (Hf : f ∈ Encode (NewEncoder c) data) by (apply Hfs; by left).
    rewrite Encode_encodedAt in Hf. apply list_elem_of_fmap in Hf as (i & -> & Hi).
    apply elem_of_seqZ in Hi. exists (i :: l). split; [done|]. constructor; [lia|done].
Qed.

Lemma encodedAt_elem (l : list Z) (j : Z) :
  encodedAt c data j ∈ encodedAt c data <$> l <-> j ∈ l.
Proof.
  split.
  - intros H. apply list_elem_of_fmap in H as (i & E & Hi).
    assert (j = i) by (apply (f_equal FIndex) in E; exact E). by subst.
  - intros H. apply list_elem_of_fmap. eauto.
Qed.

End GenericRoundTrip.

Section GoExtras.
Import Go Aux.

Lemma chunks_join_all (data : list Z) (bpf : Z) (n : nat) :
  0 < bpf ->
  mjoin ((fun i => slice data (i * bpf)
                     (if i * bpf + bpf >? len data then len data else i * bpf + bpf))
           <$> seqZ 0 (Z.of_nat n))
  = take (Z.to_nat (Z.of_nat n * bpf)) data.
Proof.
  intros Hbpf. induction n as [|n IH]; [done|].
  rewrite seqZ_S, fmap_app, join_app, IH.
  simpl. rewrite app_nil_r, Z.add_0_l. unfold slice, len.
  destruct (Z.gtb_spec (Z.of_nat n * bpf + bpf) (Z.of_nat (length data))) as [H|H].
  - rewrite (take_ge data (Z.to_nat (Z.of_nat (S n) * bpf))) by lia.
    destruct (Z.le_gt_cases (Z.of_nat (length data)) (Z.of_nat n * bpf)).
    + rewrite (take_ge data) by lia. rewrite drop_ge by lia. by rewrite take_nil, app_nil_r.
    + rewrite (take_ge (drop _ _)) by (rewrite length_drop; lia). apply take_drop.
  - replace (Z.to_nat (Z.of_nat n * bpf + bpf - Z.of_nat n * bpf)) with (Z.to_nat bpf) by lia.
    rewrite take_take_drop. f_equal. lia.
Qed.

(** X4. A payload of at most 255 frames is encoded whole: [Encode] returns
    [ceil(len / BytesPerFrame)] frames (none for an empty payload), numbered
    from 0, each carrying that count as its total and at most
    [BytesPerFrame] payload bytes, and the payloads put together are the
    payload. The bits per frame and the length of the payload are below
    [2 ^ 30], so that Go's [int] does not wrap. *)
Theorem Encode_covers (c : Config) (data : list Z) :
  BitsPerFrame c < 2 ^ 30 -> len data < 2 ^ 30 ->
  0 < BytesPerFrame c -> len data <= 255 * BytesPerFrame c ->
  let fs := Encode (NewEncoder c) data in
  len fs = (len data + BytesPerFrame c - 1) `div` BytesPerFrame c /\
  len fs <= 255 /\
  FIndex <$> fs = seqZ 0 (len fs) /\
  Forall (fun f => Total f = len fs /\ len (Payload f) <= BytesPerFrame c) fs /\
  mjoin (Payload <$> fs) = data.
Proof.
  intros _ _ Hbpf Hlen. cbv zeta.
  destruct (framesOf_bounds c data Hbpf Hlen) as (HT & Hup & Hlow).
  rewrite (Encode_encodedAt c data Hbpf).
  assert (Hlenfs : len (encodedAt c data <$> seqZ 0 (framesOf c data)) = framesOf c data).
  { unfold len. rewrite length_fmap, length_seqZ. lia. }
  rewrite Hlenfs. split; [|split; [lia|split; [|split]]].
  - unfold framesOf. rewrite Z.quot_div_nonneg by (unfold len in *; lia).
    cbv zeta.
    destruct (Z.gtb_spec ((len data + BytesPerFrame c - 1) `div` BytesPerFrame c) 255)
      as [Hgt|]; [|done].
    exfalso. unfold framesOf in HT, Hup. cbv zeta in HT, Hup.
    rewrite Z.quot_div_nonneg in HT, Hup by (unfold len in *; lia).
    assert ((len data + BytesPerFrame c - 1) `div` BytesPerFrame c < 256); [|lia].
    apply Z.div_lt_upper_bound; lia.
  - rewrite <- list_fmap_compose. apply list_fmap_id.
  - apply Forall_fmap, Forall_seqZ. intros i Hi. simpl. split; [done|].
    apply (chunkAt_length c data Hbpf). lia.
  - rewrite <- list_fmap_compose.
    replace (seqZ 0 (framesOf c data)) with (seqZ 0 (Z.of_nat (Z.to_nat (framesOf c data))))
      by (f_equal; lia).
    rewrite (chunks_join_all data (BytesPerFrame c) _ Hbpf).
    apply take_ge. unfold len in *. lia.
Qed.

(** Forty-five bytes under the default configuration: three frames. *)
Lemma Encode_covers_example :
  let fs := Encode (NewEncoder DefaultConfig) (replicate 45 7) in
  len fs = (len (replicate 45 7) + BytesPerFrame DefaultConfig - 1)
             `div` BytesPerFrame DefaultConfig /\
  len fs <= 255 /\
  FIndex <$> fs = seqZ 0 (len fs) /\
  Forall (fun f => Total f = len fs /\ len (Payload f) <= BytesPerFrame DefaultConfig) fs /\
  mjoin (Payload <$> fs) = replicate 45 7.
Proof.
  apply (Encode_covers DefaultConfig (replicate 45 7)).
  - reflexivity.
  - reflexivity.
  - reflexivity.
  - vm_compute. discriminate.
Defined.

(** X5. Under a configuration with 1 to 8 bits per dot, every frame
    [Encode] returns has exactly [TotalDots] dots, each with a value below
    [2 ^ BitsPerDot]. *)
Theorem Encode_dots (c : Config) (data : list Z) (f : Frame) :
  1 <= BitsPerDot c <= 8 ->
  f ∈ Encode (NewEncoder c) data ->
  len (Dots f) = TotalDots c /\
  Forall (fun dot => 0 <= Value dot < 2 ^ BitsPerDot c) (Dots f).
Proof.
  intros Hbpd Hf. unfold Encode in Hf. change (config (NewEncoder c)) with c in Hf.
  destruct (Z.leb_spec (BytesPerFrame c) 0) as [|Hbpf]; [by apply elem_of_nil in Hf|].
  apply list_elem_of_fmap in Hf as (i & -> & Hi). cbn [Dots].
  apply (bytesToDots_dots c Hbpd).
  pose proof (TotalDots_nonneg c) as HN.
  assert (H0 : 0 <= BitsPerFrame c) by (unfold BitsPerFrame; nia).
  assert (Htb : BitsPerFrame c <= 8 * ((BitsPerFrame c + 7) ÷ 8)).
  { rewrite Z.quot_div_nonneg by lia.
    pose proof (Z.div_mod (BitsPerFrame c + 7) 8 ltac:(lia)).
    pose proof (Z.mod_pos_bound (BitsPerFrame c + 7) 8 ltac:(lia)). lia. }
  match goal with |- context [if len ?l <? ?tb then _ else _] =>
    set (fb := l); destruct (Z.ltb_spec (len fb) tb) as [Hlt|Hge] end.
  - unfold len in *. rewrite length_app, length_replicate. lia.
  - lia.
Qed.

(** The one frame of the payload "hi" under the default configuration. *)
Lemma Encode_dots_example :
  len (Dots (encodedAt DefaultConfig [104; 105] 0)) = TotalDots DefaultConfig /\
  Forall (fun dot => 0 <= Value dot < 2 ^ BitsPerDot DefaultConfig)
         (Dots (encodedAt DefaultConfig [104; 105] 0)).
Proof.
  apply (Encode_dots DefaultConfig [104; 105] (encodedAt DefaultConfig [104; 105] 0)).
  - simpl. lia.
  - change (Encode (NewEncoder DefaultConfig) [104; 105])
      with [encodedAt DefaultConfig [104; 105] 0].
    apply list_elem_of_here.
Defined.

(** X6. Round trip under any configuration with 1 to 8 bits per dot and a
    positive frame capacity: for a payload of at most 255 frames, feeding
    the decoder the frames [Encode] returns, in any order and with any
    repetitions, and then calling [Data] returns the payload followed by
    zero padding only. *)
Theorem roundtrip_any_order (c : Config) (data : list Z) (fs : list Frame) :
  1 <= BitsPerDot c <= 8 -> 0 < BytesPerFrame c ->
  Forall (fun b => 0 <= b < 256) data -> len data <= 255 * BytesPerFrame c ->
  (forall f, f ∈ fs <-> f ∈ Encode (NewEncoder c) data) ->
  exists pad : nat, Data (feed (NewDecoder c) fs) = inl (data ++ replicate pad 0).
Proof.
  intros Hbpd Hbpf Hbytes Hlen Hfs.
  destruct (framesOf_bounds c data Hbpf Hlen) as (HT & Hup & Hlow).
  destruct (frames_indices c data Hbpf fs) as (l & -> & Hl); [intros f; apply Hfs|].
  assert (Hcover : forall j, 0 <= j < framesOf c data -> j ∈ l).
  { intros j Hj. apply (encodedAt_elem c data), Hfs.
    rewrite (Encode_encodedAt c data Hbpf). apply list_elem_of_fmap.
    exists j. split; [done|]. apply elem_of_seqZ. lia. }
  destruct (feed_indices c data Hbpd Hbpf Hbytes l Hl ltac:(lia)) as (Hc & Hr & Ht & Hf).
  set (d := feed _ _) in *.
  assert (Hsize : size (frames d) = Z.to_nat (framesOf c data)).
  { apply size_full. intros j. rewrite Hf. split.
    - destruct (decide (j ∈ l)) as [Hj|Hj].
      + intros _. apply (proj1 (Forall_forall _ _) Hl j Hj).
      + rewrite bool_decide_eq_false_2 by done. by intros [? ?].
    - intros Hj. rewrite bool_decide_eq_true_2 by auto. eauto. }
  destruct (decide (l = [])) as [El|Hne].
  - exists 0%nat. subst l. assert (framesOf c data = 0).
    { destruct (Z.eq_dec (framesOf c data) 0) as [|Hne]; [done|].
      specialize (Hcover 0 ltac:(lia)). by apply elem_of_nil in Hcover. }
    assert (data = []) by (destruct data; [done|unfold len in *; simpl in *; lia]).
    subst data. reflexivity.
  - exists (Z.to_nat (BytesPerFrame c) * Z.to_nat (framesOf c data) - length data)%nat.
    unfold Data. rewrite Hr, Ht, Hsize.
    assert (Hpos : 0 < framesOf c data).
    { destruct l as [|i l']; [done|]. inversion Hl; lia. }
    assert (Htt : (match l with [] => 0 | _ :: _ => framesOf c data end) = framesOf c data)
      by (by destruct l).
    rewrite Htt, Z2Nat.id, Z.ltb_irrefl by lia.
    destruct (Z.to_nat (framesOf c data)) as [|n] eqn:En; [lia|].
    rewrite (collect_present (frames d) (S n) 0 []).
    + rewrite app_nil_l.
      assert (Hst : (fun j => default [] (frames d !! j)) <$> seqZ 0 (Z.of_nat (S n))
                    = storedAt c data <$> seqZ 0 (Z.of_nat (S n))).
      { apply list_fmap_ext. intros k j Hj. apply lookup_seqZ in Hj as [-> Hk].
        rewrite Hf, bool_decide_eq_true_2 by (apply Hcover; lia). done. }
      rewrite Hst. change 0 with (Z.of_nat 0) at 1.
      assert (Hn : Z.of_nat (S n) = framesOf c data) by lia.
      rewrite <- Hn in Hup, Hlow.
      rewrite (join_storedAt c data Hbpf n 0) by (unfold len in *; nia).
      rewrite Nat.mul_0_r, drop_0. do 2 f_equal.
    + intros j Hj. rewrite Hf, bool_decide_eq_true_2 by (apply Hcover; lia). eauto.
Qed.

(** The three frames of a 45-byte payload in the order 2, 0, 1, 0. *)
Lemma roundtrip_any_order_example :
  exists pad : nat,
    Data (feed (NewDecoder DefaultConfig)
            (encodedAt DefaultConfig (replicate 45 7) <$> [2; 0; 1; 0]))
    = inl (replicate 45 7 ++ replicate pad 0).
Proof.
  apply (roundtrip_any_order DefaultConfig (replicate 45 7)).
  - simpl. lia.
  - reflexivity.
  - apply Forall_replicate. lia.
  - vm_compute. discriminate.
  - intros f.
    change (Encode (NewEncoder DefaultConfig) (replicate 45 7))
      with (encodedAt DefaultConfig (replicate 45 7) <$> [0; 1; 2]).
    rewrite !list_elem_of_fmap. split; intros (i & -> & Hi); exists i; split; try done;
      apply list_elem_of_In in Hi; apply list_elem_of_In; simpl in *; tauto.
Defined.

(** X7. While a frame is missing the decoder does not give data out: after
    any non-empty sequence of frames of the payload that leaves out at
    least one of them, [Data] fails with [ErrIncompleteData]. (A decoder
    that was fed nothing has total 0 and returns empty data.) *)
Theorem Data_before_complete (c : Config) (data : list Z) (fs : list Frame) :
  1 <= BitsPerDot c <= 8 -> 0 < BytesPerFrame c ->
  Forall (fun b => 0 <= b < 256) data -> len data <= 255 * BytesPerFrame c ->
  fs <> [] ->
  (forall f, f ∈ fs -> f ∈ Encode (NewEncoder c) data) ->
  (exists f, f ∈ Encode (NewEncoder c) data /\ f ∉ fs) ->
  Data (feed (NewDecoder c) fs) = inr ErrIncompleteData /\
  Data (NewDecoder c) = inl [].
Proof.
  intros Hbpd Hbpf Hbytes Hlen Hne Hfs (f0 & Hf0 & Hnot). split; [|reflexivity].
  destruct (framesOf_bounds c data Hbpf Hlen) as (HT & Hup & Hlow).
  destruct (frames_indices c data Hbpf fs Hfs) as (l & -> & Hl).
  rewrite (Encode_encodedAt c data Hbpf) in Hf0.
  apply list_elem_of_fmap in Hf0 as (j0 & -> & Hj0). apply elem_of_seqZ in Hj0.
  rewrite (encodedAt_elem c data) in Hnot.
  destruct (feed_indices c data Hbpd Hbpf Hbytes l Hl ltac:(lia)) as (Hc & Hr & Ht & Hf).
  set (d := feed _ _) in *.
  assert (Htt : total d = framesOf c data) by (rewrite Ht; by destruct l).
  unfold Data. destruct (received d <? total d); [done|].
  apply (collect_missing _ _ _ _ j0); [lia|].
  rewrite Hf, bool_decide_eq_false_2 by done. done.
Qed.

(** The first two of the three frames of a 45-byte payload. *)
Lemma Data_before_complete_example :
  Data (feed (NewDecoder DefaultConfig)
          (encodedAt DefaultConfig (replicate 45 7) <$> [1; 0]))
  = inr ErrIncompleteData /\
  Data (NewDecoder DefaultConfig) = inl [].
Proof.
  apply (Data_before_complete DefaultConfig (replicate 45 7)).
  - simpl. lia.
  - reflexivity.
  - apply Forall_replicate. lia.
  - vm_compute. discriminate.
  - discriminate.
  - intros f.
    change (Encode (NewEncoder DefaultConfig) (replicate 45 7))
      with (encodedAt DefaultConfig (replicate 45 7) <$> [0; 1; 2]).
    rewrite !list_elem_of_fmap. intros (i & -> & Hi). exists i. split; [done|].
    apply list_elem_of_In in Hi. apply list_elem_of_In. simpl in *. tauto.
  - exists (encodedAt DefaultConfig (replicate 45 7) 2). split.
    + change (Encode (NewEncoder DefaultConfig) (replicate 45 7))
        with (encodedAt DefaultConfig (replicate 45 7) <$> [0; 1; 2]).
      apply list_elem_of_fmap. exists 2. split; [done|].
      apply list_elem_of_In. simpl. tauto.
    + intros H. apply list_elem_of_fmap in H as (i & E & Hi).
      apply (f_equal FIndex) in E. simpl in E. subst i.
      apply list_elem_of_In in Hi. simpl in Hi. lia.
Defined.

End GoExtras.

(** ** What the Go decoder keeps true *)

Section GoInvariant.
Import Go Aux.

Lemma dotsToBytes_byte (d : Decoder) (dots : list Dot) (k : Z) :
  0 <= idx (dotsToBytes d dots) k < 256.
Proof.
  unfold idx, dotsToBytes. cbv zeta. rewrite list_lookup_fmap.
  destruct (seqZ 0 _ !! Z.to_nat k) as [i|]; [|simpl; lia].
  cbv [fmap option_fmap option_map default]. change (seqZ 0 8) with [0; 1; 2; 3; 4; 5; 6; 7].
  cbn [fold_left]. unfold uint8 at 1. apply Z.mod_pos_bound. lia.
Qed.

Lemma size_bound (m : gmap Z (list Z)) :
  (forall j, is_Some (m !! j) -> 0 <= j < 256) -> (size m <= 256)%nat.
Proof.
  intros Hm. rewrite <- size_dom.
  assert (Hsub : dom m ⊆ (list_to_set (seqZ 0 256) : gset Z)).
  { intros j Hj. apply elem_of_dom in Hj. apply elem_of_list_to_set, elem_of_seqZ.
    specialize (Hm j Hj). lia. }
  apply subseteq_size in Hsub.
  rewrite size_list_to_set in Hsub by apply NoDup_seqZ.
  by rewrite length_seqZ in Hsub.
Qed.

(** X8. The Go decoder keeps its count honest: for a fresh decoder, and
    after any [AddFrame] or [Reset] on a decoder for which it holds, the
    received count is the number of distinct frame indices stored, all
    stored indices and the total are bytes, and so at most 256 frames are
    ever counted. *)
Theorem Decoder_consistent (c : Config) (d : Decoder) (dots : list Dot) :
  consistent (NewDecoder c) /\
  (consistent d ->
   consistent (AddFrame d dots).1 /\ consistent (Reset d) /\ 0 <= received d <= 256).
Proof.
  split; [|intros (Hr & Hk & Ht); split; [|split]].
  - unfold consistent. simpl. split; [done|]. split; [|lia].
    intros j [x Hx]. by rewrite lookup_empty in Hx.
  - unfold AddFrame.
    destruct (len dots =? 0); [done|].
    destruct (len (dotsToBytes d dots) <? 2); [done|].
    destruct (Z.eqb_spec (idx (dotsToBytes d dots) 1) 0); [done|].
    pose proof (dotsToBytes_byte d dots 0) as H0.
    pose proof (dotsToBytes_byte d dots 1) as H1.
    cbn [frames total received dconfig].
    destruct (frames d !! idx (dotsToBytes d dots) 0) as [p|] eqn:Hp;
      unfold consistent; cbn [frames total received dconfig fst].
    + done.
    + split; [rewrite map_size_insert_None by done; lia|]. split; [|done].
      intros j Hj. destruct (decide (j = idx (dotsToBytes d dots) 0)) as [->|Hne]; [done|].
      rewrite lookup_insert_ne in Hj by done. by apply Hk.
  - unfold consistent. simpl. split; [done|]. split; [|lia].
    intros j [x Hx]. by rewrite lookup_empty in Hx.
  - pose proof (size_bound _ Hk). lia.
Qed.

End GoInvariant.

(** ** Progress of the Go decoder *)

Section GoProgress.
Import Go Aux.

(** For every total up to 255: [k / T] in binary64 lies in [0, 1], is above
    0 when [k] is, and is [1.0] for [k = T] only. *)
Lemma ratio_table :
  forallb (fun T =>
    forallb (fun k =>
      let q := F64.div (F64.ofZ k) (F64.ofZ T) in
      Bool.eqb (F64.eqb q (F64.ofZ 1)) (k =? T)
      && F64.leb q (F64.ofZ 1)
      && Bool.eqb (F64.ltb (F64.ofZ 0) q) (0 <? k))
      (seqZ 0 (T + 1)))
    (seqZ 1 255) = true.
Proof. vm_compute. reflexivity. Qed.

Lemma ratio_spec (k T : Z) :
  0 <= k <= T -> 1 <= T <= 255 ->
  let q := F64.div (F64.ofZ k) (F64.ofZ T) in
  F64.eqb q (F64.ofZ 1) = (k =? T) /\
  F64.leb q (F64.ofZ 1) = true /\
  F64.ltb (F64.ofZ 0) q = (0 <? k).
Proof.
  intros Hk HT. pose proof ratio_table as Hall.
  rewrite forallb_forall in Hall.
  specialize (Hall T). rewrite forallb_forall in Hall.
  specialize (Hall ltac:(apply list_elem_of_In, elem_of_seqZ; lia) k
                   ltac:(apply list_elem_of_In, elem_of_seqZ; lia)).
  cbv zeta in *.
  apply andb_prop in Hall as [Hall H3]. apply andb_prop in Hall as [H1 H2].
  apply Bool.eqb_prop in H1, H3. done.
Qed.

Lemma size_le (m : gmap Z (list Z)) (T : Z) :
  (forall j, is_Some (m !! j) -> 0 <= j < T) -> (size m <= Z.to_nat T)%nat.
Proof.
  intros Hm. rewrite <- size_dom.
  assert (Hsub : dom m ⊆ (list_to_set (seqZ 0 T) : gset Z)).
  { intros j Hj. apply elem_of_dom in Hj. apply elem_of_list_to_set, elem_of_seqZ.
    specialize (Hm j Hj). lia. }
  apply subseteq_size in Hsub.
  rewrite size_list_to_set in Hsub by apply NoDup_seqZ.
  by rewrite length_seqZ in Hsub.
Qed.

(** X9. [Progress] tells when the transfer is done: after any non-empty
    sequence of frames of a payload, the progress is above 0 and at most
    1.0, and it equals 1.0 exactly when every frame of the payload has been
    fed. A fresh or reset decoder has progress 0. *)
Theorem Progress_complete (c : Config) (data : list Z) (fs : list Frame) :
  1 <= BitsPerDot c <= 8 -> 0 < BytesPerFrame c ->
  Forall (fun b => 0 <= b < 256) data -> len data <= 255 * BytesPerFrame c ->
  fs <> [] ->
  (forall f, f ∈ fs -> f ∈ Encode (NewEncoder c) data) ->
  let p := Progress (feed (NewDecoder c) fs) in
  (F64.eqb p (F64.ofZ 1) = true <-> forall f, f ∈ Encode (NewEncoder c) data -> f ∈ fs) /\
  F64.leb p (F64.ofZ 1) = true /\
  F64.ltb (F64.ofZ 0) p = true /\
  Progress (NewDecoder c) = F64.ofZ 0 /\
  Progress (Reset (feed (NewDecoder c) fs)) = F64.ofZ 0.
Proof.
  intros Hbpd Hbpf Hbytes Hlen Hne Hfs.
  destruct (framesOf_bounds c data Hbpf Hlen) as (HT & Hup & Hlow).
  destruct (frames_indices c data Hbpf fs Hfs) as (l & -> & Hl).
  destruct (feed_indices c data Hbpd Hbpf Hbytes l Hl ltac:(lia)) as (Hc & Hr & Ht & Hf).
  cbv zeta. set (d := feed _ _) in *.
  destruct (decide (l = [])) as [El|Hl0]; [by subst l|].
  assert (Hex : exists i0, i0 ∈ l) by (destruct l as [|i0 ?]; [done|exists i0; by left]).
  destruct Hex as (i0 & Hin0).
  assert (Htt : total d = framesOf c data) by (rewrite Ht; by destruct l).
  assert (Hkeys : forall j, is_Some (frames d !! j) -> 0 <= j < framesOf c data).
  { intros j. rewrite Hf. destruct (decide (j ∈ l)) as [Hj|Hj].
    - intros _. apply (proj1 (Forall_forall _ _) Hl j Hj).
    - rewrite bool_decide_eq_false_2 by done. by intros [? ?]. }
  assert (Hi0 : 0 <= i0 < framesOf c data) by (apply (proj1 (Forall_forall _ _) Hl i0 Hin0)).
  assert (Hpos : (0 < size (frames d))%nat).
  { destruct (size (frames d)) eqn:Es; [|lia].
    apply map_size_empty_iff in Es. specialize (Hf i0).
    rewrite Es, lookup_empty, bool_decide_eq_true_2 in Hf by done. done. }
  pose proof (size_le (frames d) (framesOf c data) Hkeys) as Hle.
  unfold Progress. rewrite Htt.
  destruct (Z.eqb_spec (framesOf c data) 0) as [|_]; [lia|].
  destruct (ratio_spec (received d) (framesOf c data) ltac:(lia) ltac:(lia)) as (H1 & H2 & H3).
  rewrite H1, H2, H3. split; [|split; [done|split; [|done]]].
  - rewrite Z.eqb_eq. split.
    + intros Hfull f Hfin. rewrite (Encode_encodedAt c data Hbpf) in Hfin.
      apply list_elem_of_fmap in Hfin as (j & -> & Hj). apply elem_of_seqZ in Hj.
      apply (encodedAt_elem c data).
      destruct (decide (j ∈ l)) as [|Hnot]; [done|].
      pose proof (size_partial (frames d) (framesOf c data) j Hkeys ltac:(lia)) as Hs.
      rewrite Hf, bool_decide_eq_false_2 in Hs by done. specialize (Hs eq_refl). lia.
    + intros Hall.
      rewrite Hr, (size_full (frames d) (framesOf c data)); [lia|].
      intros j. split; [apply Hkeys|]. intros Hj.
      rewrite Hf, bool_decide_eq_true_2; [eauto|].
      apply (encodedAt_elem c data), Hall.
      rewrite (Encode_encodedAt c data Hbpf). apply list_elem_of_fmap.
      exists j. split; [done|]. apply elem_of_seqZ. lia.
  - apply Z.ltb_lt. lia.
Qed.

(** Two of the three frames of a 45-byte payload, one of them twice. *)
Lemma Progress_complete_example :
  let fs := encodedAt DefaultConfig (replicate 45 7) <$> [1; 0; 1] in
  let p := Progress (feed (NewDecoder DefaultConfig) fs) in
  (F64.eqb p (F64.ofZ 1) = true
   <-> forall f, f ∈ Encode (NewEncoder DefaultConfig) (replicate 45 7) -> f ∈ fs) /\
  F64.leb p (F64.ofZ 1) = true /\
  F64.ltb (F64.ofZ 0) p = true /\
  Progress (NewDecoder DefaultConfig) = F64.ofZ 0 /\
  Progress (Reset (feed (NewDecoder DefaultConfig) fs)) = F64.ofZ 0.
Proof.
  apply (Progress_complete DefaultConfig (replicate 45 7)).
  - simpl. lia.
  - reflexivity.
  - apply Forall_replicate. lia.
  - vm_compute. discriminate.
  - discriminate.
  - intros f.
    change (Encode (NewEncoder DefaultConfig) (replicate 45 7))
      with (encodedAt DefaultConfig (replicate 45 7) <$> [0; 1; 2]).
    rewrite !list_elem_of_fmap. intros (i & -> & Hi). exists i. split; [done|].
    apply list_elem_of_In in Hi. apply list_elem_of_In. simpl in *. tauto.
Defined.

End GoProgress.

(** ** Colours as CSS strings *)

Section GoHex.
Import Go.

Lemma hexDigit_inj (i j : Z) :
  0 <= i < 16 -> 0 <= j < 16 -> hexDigit i = hexDigit j -> i = j.
Proof.
  intros Hi Hj.
  assert (Ei : i ∈ seqZ 0 16) by (apply elem_of_seqZ; lia).
  assert (Ej : j ∈ seqZ 0 16) by (apply elem_of_seqZ; lia).
  apply list_elem_of_In in Ei, Ej. simpl in Ei, Ej.
  repeat (destruct Ei as [<-|Ei]; [|]);
    try (repeat (destruct Ej as [<-|Ej]; [|]); try done; try (by (vm_compute; discriminate))).
Qed.

Lemma nibbles (b : Z) :
  0 <= b < 256 -> 0 <= b ≫ 4 < 16 /\ 0 <= Z.land b 0x0f < 16 /\ b = 16 * (b ≫ 4) + Z.land b 0x0f.
Proof.
  intros Hb. rewrite Z.shiftr_div_pow2 by lia.
  assert (E : Z.land b 0x0f = b mod 2 ^ 4) by (apply (Z.land_ones b 4); lia).
  rewrite E. change (2 ^ 4) with 16.
  pose proof (Z.div_mod b 16 ltac:(lia)). pose proof (Z.mod_pos_bound b 16 ltac:(lia)).
  assert (0 <= b `div` 16) by (apply Z.div_pos; lia).
  assert (b `div` 16 < 16) by (apply Z.div_lt_upper_bound; lia).
  lia.
Qed.

Lemma hexByte_inj (a b : Z) :
  0 <= a < 256 -> 0 <= b < 256 -> hexByte a = hexByte b -> a = b.
Proof.
  intros Ha Hb E. unfold hexByte in E. injection E as E1 E2.
  destruct (nibbles a Ha) as (? & ? & Ea). destruct (nibbles b Hb) as (? & ? & Eb).
  apply hexDigit_inj in E1; [|done..]. apply hexDigit_inj in E2; [|done..]. lia.
Qed.

(** X10. [Hex] writes a colour as a number sign and six characters, two per
    channel in the order red, green, blue, and colours that differ in a
    channel get different strings. *)
Theorem Hex_injective (c1 c2 : Color) :
  String.length (Hex c1) = 7%nat /\
  (0 <= R c1 < 256 /\ 0 <= G c1 < 256 /\ 0 <= B c1 < 256 ->
   0 <= R c2 < 256 /\ 0 <= G c2 < 256 /\ 0 <= B c2 < 256 ->
   Hex c1 = Hex c2 -> c1 = c2).
Proof.
  split; [reflexivity|].
  intros (HR1 & HG1 & HB1) (HR2 & HG2 & HB2) E.
  destruct c1 as [r1 g1 b1], c2 as [r2 g2 b2]. simpl in *.
  unfold Hex, hexByte in E. simpl in E.
  injection E as E1 E2 E3 E4 E5 E6.
  f_equal.
  - apply hexByte_inj; [done..|]. unfold hexByte. by rewrite E1, E2.
  - apply hexByte_inj; [done..|]. unfold hexByte. by rewrite E3, E4.
  - apply hexByte_inj; [done..|]. unfold hexByte. by rewrite E5, E6.
Qed.

End GoHex.

(** * The scanner reads what the Go encoder writes *)

Section Bridge.
Import Go Aux.

Lemma land_1_testbit (a : Z) : Z.land a 1 = Z.b2z (Z.testbit a 0).
Proof.
  assert (E : Z.land a 1 = a mod 2) by (apply (Z.land_ones a 1); lia).
  rewrite E. symmetry. apply Z.bit0_mod.
Qed.

(** Masking a dot value with [0x07] keeps its three low bits. *)
Lemma mask_bit (v k : Z) : 0 <= k < 3 -> Z.land (Z.land v 0x07 ≫ k) 1 = Z.land (v ≫ k) 1.
Proof.
  intros Hk. rewrite !land_1_testbit. f_equal.
  rewrite (Z.shiftr_spec (Z.land v 7) k 0), (Z.shiftr_spec v k 0), Z.land_spec by lia.
  assert (Hc : k = 0 \/ k = 1 \/ k = 2) by lia.
  destruct Hc as [-> | [-> | ->]]; simpl; apply andb_true_r.
Qed.

Lemma scanner_bits (dots : list Dot) :
  ((Value <$> dots) ≫= fun v =>
     let val := Z.land v 0x07 in
     [Z.land (val ≫ 2) 1; Z.land (val ≫ 1) 1; Z.land val 1])
  = dots ≫= fun dot => (fun b => Z.land (Value dot ≫ b) 1) <$> reverse (seqZ 0 3).
Proof.
  induction dots as [|dot dots IH]; [done|].
  rewrite fmap_cons, !bind_cons, IH. f_equal.
  change (reverse (seqZ 0 3)) with [2; 1; 0]. cbv zeta.
  change (Z.land (Z.land (Value dot) 7) 1) with (Z.land (Z.land (Value dot) 7 ≫ 0) 1).
  rewrite !mask_bit by lia. reflexivity.
Qed.

Lemma bits_of_dots (bpd : Z) (dots : list Dot) :
  Forall bit (dots ≫= fun dot => (fun b => Z.land (Value dot ≫ b) 1) <$> reverse (seqZ 0 bpd)).
Proof.
  induction dots as [|dot dots IH]; [constructor|].
  rewrite bind_cons. apply Forall_app. split; [|done].
  apply Forall_fmap, Forall_forall. intros b _. apply land_1_bit.
Qed.

(** Eight bits never overflow a byte, so Go's conversion to [uint8] in the
    packing loop changes nothing. *)
Lemma pack_no_wrap (bs : list Z) :
  Forall bit bs -> (length bs <= 8)%nat ->
  fold_left (fun byte x => Z.lor (byte ≪ 1) x) bs 0
  = fold_left (fun value x => uint8 (Z.lor (value ≪ 1) x)) bs 0.
Proof.
  induction bs as [|x bs IH] using rev_ind; intros Hbits Hlen; [done|].
  apply Forall_app in Hbits as [Hbs Hx]. apply (proj1 (Forall_singleton _ _)) in Hx.
  rewrite length_app in Hlen. simpl length in Hlen.
  rewrite !fold_left_app. simpl fold_left. rewrite IH by (done || lia). clear IH.
  destruct (pack_bits bs Hbs ltac:(lia)) as [Hv _]. cbv zeta in Hv.
  set (v := fold_left _ bs 0) in *.
  rewrite lor_shift_bit by (done || lia).
  assert (H128 : 2 ^ Z.of_nat (length bs) <= 128).
  { change 128 with (2 ^ 7). apply Z.pow_le_mono_r; lia. }
  unfold uint8. rewrite Z.mod_small; [done|]. destruct Hx as [-> | ->]; lia.
Qed.

Lemma idx_bit (bits : list Z) (k : Z) : Forall bit bits -> bit (idx bits k).
Proof.
  intros Hb. unfold idx. destruct (bits !! Z.to_nat k) as [x|] eqn:E; simpl.
  - eapply (proj1 (Forall_lookup _ _) Hb); eassumption.
  - by left.
Qed.

(** The scanner's [_dotsToBytes] reads the bytes Go's [dotsToBytes] reads
    with three bits per dot. *)
Lemma scanner_dotsToBytes (d : Decoder) (dots : list Dot) :
  BitsPerDot (dconfig d) = 3 ->
  Scanner._dotsToBytes (Value <$> dots) = dotsToBytes d dots.
Proof.
  intros Hbpd. unfold Scanner._dotsToBytes, dotsToBytes. cbv zeta. rewrite Hbpd.
  rewrite scanner_bits.
  set (bits := dots ≫= _).
  assert (Hbits : Forall bit bits) by apply bits_of_dots.
  unfold len. rewrite Z.quot_div_nonneg by lia.
  apply list_fmap_ext. intros n k Hk.
  rewrite <- (fold_left_fmap (fun byte x => Z.lor (byte ≪ 1) x)
                (fun bi => Scanner.at0 bits (8 * k + bi)) (seqZ 0 8) 0).
  rewrite <- (fold_left_fmap (fun value x => uint8 (Z.lor (value ≪ 1) x))
                (fun j => idx bits (k * 8 + j)) (seqZ 0 8) 0).
  rewrite pack_no_wrap.
  - f_equal. apply list_fmap_ext. intros ? j _. unfold Scanner.at0, idx. do 3 f_equal. lia.
  - apply Forall_fmap, Forall_forall. intros j _. by apply idx_bit.
  - by rewrite length_fmap, length_seqZ.
Qed.

End Bridge.

Section ScannerCapture.
Import Go Aux.

Variable c : Config.
Variable data : list Z.
Hypothesis bpd3 : BitsPerDot c = 3.
Hypothesis bpf_pos : 0 < BytesPerFrame c.
Hypothesis data_bytes : Forall byte data.

(** What the scanner reads off the dots of frame [i]: the header and the
    padded payload. *)
Lemma dotsToBytes_captureAt (i : Z) :
  0 <= i < framesOf c data -> framesOf c data <= 255 ->
  Scanner._dotsToBytes (captureAt c data i) = i :: framesOf c data :: storedAt c data i.
Proof.
  intros Hi HT. unfold captureAt.
  rewrite (scanner_dotsToBytes (NewDecoder c)) by done. cbn [Dots encodedAt].
  destruct (paddedAt_spec c data ltac:(lia) bpf_pos data_bytes i ltac:(lia) ltac:(lia))
    as (Hbytes & Hbits & Htake).
  rewrite <- Htake. apply dotsToBytes_bytesToDots_gen; [lia|done|done|done].
Qed.

Lemma captureAt_values (i : Z) :
  0 <= i < framesOf c data -> framesOf c data <= 255 ->
  Forall (fun v => 0 <= v < 8) (captureAt c data i).
Proof.
  intros Hi HT. unfold captureAt. cbn [Dots encodedAt].
  destruct (paddedAt_spec c data ltac:(lia) bpf_pos data_bytes i ltac:(lia) ltac:(lia))
    as (Hbytes & Hbits & Htake).
  destruct (bytesToDots_dots c ltac:(lia) _ Hbits) as [_ Hv].
  rewrite bpd3 in Hv. by apply Forall_fmap.
Qed.

End ScannerCapture.

Section Unanimous.
Import Scanner.

Lemma filter_replicate {A} (P : A -> Prop) `{forall x, Decision (P x)} (n : nat) (x : A) :
  filter P (replicate n x) = if decide (P x) then replicate n x else [].
Proof.
  induction n as [|n IH]; simpl; [by destruct (decide (P x))|].
  rewrite filter_cons, IH. by destruct (decide (P x)).
Qed.

(** Captures that all agree vote for what they hold. *)
Lemma majorityVote_unanimous (n : nat) (cap : list Z) :
  (0 < n)%nat -> Forall (fun v => 0 <= v < 8) cap ->
  _majorityVote (replicate n cap) = cap.
Proof.
  intros Hn Hrange. destruct n as [|n]; [lia|].
  set (captures := replicate (S n) cap).
  assert (Ecap : captures = cap :: replicate n cap) by done.
  unfold _majorityVote. rewrite Ecap at 1.
  apply list_eq. intros d.
  destruct (cap !! d) as [m|] eqn:Hm.
  2: { apply lookup_ge_None_2. apply lookup_ge_None_1 in Hm.
       rewrite length_fmap, length_seqZ. lia. }
  assert (Hd : (d < length cap)%nat) by (apply lookup_lt_is_Some; eauto).
  rewrite list_lookup_fmap, lookup_seqZ_lt by lia.
  cbv [fmap option_fmap option_map]. f_equal. rewrite Z.add_0_l.
  assert (Hmr : 0 <= m < 8) by (eapply (proj1 (Forall_lookup _ _) Hrange); eassumption).
  assert (Hmask : Z.land (at0 cap (Z.of_nat d)) 7 = m).
  { unfold at0. rewrite Nat2Z.id, Hm. simpl.
    change 7 with (Z.ones 3). rewrite Z.land_ones by lia. apply Z.mod_small. lia. }
  set (counts := fold_left _ captures (replicate 8 0)).
  assert (Hcounts : forall v, 0 <= v < 8 ->
    at0 counts v = if decide (m = v) then Z.of_nat (S n) else 0).
  { intros v Hv. unfold counts. rewrite counts_spec by done.
    unfold at0 at 1. rewrite lookup_replicate_2 by lia.
    unfold captures. rewrite filter_replicate, Hmask.
    destruct (decide (m = v)); simpl; [rewrite length_replicate|]; lia. }
  apply best_spec; [done| |by apply Forall_seqZ; lia|lia|].
  - intros v Hv Hne. rewrite !Hcounts by done.
    rewrite (decide_True (P := m = m)) by done.
    rewrite (decide_False (P := m = v)) by (intros E; by apply Hne). lia.
  - destruct (decide (m = 0)) as [->|]; [by left|]. right. apply elem_of_seqZ. lia.
Qed.

End Unanimous.

Section ScannerNoiseless.
Import Go Aux.

Variable c : Config.
Variable data : list Z.
Hypothesis bpd3 : BitsPerDot c = 3.
Hypothesis bpf_pos : 0 < BytesPerFrame c.
Hypothesis data_bytes : Forall byte data.
Hypothesis total_range : 1 <= framesOf c data <= 200.

(** A clean capture of frame [i] passes the header checks. *)
Lemma addFrame_captureAt (s : Scanner.Decoder) (i : Z) :
  0 <= i < framesOf c data ->
  Scanner.addFrame s (captureAt c data i)
  = match Scanner.lock (Scanner.tally s (framesOf c data)) with
    | None => (Scanner.tally s (framesOf c data),
               {| Scanner.complete := false; Scanner.progress_ := F64.ofZ 0 |})
    | Some s =>
        if bool_decide (Some (framesOf c data) ≠ Scanner._totalFrames s) then
          (s, {| Scanner.complete := false; Scanner.progress_ := Scanner.progress s |})
        else Scanner.vote s i (captureAt c data i)
    end.
Proof.
  intros Hi. unfold Scanner.addFrame.
  rewrite (dotsToBytes_captureAt c data bpd3 bpf_pos data_bytes i Hi ltac:(lia)).
  cbv zeta.
  change (Scanner.at0 (i :: framesOf c data :: storedAt c data i) 0) with i.
  change (Scanner.at0 (i :: framesOf c data :: storedAt c data i) 1) with (framesOf c data).
  destruct (Z.ltb_spec (Z.of_nat (length (i :: framesOf c data :: storedAt c data i))) 2)
    as [Hlt|_]; [simpl length in Hlt; lia|].
  destruct (Z.eqb_spec (framesOf c data) 0) as [|_]; [lia|].
  destruct (Z.gtb_spec (framesOf c data) 200) as [|_]; [lia|].
  destruct (Z.geb_spec i (framesOf c data)) as [|_]; [lia|].
  reflexivity.
Qed.

Lemma occurrences_app (j i : Z) (l : list Z) :
  occurrences j (l ++ [i]) = occurrences j l + (if decide (i = j) then 1 else 0).
Proof.
  unfold occurrences. rewrite filter_app, length_app.
  rewrite (filter_cons _ i []). destruct (decide (i = j)); simpl; lia.
Qed.

Lemma occurrences_nonneg (j : Z) (l : list Z) : 0 <= occurrences j l.
Proof. unfold occurrences. lia. Qed.

(** While fewer than ten captures have been seen, they are only counted. *)
Lemma addFrame_settling (s : Scanner.Decoder) (i k : Z) :
  0 <= i < framesOf c data -> 0 <= k < 9 -> settling (framesOf c data) k s ->
  settling (framesOf c data) (k + 1) (Scanner.addFrame s (captureAt c data i)).1 /\
  Scanner.complete (Scanner.addFrame s (captureAt c data i)).2 = false.
Proof.
  intros Hi Hk (Hv & Hf & Ht & Hr & Hft & Hfc).
  rewrite addFrame_captureAt by done.
  unfold Scanner.lock. cbn [Scanner.tally Scanner._totalFrames Scanner._ftTotal].
  rewrite Ht, Hft.
  destruct (Z.ltb_spec (k + 1) Scanner.FT_SETTLE_MIN) as [_|Hge];
    [|unfold Scanner.FT_SETTLE_MIN in Hge; lia].
  split; [|done]. unfold settling. cbn. rewrite Hfc.
  do 4 (split; [done|]). split; [lia|].
  destruct (Z.eqb_spec (k + 1) 0) as [|_]; [lia|].
  destruct (Z.eqb_spec k 0) as [->|Hk0].
  - by rewrite lookup_empty, insert_empty.
  - rewrite lookup_singleton_eq. cbn. by rewrite insert_singleton_eq.
Qed.

(** The tenth capture locks the total and is the first to be voted on. *)
Lemma addFrame_locking (s : Scanner.Decoder) (i : Z) :
  0 <= i < framesOf c data -> settling (framesOf c data) 9 s ->
  exists s1, voting c data [] s1 /\
    Scanner.addFrame s (captureAt c data i) = Scanner.vote s1 i (captureAt c data i).
Proof.
  intros Hi (Hv & Hf & Ht & Hr & Hft & Hfc).
  rewrite addFrame_captureAt by done.
  unfold Scanner.lock. cbn [Scanner.tally Scanner._totalFrames Scanner._ftTotal
                            Scanner._ftCounts Scanner._votes Scanner._frames
                            Scanner._received].
  rewrite Ht, Hft, Hfc. change (9 =? 0) with false. cbv iota.
  rewrite lookup_singleton_eq. cbn [default]. rewrite insert_singleton_eq.
  change (9 + 1 <? Scanner.FT_SETTLE_MIN) with false. cbv iota.
  change (id 9 + 1) with 10. change (9 + 1) with 10.
  assert (Hp : Scanner.plurality {[framesOf c data := 10]} = (Some (framesOf c data), 10)).
  { unfold Scanner.plurality, Scanner.entries. rewrite map_to_list_singleton. reflexivity. }
  rewrite Hp.
  assert (Hb : Scanner.belowThirtyPercent 10 10 = false) by (vm_compute; reflexivity).
  rewrite Hb. cbn [Scanner._totalFrames].
  rewrite bool_decide_eq_false_2 by (intros E; by apply E).
  eexists. split; [|reflexivity].
  unfold voting. cbn. rewrite Hv, Hf, Hr. split; [done|]. split; [|split; [|done]].
  - intros j. by rewrite lookup_empty.
  - intros j. by rewrite lookup_empty.
Qed.

(** Voting on one more clean capture of frame [i]. *)
Lemma vote_captureAt (s : Scanner.Decoder) (l : list Z) (i : Z) :
  0 <= i < framesOf c data -> voting c data l s ->
  let r := Scanner.vote s i (captureAt c data i) in
  voting c data (l ++ [i]) r.1 /\
  Scanner.complete r.2 = bool_decide (framesOf c data <= Scanner._received r.1).
Proof.
  intros Hi (Ht & Hv & Hf & Hr). cbv zeta. unfold Scanner.vote. cbv zeta.
  cbn [Scanner._votes Scanner._frames Scanner._totalFrames Scanner._received
       Scanner._ftCounts Scanner._ftTotal].
  pose proof (occurrences_nonneg i l) as Hn0.
  set (n := occurrences i l) in *.
  assert (Hbucket : default [] (Scanner._votes s !! i) ++ [captureAt c data i]
                    = replicate (S (Z.to_nat n)) (captureAt c data i)).
  { rewrite Hv. fold n. destruct (Z.eqb_spec n 0) as [->|Hne]; [done|].
    cbn [default]. by rewrite replicate_S_end. }
  rewrite Hbucket, length_replicate.
  assert (Hocc : forall j, occurrences j (l ++ [i])
                           = occurrences j l + (if decide (i = j) then 1 else 0))
    by (intros j; apply occurrences_app).
  assert (Hvotes : forall j,
    <[i := replicate (S (Z.to_nat n)) (captureAt c data i)]> (Scanner._votes s) !! j
    = if occurrences j (l ++ [i]) =? 0 then None
      else Some (replicate (Z.to_nat (occurrences j (l ++ [i]))) (captureAt c data j))).
  { intros j. rewrite Hocc. destruct (decide (i = j)) as [<-|Hij].
    - rewrite lookup_insert_eq. fold n.
      destruct (Z.eqb_spec (n + 1) 0) as [|_]; [lia|].
      do 2 f_equal. lia.
    - rewrite lookup_insert_ne, Hv, Z.add_0_r by done. done. }
  destruct (Z.geb_spec (Z.of_nat (S (Z.to_nat n))) Scanner.MIN_VOTES) as [Hge|Hlt];
    unfold Scanner.MIN_VOTES in *.
  - rewrite majorityVote_unanimous
      by (lia || apply (captureAt_values c data bpd3 bpf_pos data_bytes i Hi); lia).
    rewrite (dotsToBytes_captureAt c data bpd3 bpf_pos data_bytes i Hi ltac:(lia)).
    cbn [lookup list_lookup]. rewrite Ht.
    rewrite (bool_decide_eq_false_2 (Some i ≠ Some i)) by (intros E; by apply E).
    rewrite (bool_decide_eq_false_2 (Some (framesOf c data) ≠ Some (framesOf c data)))
      by (intros E; by apply E).
    cbn [orb fst snd Scanner._votes Scanner._frames Scanner._totalFrames Scanner._received
         Scanner.complete default].
    change (drop 2 (i :: framesOf c data :: storedAt c data i)) with (storedAt c data i).
    split; [|done]. unfold voting.
    cbn [Scanner._votes Scanner._frames Scanner._totalFrames Scanner._received].
    split; [done|]. split; [done|]. split.
    + intros j. rewrite Hocc. destruct (decide (i = j)) as [<-|Hij].
      * rewrite lookup_insert_eq. fold n.
        destruct (Z.leb_spec 5 (n + 1)) as [_|]; [done|lia].
      * rewrite lookup_insert_ne, Hf, Z.add_0_r by done. done.
    + rewrite Hf. fold n. destruct (Z.leb_spec 5 n) as [H5|H5].
      * rewrite map_size_insert_Some; [done|]. rewrite Hf. fold n.
        destruct (Z.leb_spec 5 n); [eauto|lia].
      * rewrite map_size_insert_None; [lia|]. rewrite Hf. fold n.
        destruct (Z.leb_spec 5 n); [lia|done].
  - cbn [fst snd Scanner._votes Scanner._frames Scanner._totalFrames Scanner._received
         Scanner.complete]. rewrite Ht. cbn [default].
    split; [|done]. unfold voting.
    cbn [Scanner._votes Scanner._frames Scanner._totalFrames Scanner._received].
    split; [done|]. split; [done|]. split; [|done].
    intros j. rewrite Hocc, Hf. destruct (decide (i = j)) as [<-|Hij].
    + fold n. destruct (Z.leb_spec 5 n); [lia|]. destruct (Z.leb_spec 5 (n + 1)); [lia|done].
    + by rewrite Z.add_0_r.
Qed.

(** A clean capture in a decoder that has locked on the payload's total. *)
Lemma addFrame_voting (s : Scanner.Decoder) (l : list Z) (i : Z) :
  0 <= i < framesOf c data -> voting c data l s ->
  exists s1, voting c data l s1 /\
    Scanner.addFrame s (captureAt c data i) = Scanner.vote s1 i (captureAt c data i).
Proof.
  intros Hi (Ht & Hv & Hf & Hr).
  rewrite addFrame_captureAt by done.
  rewrite (lock_locked _ (framesOf c data)) by done.
  cbn [Scanner.tally Scanner._totalFrames]. rewrite Ht.
  rewrite bool_decide_eq_false_2 by (intros E; by apply E).
  eexists. split; [|reflexivity]. done.
Qed.

(** The decoder after any sequence of clean captures. *)
Lemma addFrames_clean (l : list Z) :
  Forall (fun i => 0 <= i < framesOf c data) l ->
  let s := Scanner.addFrames Scanner.newDecoder (captureAt c data <$> l) in
  if decide (length l <= 9)%nat then settling (framesOf c data) (len l) s
  else voting c data (drop 9 l) s.
Proof.
  intros Hl. induction l as [|i l IH] using rev_ind; cbv zeta.
  - rewrite decide_True by (simpl; lia). done.
  - apply Forall_app in Hl as [Hl Hi]. apply (proj1 (Forall_singleton _ _)) in Hi.
    specialize (IH Hl). cbv zeta in IH.
    unfold Scanner.addFrames in *. rewrite fmap_app, fold_left_app.
    change (captureAt c data <$> [i]) with [captureAt c data i]. cbn [fold_left].
    set (s := fold_left _ _ _) in *.
    rewrite length_app. simpl length.
    destruct (decide (length l <= 9)%nat) as [Hle|Hgt].
    + destruct (decide (length l + 1 <= 9)%nat) as [Hle'|Hgt'].
      * destruct (addFrame_settling s i (len l) Hi ltac:(unfold len; lia) IH) as [Hs _].
        unfold len in *. rewrite length_app. simpl length.
        replace (Z.of_nat (length l + 1)) with (Z.of_nat (length l) + 1) by lia. done.
      * assert (E9 : length l = 9%nat) by lia.
        unfold len in IH. rewrite E9 in IH. change (Z.of_nat 9) with 9 in IH.
        destruct (addFrame_locking s i Hi IH) as (s1 & Hs1 & ->).
        rewrite drop_app_le by lia. rewrite drop_ge by lia.
        apply (vote_captureAt s1 [] i Hi Hs1).
    + rewrite decide_False by lia.
      destruct (addFrame_voting s (drop 9 l) i Hi IH) as (s1 & Hs1 & ->).
      rewrite drop_app_le by lia.
      apply (vote_captureAt s1 (drop 9 l) i Hi Hs1).
Qed.

(** What the call on the last capture returns once the total is locked. *)
Lemma addFrame_clean_result (l : list Z) (i : Z) :
  Forall (fun i => 0 <= i < framesOf c data) l -> 0 <= i < framesOf c data ->
  (9 <= length l)%nat ->
  let r := Scanner.addFrame (Scanner.addFrames Scanner.newDecoder (captureAt c data <$> l))
                            (captureAt c data i) in
  Scanner.complete r.2 = bool_decide (framesOf c data <= Scanner._received r.1).
Proof.
  intros Hl Hi H9. pose proof (addFrames_clean l Hl) as Hs. cbv zeta in *.
  set (s := Scanner.addFrames _ _) in *.
  destruct (decide (length l <= 9)%nat) as [Hle|Hgt].
  - assert (E9 : length l = 9%nat) by lia.
    unfold len in Hs. rewrite E9 in Hs. change (Z.of_nat 9) with 9 in Hs.
    destruct (addFrame_locking s i Hi Hs) as (s1 & Hs1 & ->).
    apply (vote_captureAt s1 [] i Hi Hs1).
  - destruct (addFrame_voting s (drop 9 l) i Hi Hs) as (s1 & Hs1 & ->).
    apply (vote_captureAt s1 (drop 9 l) i Hi Hs1).
Qed.

Lemma occurrences_absent (j : Z) (l : list Z) : j ∉ l -> occurrences j l = 0.
Proof.
  intros Hj. unfold occurrences.
  assert (E : filter (fun i => i = j) l = []); [|by rewrite E].
  induction l as [|x l IH]; [done|].
  apply not_elem_of_cons in Hj as [Hne Hj].
  rewrite filter_cons, decide_False by (intros E; by apply Hne). by apply IH.
Qed.

(** The frames the decoder holds after any sequence of clean captures. *)
Lemma addFrames_clean_frames (l : list Z) :
  Forall (fun i => 0 <= i < framesOf c data) l ->
  let s := Scanner.addFrames Scanner.newDecoder (captureAt c data <$> l) in
  Scanner._received s = Z.of_nat (size (Scanner._frames s)) /\
  (forall j, Scanner._frames s !! j
             = if 5 <=? occurrences j (drop 9 l) then Some (storedAt c data j) else None) /\
  (forall j, is_Some (Scanner._frames s !! j) -> 0 <= j < framesOf c data).
Proof.
  intros Hl. pose proof (addFrames_clean l Hl) as Hs. cbv zeta in *.
  set (s := Scanner.addFrames _ _) in *.
  assert (Hfr : Scanner._received s = Z.of_nat (size (Scanner._frames s)) /\
    forall j, Scanner._frames s !! j
              = if 5 <=? occurrences j (drop 9 l) then Some (storedAt c data j) else None).
  { destruct (decide (length l <= 9)%nat) as [Hle|Hgt].
    - destruct Hs as (Hv & Hf & Ht & Hr & Hft & Hfc). rewrite Hf, Hr. split; [done|].
      intros j. rewrite drop_ge by lia. by rewrite lookup_empty.
    - destruct Hs as (Ht & Hv & Hf & Hr). done. }
  destruct Hfr as [Hr Hf]. split; [done|]. split; [done|].
  intros j. rewrite Hf. destruct (decide (j ∈ drop 9 l)) as [Hin|Hnin].
  - intros _. apply (proj1 (Forall_forall _ _) (Forall_drop _ 9 l Hl) j Hin).
  - rewrite occurrences_absent by done. by intros [? ?].
Qed.

End ScannerNoiseless.

Section ScannerExtras.
Import Go Aux.

Lemma omap_total {A B} (f : A -> option B) (g : A -> B) (l : list A) :
  (forall x, x ∈ l -> f x = Some (g x)) -> omap f l = g <$> l.
Proof.
  induction l as [|x l IH]; intros H; [done|].
  cbn [omap list_omap]. rewrite (H x) by (by left). cbn. f_equal.
  apply IH. intros y Hy. apply H. by right.
Qed.

Lemma clean_frames (c : Config) (data : list Z) (fs : list Frame) :
  0 < BytesPerFrame c -> 1 <= len data <= 200 * BytesPerFrame c ->
  (forall f, f ∈ fs -> f ∈ Encode (NewEncoder c) data) ->
  1 <= framesOf c data <= 200 /\
  len (Encode (NewEncoder c) data) = framesOf c data /\
  exists l, Forall (fun i => 0 <= i < framesOf c data) l /\
    (fun f => Value <$> Dots f) <$> fs = captureAt c data <$> l /\
    FIndex <$> drop 9 fs = drop 9 l.
Proof.
  intros Hbpf Hlen Hfs.
  destruct (framesOf_bounds c data Hbpf ltac:(lia)) as (HT & Hup & Hlow).
  assert (HT' : 1 <= framesOf c data <= 200) by nia.
  split; [done|]. split.
  { rewrite (Encode_encodedAt c data Hbpf). unfold len. rewrite length_fmap, length_seqZ. lia. }
  destruct (frames_indices c data Hbpf fs Hfs) as (l & -> & Hl).
  exists l. split; [done|]. split.
  - by rewrite <- list_fmap_compose.
  - rewrite <- fmap_drop, <- list_fmap_compose.
    rewrite <- (list_fmap_id (drop 9 l)) at 2. by apply list_fmap_ext.
Qed.

(** X11. What the scanner stores from clean captures of Go-encoded frames
    (three bits per dot, at most 200 frames): the first nine captures only
    settle the frame total and are not voted on; after them a frame is
    stored exactly when five captures of it have been seen, and what is
    stored is its payload padded with zeros to the frame size. The received
    count is the number of stored frames. *)
Theorem scanner_accepts (c : Config) (data : list Z) (fs : list Frame) :
  BitsPerDot c = 3 -> 0 < BytesPerFrame c ->
  Forall (fun b => 0 <= b < 256) data -> 1 <= len data <= 200 * BytesPerFrame c ->
  (forall f, f ∈ fs -> f ∈ Encode (NewEncoder c) data) ->
  let s := Scanner.addFrames Scanner.newDecoder ((fun f => Value <$> Dots f) <$> fs) in
  Scanner._received s = Z.of_nat (size (Scanner._frames s)) /\
  (forall f, f ∈ Encode (NewEncoder c) data ->
     Scanner._frames s !! FIndex f
     = if 5 <=? occurrences (FIndex f) (FIndex <$> drop 9 fs)
       then Some (Payload f
                  ++ replicate (Z.to_nat (BytesPerFrame c) - length (Payload f)) 0)
       else None) /\
  (forall j, is_Some (Scanner._frames s !! j) -> 0 <= j < len (Encode (NewEncoder c) data)).
Proof.
  intros Hbpd Hbpf Hbytes Hlen Hfs.
  destruct (clean_frames c data fs Hbpf Hlen Hfs) as (HT & HE & l & Hl & -> & ->).
  destruct (addFrames_clean_frames c data Hbpd Hbpf Hbytes HT l Hl) as (Hr & Hf & Hk).
  cbv zeta. split; [done|]. split; [|by rewrite HE].
  intros f Hin. rewrite (Encode_encodedAt c data Hbpf) in Hin.
  apply list_elem_of_fmap in Hin as (i & -> & Hi). cbn [FIndex Payload encodedAt].
  by rewrite Hf.
Qed.

(** X12. The scanner recovers what the Go encoder sent: once every frame of
    the payload has been captured cleanly five times after the first nine
    captures, the decoder has locked on the number of frames, has received
    them all, [reassemble] returns the payload followed by zero padding
    only, and the call on the last capture reports completion. *)
Theorem scanner_roundtrip (c : Config) (data : list Z) (fs : list Frame) :
  BitsPerDot c = 3 -> 0 < BytesPerFrame c ->
  Forall (fun b => 0 <= b < 256) data -> 1 <= len data <= 200 * BytesPerFrame c ->
  (forall f, f ∈ fs -> f ∈ Encode (NewEncoder c) data) ->
  (forall f, f ∈ Encode (NewEncoder c) data ->
     5 <= occurrences (FIndex f) (FIndex <$> drop 9 fs)) ->
  let captures := (fun f => Value <$> Dots f) <$> fs in
  let s := Scanner.addFrames Scanner.newDecoder captures in
  Scanner._totalFrames s = Some (len (Encode (NewEncoder c) data)) /\
  Scanner._received s = len (Encode (NewEncoder c) data) /\
  (exists pad : nat, Scanner.reassemble s = data ++ replicate pad 0) /\
  (forall before last, captures = before ++ [last] ->
     Scanner.complete (Scanner.addFrame (Scanner.addFrames Scanner.newDecoder before) last).2
     = true).
Proof.
  intros Hbpd Hbpf Hbytes Hlen Hfs Hfive.
  destruct (framesOf_bounds c data Hbpf ltac:(lia)) as (_ & Hup & Hlow).
  destruct (clean_frames c data fs Hbpf Hlen Hfs) as (HT & HE & l & Hl & Ecap & Edrop).
  cbv zeta. rewrite Ecap, HE. rewrite Edrop in Hfive.
  assert (Hall : forall j, 0 <= j < framesOf c data -> 5 <= occurrences j (drop 9 l)).
  { intros j Hj. apply (Hfive (encodedAt c data j)).
    rewrite (Encode_encodedAt c data Hbpf). apply list_elem_of_fmap.
    exists j. split; [done|]. apply elem_of_seqZ. lia. }
  assert (H9 : (9 < length l)%nat).
  { destruct (decide (9 < length l)%nat) as [|Hle]; [done|].
    specialize (Hall 0 ltac:(lia)). rewrite drop_ge in Hall by lia.
    unfold occurrences in Hall. simpl in Hall. lia. }
  pose proof (addFrames_clean c data Hbpd Hbpf Hbytes HT l Hl) as Hs.
  destruct (addFrames_clean_frames c data Hbpd Hbpf Hbytes HT l Hl) as (Hr & Hf & Hk).
  cbv zeta in *. set (s := Scanner.addFrames _ _) in *.
  rewrite decide_False in Hs by lia. destruct Hs as (Ht & _).
  assert (Hsize : size (Scanner._frames s) = Z.to_nat (framesOf c data)).
  { apply size_full. intros j. split; [apply Hk|]. intros Hj. rewrite Hf.
    destruct (Z.leb_spec 5 (occurrences j (drop 9 l))) as [_|Hlt]; [eauto|].
    specialize (Hall j Hj). lia. }
  assert (Hrec : Scanner._received s = framesOf c data) by (rewrite Hr, Hsize; lia).
  split; [done|]. split; [done|]. split.
  - exists (Z.to_nat (BytesPerFrame c) * Z.to_nat (framesOf c data) - length data)%nat.
    unfold Scanner.reassemble. rewrite Ht.
    destruct (Z.eqb_spec (framesOf c data) 0) as [|_]; [lia|].
    rewrite (omap_total _ (storedAt c data)).
    2: { intros j Hj. apply elem_of_seqZ in Hj. rewrite Hf.
         destruct (Z.leb_spec 5 (occurrences j (drop 9 l))) as [_|Hlt]; [done|].
         specialize (Hall j ltac:(lia)). lia. }
    destruct (Z.to_nat (framesOf c data)) as [|n] eqn:En; [lia|].
    assert (Hn : Z.of_nat (S n) = framesOf c data) by lia.
    rewrite <- Hn in Hup, Hlow. rewrite <- Hn. change 0 with (Z.of_nat 0) at 1.
    rewrite (join_storedAt c data Hbpf n 0) by (unfold len in *; nia).
    rewrite Nat.mul_0_r, drop_0. do 2 f_equal.
  - intros before last Hsplit.
    destruct l as [|i0 l0 _] using rev_ind; [simpl in H9; lia|].
    rewrite fmap_app in Hsplit. apply app_inj_tail in Hsplit as [<- <-].
    apply Forall_app in Hl as [Hl0 Hi0]. apply (proj1 (Forall_singleton _ _)) in Hi0.
    rewrite length_app in H9. simpl length in H9.
    pose proof (addFrame_clean_result c data Hbpd Hbpf Hbytes HT l0 i0 Hl0 Hi0 ltac:(lia))
      as Hres. cbv zeta in Hres. rewrite Hres.
    apply bool_decide_eq_true_2.
    assert (Es : (Scanner.addFrame
                    (Scanner.addFrames Scanner.newDecoder (captureAt c data <$> l0))
                    (captureAt c data i0)).1 = s).
    { unfold s, Scanner.addFrames. rewrite fmap_app, fold_left_app. reflexivity. }
    rewrite Es, Hrec. lia.
Qed.

End ScannerExtras.

Section ScannerExamples.
Import Go Aux.

Lemma scanner_accepts_example :
  let c := DefaultConfig in
  let data := replicate 45 7 in
  let fs := encodedAt c data <$> replicate 9 0 ++ [1; 0; 1; 1; 2; 1; 1] in
  let s := Scanner.addFrames Scanner.newDecoder ((fun f => Value <$> Dots f) <$> fs) in
  Scanner._received s = Z.of_nat (size (Scanner._frames s)) /\
  (forall f, f ∈ Encode (NewEncoder c) data ->
     Scanner._frames s !! FIndex f
     = if 5 <=? occurrences (FIndex f) (FIndex <$> drop 9 fs)
       then Some (Payload f
                  ++ replicate (Z.to_nat (BytesPerFrame c) - length (Payload f)) 0)
       else None) /\
  (forall j, is_Some (Scanner._frames s !! j) -> 0 <= j < len (Encode (NewEncoder c) data)).
Proof.
  apply (scanner_accepts DefaultConfig (replicate 45 7)).
  - reflexivity.
  - reflexivity.
  - apply Forall_replicate. lia.
  - vm_compute. split; discriminate.
  - intros f.
    change (Encode (NewEncoder DefaultConfig) (replicate 45 7))
      with (encodedAt DefaultConfig (replicate 45 7) <$> [0; 1; 2]).
    rewrite !list_elem_of_fmap. intros (i & -> & Hi). exists i. split; [done|].
    apply list_elem_of_In in Hi. apply list_elem_of_In. simpl in *. tauto.
Defined.

Lemma scanner_roundtrip_example :
  let c := DefaultConfig in
  let data := replicate 45 7 in
  let fs := encodedAt c data
              <$> replicate 9 0 ++ [0; 1; 2; 0; 1; 2; 0; 1; 2; 0; 1; 2; 0; 1; 2] in
  let captures := (fun f => Value <$> Dots f) <$> fs in
  let s := Scanner.addFrames Scanner.newDecoder captures in
  Scanner._totalFrames s = Some (len (Encode (NewEncoder c) data)) /\
  Scanner._received s = len (Encode (NewEncoder c) data) /\
  (exists pad : nat, Scanner.reassemble s = data ++ replicate pad 0) /\
  (forall before last, captures = before ++ [last] ->
     Scanner.complete (Scanner.addFrame (Scanner.addFrames Scanner.newDecoder before) last).2
     = true).
Proof.
  apply (scanner_roundtrip DefaultConfig (replicate 45 7)).
  - reflexivity.
  - reflexivity.
  - apply Forall_replicate. lia.
  - vm_compute. split; discriminate.
  - intros f.
    change (Encode (NewEncoder DefaultConfig) (replicate 45 7))
      with (encodedAt DefaultConfig (replicate 45 7) <$> [0; 1; 2]).
    rewrite !list_elem_of_fmap. intros (i & -> & Hi). exists i. split; [done|].
    apply list_elem_of_In in Hi. apply list_elem_of_In. simpl in *. tauto.
  - intros f.
    change (Encode (NewEncoder DefaultConfig) (replicate 45 7))
      with (encodedAt DefaultConfig (replicate 45 7) <$> [0; 1; 2]).
    rewrite list_elem_of_fmap. intros (i & -> & Hi).
    rewrite <- fmap_drop, <- list_fmap_compose.
    apply list_elem_of_In in Hi. simpl in Hi.
    destruct Hi as [<-|[<-|[<-|[]]]]; vm_compute; discriminate.
Defined.

End ScannerExamples.

(** * The scanner's decoder on any captures *)

Section ScannerSound.
Import Go Aux.

Lemma scanner_byte (dotValues : list Z) (k : Z) :
  0 <= Scanner.at0 (Scanner._dotsToBytes dotValues) k < 256.
Proof.
  pose (dots := (fun v => {| Ring := 0; Index := 0; Value := v |}) <$> dotValues).
  assert (E : dotValues = Value <$> dots).
  { unfold dots. rewrite <- list_fmap_compose. symmetry. apply list_fmap_id. }
  rewrite E, (scanner_dotsToBytes (NewDecoder DefaultConfig)) by done.
  apply dotsToBytes_byte.
Qed.

Lemma sound_complete (s : Scanner.Decoder) (T : Z) :
  sound s -> Scanner._totalFrames s = Some T -> 0 < T -> T <= Scanner._received s ->
  Scanner._received s = T /\ forall j, 0 <= j < T -> is_Some (Scanner._frames s !! j).
Proof.
  intros [Hr Hk] Ht HT Hle.
  assert (Hkeys : forall j, is_Some (Scanner._frames s !! j) -> 0 <= j < T).
  { intros j Hj. destruct (Hk j Hj) as (T' & HT' & Hj'). rewrite Ht in HT'.
    injection HT' as <-. done. }
  pose proof (size_le _ T Hkeys) as Hsz.
  split; [lia|].
  intros j Hj. destruct (Scanner._frames s !! j) eqn:E; [eauto|].
  pose proof (size_partial _ T j Hkeys Hj E). lia.
Qed.

(** The voting block keeps the decoder sound. *)
Lemma vote_sound (s : Scanner.Decoder) (T frameIndex : Z) (dotValues : list Z) :
  sound s -> Scanner._totalFrames s = Some T -> 0 <= frameIndex < T ->
  let r := Scanner.vote s frameIndex dotValues in
  sound r.1 /\ Scanner._totalFrames r.1 = Some T /\
  (Scanner.complete r.2 = true -> T <= Scanner._received r.1).
Proof.
  intros [Hr Hk] Ht Hfi. cbv zeta. unfold Scanner.vote. cbv zeta.
  cbn [Scanner._votes Scanner._frames Scanner._totalFrames Scanner._received
       Scanner._ftCounts Scanner._ftTotal].
  destruct (_ >=? Scanner.MIN_VOTES).
  - destruct (_ || _).
    + cbn [fst snd Scanner.complete]. split; [by split|]. split; [done|]. discriminate.
    + cbn [fst snd Scanner._votes Scanner._frames Scanner._totalFrames Scanner._received
           Scanner.complete]. rewrite Ht. cbn [default].
      split; [|split; [done|apply bool_decide_eq_true_1]].
      split; cbn [Scanner._votes Scanner._frames Scanner._totalFrames Scanner._received].
      * destruct (Scanner._frames s !! frameIndex) eqn:E.
        -- rewrite map_size_insert_Some by eauto. done.
        -- rewrite map_size_insert_None by done. lia.
      * intros j Hj. destruct (decide (j = frameIndex)) as [->|Hne]; [eauto|].
        rewrite lookup_insert_ne in Hj by done. rewrite <- Ht. by apply Hk.
  - cbn [fst snd Scanner._votes Scanner._frames Scanner._totalFrames Scanner._received
         Scanner.complete]. rewrite Ht. cbn [default].
    split; [|split; [done|apply bool_decide_eq_true_1]].
    split; cbn [Scanner._votes Scanner._frames Scanner._totalFrames Scanner._received];
      [done|].
    intros j Hj. rewrite <- Ht. by apply Hk.
Qed.

(** X13. Whatever the camera reads, the scanner's decoder stays sound and
    reports completion only when it holds every frame: for a fresh
    decoder, and after [addFrame] on any capture in a decoder for which it
    holds, the received count is the number of frames stored and each is
    stored under an index below the locked total; and when [addFrame]
    returns [complete], the total is locked on a value from 1 to 200 and a
    payload is stored for every index below it. *)
Theorem addFrame_sound (s : Scanner.Decoder) (dotValues : list Z) :
  sound Scanner.newDecoder /\
  (sound s ->
   let r := Scanner.addFrame s dotValues in
   sound r.1 /\
   (Scanner.complete r.2 = true ->
    exists T, 1 <= T <= 200 /\ Scanner._totalFrames r.1 = Some T /\
              Scanner._received r.1 = T /\
              forall j, 0 <= j < T -> is_Some (Scanner._frames r.1 !! j))).
Proof.
  split.
  { split; [done|]. intros j [x Hx]. cbn in Hx. by rewrite lookup_empty in Hx. }
  intros Hs. cbv zeta. unfold Scanner.addFrame. cbv zeta.
  destruct (_ <? 2); [by split|].
  pose proof (scanner_byte dotValues 0) as Hfi0.
  set (fi := Scanner.at0 _ 0) in *. set (tf := Scanner.at0 _ 1) in *.
  destruct (Z.eqb_spec tf 0) as [|Htf0]; [by split|].
  destruct (Z.gtb_spec tf 200) as [|Htf]; [by split|]. cbn [orb].
  destruct (Z.geb_spec fi tf) as [|Hfi]; [by split|].
  assert (Htally : sound (Scanner.tally s tf)) by done.
  destruct (Scanner.lock (Scanner.tally s tf)) as [s1|] eqn:Hl; [|by split].
  assert (Hs1 : sound s1).
  { destruct (lock_fields _ _ Hl) as (_ & Hf & Hr & _). destruct Htally as [Hr' Hk'].
    split; [by rewrite Hr, Hf|]. rewrite Hf. intros j Hj.
    destruct (Hk' j Hj) as (T & HT & HjT).
    rewrite (lock_locked _ T HT) in Hl. injection Hl as <-. eauto. }
  destruct (bool_decide (Some tf ≠ Scanner._totalFrames s1)) eqn:Hb; [by split|].
  apply bool_decide_eq_false_1 in Hb.
  assert (Ht : Scanner._totalFrames s1 = Some tf).
  { destruct (Scanner._totalFrames s1) as [T|]; [|by destruct Hb].
    destruct (decide (tf = T)) as [->|Hne]; [done|]. destruct Hb. congruence. }
  destruct (vote_sound s1 tf fi dotValues Hs1 Ht ltac:(lia)) as (Hv & HtV & Hc).
  cbv zeta in *. split; [done|]. intros Hcomplete. exists tf.
  destruct (sound_complete _ tf Hv HtV ltac:(lia) (Hc Hcomplete)) as [Hrec Hall].
  split; [lia|]. done.
Qed.

End ScannerSound.

(** * Colour matching *)

Section ScannerColour.
Import Scanner.

Lemma nearest_range (dist : Z -> float) (n : Z) : 0 <= nearest dist n < Z.max 1 n.
Proof.
  unfold nearest.
  assert (Hfold : forall (l : list Z) (st : Z * float),
    0 <= st.1 < Z.max 1 n -> Forall (fun i => 0 <= i < Z.max 1 n) l ->
    0 <= (fold_left
            (fun '(bestIdx, bestDist) i =>
               if F64.ltb (dist i) bestDist then (i, dist i) else (bestIdx, bestDist))
            l st).1 < Z.max 1 n).
  { induction l as [|i l IH]; intros [bestIdx bestDist] Hst Hl; [done|].
    apply Forall_cons in Hl as [Hi Hl]. cbn [fold_left].
    destruct (F64.ltb (dist i) bestDist); by apply IH. }
  apply Hfold; [simpl; lia|]. apply Forall_seqZ. intros i Hi. lia.
Qed.

(** X14. [matchColor] always answers with a palette index: whatever the
    sample, the result is one of 0..7, so every dot value handed to the
    decoder is three bits wide. *)
Theorem matchColor_index (r g b : Z) : 0 <= matchColor r g b < 8.
Proof.
  unfold matchColor, matchByHue, matchByRgb.
  change (Z.of_nat (length palette)) with 8.
  destruct (chromatic r g b); [destruct (F64.leb _ _)|];
    match goal with |- context [nearest ?f 8] => pose proof (nearest_range f 8) end; lia.
Qed.

Lemma matchColor_table :
  forallb (fun i =>
    match palette !! Z.to_nat i with
    | Some c =>
        forallb (fun dr => forallb (fun dg => forallb (fun db =>
          matchColor (Z.max 0 (Z.min 255 (DotbeamCore.r c + dr)))
                     (Z.max 0 (Z.min 255 (DotbeamCore.g c + dg)))
                     (Z.max 0 (Z.min 255 (DotbeamCore.b c + db))) =? i)
          (seqZ (-4) 9)) (seqZ (-4) 9)) (seqZ (-4) 9)
    | None => false
    end) (seqZ 0 8) = true.
Proof. vm_compute. reflexivity. Qed.

(** X15. Colour matching tolerates small errors: a sample within 4 of a
    palette colour on each of the three channels is matched to that
    colour's index; in particular every palette colour is matched to
    itself. *)
Theorem matchColor_tolerance (i : nat) (c : DotbeamCore.Color) (r g b : Z) :
  palette !! i = Some c ->
  0 <= r <= 255 -> 0 <= g <= 255 -> 0 <= b <= 255 ->
  Z.abs (r - DotbeamCore.r c) <= 4 ->
  Z.abs (g - DotbeamCore.g c) <= 4 ->
  Z.abs (b - DotbeamCore.b c) <= 4 ->
  matchColor r g b = Z.of_nat i.
Proof.
  intros Hc Hr Hg Hb Dr Dg Db.
  assert (Hi : (i < 8)%nat) by (apply lookup_lt_Some in Hc; exact Hc).
  pose proof matchColor_table as Hall. rewrite forallb_forall in Hall.
  specialize (Hall (Z.of_nat i) ltac:(apply list_elem_of_In, elem_of_seqZ; lia)).
  rewrite Nat2Z.id, Hc in Hall.
  rewrite forallb_forall in Hall.
  specialize (Hall (r - DotbeamCore.r c) ltac:(apply list_elem_of_In, elem_of_seqZ; lia)).
  rewrite forallb_forall in Hall.
  specialize (Hall (g - DotbeamCore.g c) ltac:(apply list_elem_of_In, elem_of_seqZ; lia)).
  rewrite forallb_forall in Hall.
  specialize (Hall (b - DotbeamCore.b c) ltac:(apply list_elem_of_In, elem_of_seqZ; lia)).
  apply Z.eqb_eq in Hall.
  replace (Z.max 0 (Z.min 255 (DotbeamCore.r c + (r - DotbeamCore.r c)))) with r in Hall by lia.
  replace (Z.max 0 (Z.min 255 (DotbeamCore.g c + (g - DotbeamCore.g c)))) with g in Hall by lia.
  replace (Z.max 0 (Z.min 255 (DotbeamCore.b c + (b - DotbeamCore.b c)))) with b in Hall by lia.
  done.
Qed.

(** A washed-out orange. *)
Lemma matchColor_tolerance_example : matchColor 251 143 4 = 1.
Proof.
  apply (matchColor_tolerance 1 {| DotbeamCore.r := 0xff; DotbeamCore.g := 0x8c;
                                   DotbeamCore.b := 0x00 |});
    [reflexivity|simpl; lia..].
Defined.

(** X16. The vote has one value for each dot of the first capture, and
    every value it returns is a palette index, whatever the captures
    hold. *)
Theorem majorityVote_values (captures : list (list Z)) :
  length (_majorityVote captures) = length (default [] (head captures)) /\
  Forall (fun v => 0 <= v < 8) (_majorityVote captures).
Proof.
  destruct captures as [|first rest]; [by split|].
  unfold _majorityVote. change (default [] (head (first :: rest))) with first. split.
  - rewrite length_fmap, length_seqZ. lia.
  - apply Forall_fmap, Forall_forall. intros d _. unfold compose. cbv beta zeta.
    match goal with |- context [at0 ?cs _ >? _] => set (counts := cs) end. clearbody counts.
    assert (Hfold : forall (l : list Z) (best : Z),
      0 <= best < 8 -> Forall (fun v => 0 <= v < 8) l ->
      0 <= fold_left (fun best v2 => if at0 counts v2 >? at0 counts best then v2 else best)
             l best < 8).
    { induction l as [|v2 l IH]; intros best Hb Hl; [done|].
      apply Forall_cons in Hl as [Hv Hl]. cbn [fold_left].
      destruct (_ >? _); by apply IH. }
    apply Hfold; [lia|]. apply Forall_seqZ. intros v Hv. lia.
Qed.

End ScannerColour.

(** * The two decoders read the same bytes *)

Section Agreement.
Import Go Aux.

Lemma length_dot_bits (dots : list Dot) :
  length (dots ≫= fun dot => (fun b => Z.land (Value dot ≫ b) 1) <$> reverse (seqZ 0 3))
  = (3 * length dots)%nat.
Proof.
  induction dots as [|dot dots IH]; [done|].
  rewrite bind_cons, length_app, IH. simpl length. lia.
Qed.

(** X17. The browser scanner and the Go decoder turn dots into the same
    bytes: with three bits per dot, [_dotsToBytes] on the values of any
    dots returns what Go's [dotsToBytes] returns for the dots, and that is
    one byte for every eight bits the dots carry. *)
Theorem dotsToBytes_agree (d : Decoder) (dots : list Dot) :
  BitsPerDot (dconfig d) = 3 ->
  Scanner._dotsToBytes (Value <$> dots) = dotsToBytes d dots /\
  len (dotsToBytes d dots) = (3 * len dots) `div` 8 /\
  Forall (fun b => 0 <= b < 256) (dotsToBytes d dots).
Proof.
  intros Hbpd. split; [by apply scanner_dotsToBytes|]. split.
  - unfold dotsToBytes. cbv zeta. rewrite Hbpd. unfold len.
    rewrite length_fmap, length_seqZ, length_dot_bits.
    rewrite Z.quot_div_nonneg by lia.
    rewrite Z2Nat.id by (apply Z.div_pos; lia). f_equal. lia.
  - apply Forall_lookup. intros k b Hk.
    pose proof (dotsToBytes_byte d dots (Z.of_nat k)) as Hb.
    unfold idx in Hb. by rewrite Nat2Z.id, Hk in Hb.
Qed.

Lemma dotsToBytes_agree_example :
  Scanner._dotsToBytes (Value <$> hi_dots) = dotsToBytes (NewDecoder DefaultConfig) hi_dots /\
  len (dotsToBytes (NewDecoder DefaultConfig) hi_dots) = (3 * len hi_dots) `div` 8 /\
  Forall (fun b => 0 <= b < 256) (dotsToBytes (NewDecoder DefaultConfig) hi_dots).
Proof. apply (dotsToBytes_agree (NewDecoder DefaultConfig) hi_dots). reflexivity. Defined.

End Agreement.

(** * The cached transform *)

Section TransformCache.
Import Scanner.

(** X18. The transform the scanner samples with is the freshly derived one
    or the cached one, never anything else; once a transform is cached
    there is always one to sample with and the cache is never emptied; and
    without a cache this block leaves the cache empty (caching waits for a
    valid header) and uses the fresh transform only when three blobs were
    found. *)
Theorem reuseTransform_cache (cached : option Transform) (blobs : Z)
    (fresh : option Transform) :
  let r := reuseTransform cached blobs fresh in
  (forall t, r.1 = Some t -> fresh = Some t \/ cached = Some t) /\
  (forall t, r.2 = Some t -> fresh = Some t \/ cached = Some t) /\
  (is_Some cached -> is_Some r.1 /\ is_Some r.2) /\
  (cached = None -> r.2 = None /\ r.1 = if blobs >=? 3 then fresh else None).
Proof.
  cbv zeta. unfold reuseTransform.
  destruct (blobs >=? 3), fresh as [f|], cached as [ca|]; cbn [fst snd];
    try destruct (_ && _); cbn [fst snd];
    (split; [|split; [|split]]);
    try (intros t [= <-]; auto); try (intros [? [=]]); try (intros [=]);
    try (intros _; split; eauto); try done.
Qed.

End TransformCache.

(** * The npm decoder mirrors the Go decoder *)

Section NpmDecoder.
Import Go Aux.

Lemma toInt32_small (z : Z) : - 2 ^ 31 <= z < 2 ^ 31 -> Npm.toInt32 z = z.
Proof. intros Hz. unfold Npm.toInt32. rewrite Z.mod_small; lia. Qed.

Lemma shiftr_byte (v b : Z) : 0 <= v < 256 -> 0 <= b -> 0 <= v ≫ b < 256.
Proof.
  intros Hv Hb. rewrite Z.shiftr_div_pow2 by lia.
  assert (0 < 2 ^ b) by (apply Z.pow_pos_nonneg; lia).
  split; [apply Z.div_pos; lia|].
  apply Z.div_lt_upper_bound; [lia|]. nia.
Qed.

(** One bit of a byte value, read with the 32-bit operators. *)
Lemma npm_bit (v b : Z) :
  0 <= v < 256 -> 0 <= b < 32 -> Npm.band (Npm.sar v b) 1 = Z.land (v ≫ b) 1.
Proof.
  intros Hv Hb. unfold Npm.band, Npm.sar.
  rewrite (toInt32_small v), Z.mod_small by lia.
  pose proof (shiftr_byte v b Hv ltac:(lia)).
  rewrite (toInt32_small (v ≫ b)) by lia. reflexivity.
Qed.


(** Packing up to eight bits with the 32-bit operators. *)
Lemma npm_pack (bs : list Z) :
  Forall bit bs -> (length bs <= 8)%nat ->
  fold_left (fun val x => Npm.bor (Npm.shl val 1) x) bs 0
  = fold_left (fun value x => uint8 (Z.lor (value ≪ 1) x)) bs 0.
Proof.
  induction bs as [|x bs IH] using rev_ind; intros Hbits Hlen; [done|].
  apply Forall_app in Hbits as [Hbs Hx]. apply (proj1 (Forall_singleton _ _)) in Hx.
  rewrite length_app in Hlen. simpl length in Hlen.
  rewrite !fold_left_app. simpl fold_left. rewrite IH by (done || lia). clear IH.
  destruct (pack_bits bs Hbs ltac:(lia)) as [Hv _]. cbv zeta in Hv.
  set (v := fold_left _ bs 0) in *.
  assert (H128 : 2 ^ Z.of_nat (length bs) <= 128).
  { change 128 with (2 ^ 7). apply Z.pow_le_mono_r; lia. }
  unfold Npm.bor, Npm.shl. change (1 mod 32) with 1.
  rewrite (toInt32_small v) by lia.
  assert (Hs : v ≪ 1 = 2 * v) by (rewrite Z.shiftl_mul_pow2 by lia; change (2 ^ 1) with 2; lia).
  rewrite !(toInt32_small (v ≪ 1)) by lia.
  rewrite (toInt32_small x) by (destruct Hx as [-> | ->]; lia).
  rewrite lor_shift_bit by (done || lia).
  unfold uint8. rewrite Z.mod_small; [done|]. destruct Hx as [-> | ->]; lia.
Qed.





End NpmDecoder.


(** * The npm encoder mirrors the Go encoder *)

Section NpmEncoder.
Import Go Aux.

Lemma npm_bytesToBits (data : list Z) :
  Forall byte data -> Npm.bytesToBits data = bytesToBits data.
Proof.
  intros Hd. unfold Npm.bytesToBits, bytesToBits.
  induction Hd as [|b data Hb Hd IH]; [done|].
  rewrite !bind_cons, IH. f_equal.
  apply list_fmap_ext. intros k j Hj.
  apply list_elem_of_lookup_2, elem_of_reverse, elem_of_seqZ in Hj.
  apply npm_bit; [exact Hb|lia].
Qed.

(** The value of one dot, packed with the 32-bit operators. *)
Lemma npm_dot_value (bits : list Z) (bpd bitStart : Z) :
  bpd <= 8 -> Forall bit bits ->
  fold_left (fun value b =>
               Npm.bor (Npm.shl value 1) (default 0 (bits !! Z.to_nat (bitStart + b))))
            (seqZ 0 bpd) 0
  = fold_left (fun value b => uint8 (Z.lor (value ≪ 1) (idx bits (bitStart + b))))
              (seqZ 0 bpd) 0.
Proof.
  intros Hbpd Hbits.
  change (fun value b =>
            Npm.bor (Npm.shl value 1) (default 0 (bits !! Z.to_nat (bitStart + b))))
    with (fun value b => Npm.bor (Npm.shl value 1) (idx bits (bitStart + b))).
  rewrite <- (fold_left_fmap (fun val x => Npm.bor (Npm.shl val 1) x)
                (fun b => idx bits (bitStart + b)) (seqZ 0 bpd) 0).
  rewrite <- (fold_left_fmap (fun value x => uint8 (Z.lor (value ≪ 1) x))
                (fun b => idx bits (bitStart + b)) (seqZ 0 bpd) 0).
  apply npm_pack.
  - apply Forall_fmap, Forall_forall. intros b _. by apply idx_bit.
  - rewrite length_fmap, length_seqZ. lia.
Qed.

Lemma npm_ringDots (bits : list Z) (bpd : Z) (rn : Npm.RingLayout) (rg : RingLayout) :
  bpd <= 8 -> Forall bit bits ->
  Npm.dotCount rn = DotCount rg -> 0 <= DotCount rg ->
  forall (pn : list Npm.Position) (pg : list Position),
    length pn = length pg ->
    forall (j dotIndex : Z) (dots : list Dot),
      Npm.ringDots bits bpd rn pn j dotIndex (npmDot <$> dots)
      = ((ringDots bits bpd rg pg j dotIndex dots).1,
         npmDot <$> (ringDots bits bpd rg pg j dotIndex dots).2).
Proof.
  intros Hbpd Hbits Hdc Hnn. induction pn as [|p pn IH]; intros [|q pg] Hlen; try done.
  intros j dotIndex dots. cbn [Npm.ringDots ringDots]. fold (len bits).
  destruct (dotIndex * bpd + bpd >? len bits); [done|].
  rewrite npm_dot_value by done.
  rewrite Hdc, <- (Z.quot_div_nonneg (DotCount rg) 6) by lia.
  specialize (IH pg ltac:(simpl in Hlen; lia) (j + 1) (dotIndex + 1)
                 (dots ++ [ {| Ring := DotCount rg ÷ 6; Index := j;
                               Value := fold_left
                                 (fun value b => uint8 (Z.lor (value ≪ 1)
                                                          (idx bits (dotIndex * bpd + b))))
                                 (seqZ 0 bpd) 0 |} ])).
  rewrite fmap_app in IH. exact IH.
Qed.

Lemma npm_ring_loop (bits : list Z) (bpd : Z) (fn : Z -> Npm.RingLayout)
    (fg : Z -> RingLayout) (l : list Z) :
  bpd <= 8 -> Forall bit bits ->
  (forall i, i ∈ l ->
     Npm.dotCount (fn i) = DotCount (fg i) /\ 0 <= DotCount (fg i) /\
     length (Npm.positions (fn i)) = length (Positions (fg i))) ->
  forall (dotIndex : Z) (dots : list Dot),
    (fold_left (fun '(dotIndex, dots) ring =>
                  Npm.ringDots bits bpd ring (Npm.positions ring) 0 dotIndex dots)
               (fn <$> l) (dotIndex, npmDot <$> dots)).2
    = npmDot <$>
        (fold_left (fun '(dotIndex, dots) ring =>
                      ringDots bits bpd ring (Positions ring) 0 dotIndex dots)
                   (fg <$> l) (dotIndex, dots)).2.
Proof.
  intros Hbpd Hbits. induction l as [|i l IH]; intros Hrel dotIndex dots; [done|].
  destruct (Hrel i ltac:(by left)) as (Hdc & Hnn & Hlen).
  rewrite !fmap_cons. cbn [fold_left].
  rewrite (npm_ringDots bits bpd (fn i) (fg i) Hbpd Hbits Hdc Hnn _ _ Hlen).
  destruct (ringDots bits bpd (fg i) (Positions (fg i)) 0 dotIndex dots) as [di ds].
  cbn [fst snd]. apply IH. intros k Hk. apply Hrel. by right.
Qed.

(** The npm encoder spreads a frame's bytes over the dots as Go does. *)
Lemma npm_bytesToDots (c : Config) (frameBytes : list Z) :
  BitsPerDot c <= 8 -> Forall byte frameBytes ->
  Npm._bytesToDots (Npm.newEncoder (npmConfig c)) frameBytes
  = npmDot <$> bytesToDots (NewEncoder c) frameBytes.
Proof.
  intros Hbpd Hbytes. unfold Npm._bytesToDots, bytesToDots. cbv zeta.
  rewrite npm_bytesToBits by done.
  cbn [Npm.layout Npm.newEncoder Npm.lrings Npm.computeLayout Npm.econfig npmConfig
       Npm.bitsPerDot Npm.rings layout NewEncoder LRings NewLayout config].
  rewrite <- (fmap_add_seqZ 1 0), <- list_fmap_compose.
  change (@nil Npm.Dot) with (npmDot <$> @nil Dot).
  apply npm_ring_loop; [done|apply bytesToBits_bit|].
  intros i Hi. apply elem_of_seqZ in Hi. cbn. rewrite !length_fmap, !length_seqZ.
  split; [lia|]. split; [lia|]. f_equal. lia.
Qed.

Lemma npm_sizes (c : Config) :
  0 <= BitsPerDot c ->
  Npm.bitsPerFrame (Npm.newEncoder (npmConfig c)) = BitsPerFrame c /\
  Npm.bytesPerFrame (Npm.newEncoder (npmConfig c)) = BytesPerFrame c /\
  (BitsPerFrame c + 7) ÷ 8 = (BitsPerFrame c + 7) `div` 8.
Proof.
  intros Hbpd.
  assert (Hdots : 0 <= TotalDots c) by (rewrite TotalDots_eq; nia).
  assert (Hbits : 0 <= BitsPerFrame c) by (unfold BitsPerFrame; nia).
  assert (Ebits : Npm.bitsPerFrame (Npm.newEncoder (npmConfig c)) = BitsPerFrame c) by done.
  split; [done|]. split; [|apply Z.quot_div_nonneg; lia].
  unfold Npm.bytesPerFrame, BytesPerFrame. rewrite Ebits, Z.quot_div_nonneg by lia. done.
Qed.

(** Once the two encoders agree on the number of frames [T], they build
    the same frames. *)
Lemma npm_frames (c : Config) (data : list Z) (T : Z) :
  0 <= BitsPerDot c <= 8 -> Forall byte data ->
  (fun i =>
     let start := i * BytesPerFrame c in
     let end_ := Z.min (start + BytesPerFrame c) (Z.of_nat (length data)) in
     let chunk := take (Z.to_nat (end_ - start)) (drop (Z.to_nat start) data) in
     let frameBytes := Npm.toUint8 i :: Npm.toUint8 T :: (Npm.toUint8 <$> chunk) in
     let totalBytes := (BitsPerFrame c + 7) `div` 8 in
     let padded :=
       if Z.of_nat (length frameBytes) <? totalBytes
       then frameBytes ++ replicate (Z.to_nat (totalBytes - Z.of_nat (length frameBytes))) 0
       else frameBytes in
     {| Npm.findex := i; Npm.ftotal := T;
        Npm.fdots := Npm._bytesToDots (Npm.newEncoder (npmConfig c)) padded;
        Npm.fpayload := chunk |})
    <$> seqZ 0 T
  = npmFrame <$>
      ((fun i =>
          let start := i * BytesPerFrame c in
          let end_ := let e0 := start + BytesPerFrame c in
                      if e0 >? len data then len data else e0 in
          let chunk := slice data start end_ in
          let frameBytes := uint8 i :: uint8 T :: chunk in
          let totalBits := BitsPerFrame c in
          let totalBytes := (totalBits + 7) ÷ 8 in
          let frameBytes :=
            if len frameBytes <? totalBytes
            then frameBytes ++ replicate (Z.to_nat (totalBytes - len frameBytes)) 0
            else frameBytes in
          {| FIndex := i; Total := T;
             Dots := bytesToDots (NewEncoder c) frameBytes;
             Payload := chunk |})
         <$> seqZ 0 T).
Proof.
  intros Hbpd Hbytes. destruct (npm_sizes c ltac:(lia)) as (_ & _ & Etb).
  cbv zeta. rewrite Etb.
  rewrite <- list_fmap_compose. apply list_fmap_ext. intros k i Hi.
  apply lookup_seqZ in Hi as [-> Hk]. rewrite Z.add_0_l.
  set (i := Z.of_nat k). unfold compose, npmFrame. cbn [FIndex Total Dots Payload].
  fold (len data).
  assert (Hend : Z.min (i * BytesPerFrame c + BytesPerFrame c) (len data)
                 = if i * BytesPerFrame c + BytesPerFrame c >? len data then len data
                   else i * BytesPerFrame c + BytesPerFrame c).
  { destruct (Z.gtb_spec (i * BytesPerFrame c + BytesPerFrame c) (len data)); lia. }
  rewrite Hend. set (end_ := if _ >? len data then _ else _).
  fold (slice data (i * BytesPerFrame c) end_). set (chunk := slice _ _ _).
  assert (Hchunk : Forall byte chunk) by (by apply Forall_take, Forall_drop).
  assert (Eu8 : Npm.toUint8 <$> chunk = chunk).
  { rewrite <- (list_fmap_id chunk) at 2. apply list_fmap_ext. intros ? b Hb.
    apply (proj1 (Forall_lookup _ _) Hchunk) in Hb. unfold Npm.toUint8. simpl.
    apply Z.mod_small. exact Hb. }
  rewrite Eu8. change (Npm.toUint8 i) with (uint8 i). change (Npm.toUint8 T) with (uint8 T).
  fold (len (uint8 i :: uint8 T :: chunk)).
  f_equal. apply npm_bytesToDots; [lia|].
  assert (Hhead : Forall byte (uint8 i :: uint8 T :: chunk)).
  { repeat constructor; try (apply Z.mod_pos_bound; lia). done. }
  destruct (_ <? _); [|done].
  apply Forall_app. split; [done|]. apply Forall_replicate. unfold byte. lia.
Qed.

(** X20. The npm encoder mirrors the Go encoder: for a configuration with
    a ring count that is not negative and at most 8 bits per dot, and a
    payload of bytes, [encode] returns the
    frames [Encode] returns (the same indices, totals, payload chunks and
    dot values, dot for dot), provided the quotient
    [data.length / bytesPerFrame], which [encode] computes in binary64
    before rounding it up, rounds up to the integer Go computes. *)
Theorem npm_encoder_mirrors (c : Config) (data : list Z) :
  0 <= Rings c -> 0 <= BitsPerDot c <= 8 -> Forall (fun b => 0 <= b < 256) data ->
  (0 < BytesPerFrame c ->
   F64.ceilZ (F64.div (F64.ofZ (len data)) (F64.ofZ (BytesPerFrame c)))
   = (len data + BytesPerFrame c - 1) `div` BytesPerFrame c) ->
  Npm.encode (Npm.newEncoder (npmConfig c)) data = npmFrame <$> Encode (NewEncoder c) data.
Proof.
  intros _ Hbpd Hbytes Hceil.
  destruct (npm_sizes c ltac:(lia)) as (Ebits & Ebpf & _).
  unfold Npm.encode, Encode. cbv zeta. rewrite Ebpf, Ebits.
  change (config (NewEncoder c)) with c. fold (len data).
  destruct (Z.leb_spec (BytesPerFrame c) 0) as [|Hbpf]; [done|].
  rewrite (Hceil Hbpf), Z.quot_div_nonneg by (unfold len; lia).
  set (T := if _ >? 255 then 255 else _).
  destruct (Z.eqb_spec T 0) as [->|HT]; [done|].
  by apply npm_frames.
Qed.

(** A 45-byte payload under the default configuration. *)
Lemma npm_encoder_mirrors_example :
  Npm.encode (Npm.newEncoder (npmConfig DefaultConfig)) (replicate 45 7)
  = npmFrame <$> Encode (NewEncoder DefaultConfig) (replicate 45 7).
Proof.
  apply (npm_encoder_mirrors DefaultConfig (replicate 45 7)).
  - simpl. lia.
  - simpl. lia.
  - apply Forall_replicate. lia.
  - intros _. vm_compute. reflexivity.
Defined.

(** Under the default configuration the binary64 quotient rounds up to the
    integer quotient for every payload of up to 255 frames. *)
Lemma ceil_table :
  forallb (fun n => F64.ceilZ (F64.div (F64.ofZ n) (F64.ofZ 20)) =? (n + 19) `div` 20)
          (seqZ 0 5101) = true.
Proof. vm_compute. reflexivity. Qed.

(** X21. Under the default configuration the npm encoder and the Go
    encoder produce the same frames for every payload of up to 5100 bytes
    (255 frames): the same number of frames, with the same indices, totals,
    payload chunks and dot values. *)
Theorem npm_encoder_default (data : list Z) :
  Forall (fun b => 0 <= b < 256) data -> len data <= 5100 ->
  Npm.encode (Npm.newEncoder Npm.DEFAULT_CONFIG) data
  = npmFrame <$> Encode (NewEncoder DefaultConfig) data.
Proof.
  intros Hbytes Hlen.
  change Npm.DEFAULT_CONFIG with (npmConfig DefaultConfig).
  unfold Npm.encode, Encode. cbv zeta.
  change (Npm.bytesPerFrame (Npm.newEncoder (npmConfig DefaultConfig))) with 20.
  change (BytesPerFrame (config (NewEncoder DefaultConfig))) with 20.
  change (Npm.bitsPerFrame (Npm.newEncoder (npmConfig DefaultConfig)))
    with (BitsPerFrame DefaultConfig).
  change (config (NewEncoder DefaultConfig)) with DefaultConfig.
  change (20 <=? 0) with false. cbv iota. fold (len data).
  pose proof ceil_table as Hall. rewrite forallb_forall in Hall.
  specialize (Hall (len data)
                   ltac:(apply list_elem_of_In, elem_of_seqZ; unfold len in *; lia)).
  apply Z.eqb_eq in Hall.
  rewrite Hall, (Z.quot_div_nonneg (len data + 20 - 1) 20) by (unfold len; lia).
  replace (len data + 20 - 1) with (len data + 19) by lia.
  set (T := if _ >? 255 then 255 else _).
  destruct (Z.eqb_spec T 0) as [->|HT]; [done|].
  apply (npm_frames DefaultConfig data T); [simpl; lia|done].
Qed.

(** The two frames of a 21-byte payload. *)
Lemma npm_encoder_default_example :
  Npm.encode (Npm.newEncoder Npm.DEFAULT_CONFIG) (replicate 21 200)
  = npmFrame <$> Encode (NewEncoder DefaultConfig) (replicate 21 200).
Proof.
  apply (npm_encoder_default (replicate 21 200)).
  - apply Forall_replicate. lia.
  - vm_compute. discriminate.
Defined.

End NpmEncoder.

(** * Layouts and colours across the implementations *)

Section Layouts.
Import Go Aux.

Lemma npm_ringRadius (ring totalRings : Z) :
  Npm.ringRadius ring totalRings = ringRadius ring totalRings.
Proof.
  unfold Npm.ringRadius, ringRadius. destruct (totalRings =? 1); [|reflexivity].
  vm_compute. reflexivity.
Qed.

(** X22. The npm layout mirrors the Go layout: for a ring count that is not
    negative, [computeLayout] builds the rings [NewLayout] builds, with
    the same radius (0.4 and 0.40 are the same number), the same dot count
    and the same angle at every position. *)
Theorem npm_layout_mirrors (c : Config) (w h : float) :
  0 <= Rings c ->
  Npm.lrings (Npm.computeLayout (npmConfig c))
  = (fun r => {| Npm.radius := Radius r; Npm.dotCount := DotCount r;
                 Npm.positions := (fun p => {| Npm.angle := Angle p |}) <$> Positions r |})
      <$> LRings (NewLayout c w h).
Proof.
  intros _. unfold Npm.computeLayout, NewLayout.
  cbn [Npm.lrings LRings npmConfig Npm.rings].
  rewrite <- (fmap_add_seqZ 1 0), <- !list_fmap_compose.
  apply list_fmap_ext. intros k i Hi. unfold compose. cbv zeta.
  cbn [Radius DotCount Positions].
  rewrite npm_ringRadius, <- list_fmap_compose, (Z.add_comm 1 i). reflexivity.
Qed.

Lemma npm_layout_mirrors_example :
  Npm.lrings (Npm.computeLayout (npmConfig DefaultConfig))
  = (fun r => {| Npm.radius := Radius r; Npm.dotCount := DotCount r;
                 Npm.positions := (fun p => {| Npm.angle := Angle p |}) <$> Positions r |})
      <$> LRings (NewLayout DefaultConfig (F64.ofZ 1) (F64.ofZ 1)).
Proof. apply (npm_layout_mirrors DefaultConfig). simpl. lia. Defined.

(** The ring loop of the browser's [layout], from ring [m] on. *)
Lemma layout_loop (numRings : Z) (k : nat) :
  forall (m : Z) (rings0 : list DotbeamCore.LayoutRing),
    fold_left
      (fun '(rings, totalDots) n =>
         let dotsInRing := n * 6 in
         let radius := DotbeamCore.ringRadius n numRings in
         let dots :=
           (fun d =>
              {| DotbeamCore.angle :=
                   F64.div (F64.mul (F64.mul (F64.ofZ 2) F64.PI) (F64.ofZ d))
                           (F64.ofZ dotsInRing);
                 DotbeamCore.dotIndex := totalDots + d |})
             <$> seqZ 0 dotsInRing in
         (rings ++ [ {| DotbeamCore.ringIndex := n; DotbeamCore.radius := radius;
                        DotbeamCore.dots := dots |} ],
          totalDots + dotsInRing))
      (seqZ m (Z.of_nat k)) (rings0, 3 * m * (m - 1))
    = (rings0 ++
         ((fun n =>
             {| DotbeamCore.ringIndex := n;
                DotbeamCore.radius := DotbeamCore.ringRadius n numRings;
                DotbeamCore.dots :=
                  (fun d =>
                     {| DotbeamCore.angle :=
                          F64.div (F64.mul (F64.mul (F64.ofZ 2) F64.PI) (F64.ofZ d))
                                  (F64.ofZ (n * 6));
                        DotbeamCore.dotIndex := 3 * n * (n - 1) + d |})
                    <$> seqZ 0 (n * 6) |})
            <$> seqZ m (Z.of_nat k)),
       3 * (m + Z.of_nat k) * (m + Z.of_nat k - 1)).
Proof.
  induction k as [|k IH]; intros m rings0.
  - simpl. rewrite app_nil_r. do 2 f_equal; lia.
  - rewrite seqZ_cons by lia.
    replace (Z.pred (Z.of_nat (S k))) with (Z.of_nat k) by lia.
    cbn [fold_left fmap list_fmap]. cbv zeta.
    replace (3 * m * (m - 1) + m * 6) with (3 * Z.succ m * (Z.succ m - 1)) by lia.
    rewrite IH, <- app_assoc. f_equal. f_equal; lia.
Qed.

Lemma indices_join (k : nat) :
  forall m : Z,
    0 <= m ->
    mjoin ((fun n => seqZ (3 * n * (n - 1)) (n * 6)) <$> seqZ m (Z.of_nat k))
    = seqZ (3 * m * (m - 1)) (3 * (m + Z.of_nat k) * (m + Z.of_nat k - 1) - 3 * m * (m - 1)).
Proof.
  induction k as [|k IH]; intros m Hm.
  - replace (3 * (m + Z.of_nat 0) * (m + Z.of_nat 0 - 1) - 3 * m * (m - 1)) with 0 by lia.
    done.
  - rewrite seqZ_cons by lia.
    replace (Z.pred (Z.of_nat (S k))) with (Z.of_nat k) by lia.
    rewrite fmap_cons. cbn [mjoin list_join]. rewrite IH by lia.
    replace (3 * Z.succ m * (Z.succ m - 1)) with (3 * m * (m - 1) + m * 6) by lia.
    rewrite <- seqZ_app by nia. f_equal. lia.
Qed.

Lemma ring_indices (numRings : Z) (l : list Z) :
  DotbeamCore.dotIndex
    <$> (((fun n =>
             {| DotbeamCore.ringIndex := n;
                DotbeamCore.radius := DotbeamCore.ringRadius n numRings;
                DotbeamCore.dots :=
                  (fun d =>
                     {| DotbeamCore.angle :=
                          F64.div (F64.mul (F64.mul (F64.ofZ 2) F64.PI) (F64.ofZ d))
                                  (F64.ofZ (n * 6));
                        DotbeamCore.dotIndex := 3 * n * (n - 1) + d |})
                    <$> seqZ 0 (n * 6) |})
            <$> l) ≫= DotbeamCore.dots)
  = mjoin ((fun n => seqZ (3 * n * (n - 1)) (n * 6)) <$> l).
Proof.
  induction l as [|n l IH]; [done|].
  rewrite !fmap_cons, bind_cons, fmap_app, IH. cbn [mjoin list_join DotbeamCore.dots].
  f_equal. rewrite <- list_fmap_compose.
  transitivity (Z.add (3 * n * (n - 1)) <$> seqZ 0 (n * 6));
    [by apply list_fmap_ext|by rewrite fmap_add_seqZ, Z.add_0_r].
Qed.

(** X23. The browser's [layout] numbers the dots the way the Go encoder
    fills them: it reports [TotalDots] dots, the rings are numbered 1, 2,
    ... in order, ring n has 6 n dots and the radius [ringRadius] gives
    it, and the [dotIndex] values, ring after ring, are 0, 1, 2, ... up to
    the number of dots. *)
Theorem core_layout_indices (c : Config) :
  let L := DotbeamCore.layout (Rings c) in
  DotbeamCore.totalDots L = TotalDots c /\
  DotbeamCore.ringIndex <$> DotbeamCore.rings L = seqZ 1 (Rings c) /\
  Forall (fun r =>
            len (DotbeamCore.dots r) = 6 * DotbeamCore.ringIndex r /\
            DotbeamCore.radius r
            = DotbeamCore.ringRadius (DotbeamCore.ringIndex r) (Rings c))
         (DotbeamCore.rings L) /\
  DotbeamCore.dotIndex <$> (DotbeamCore.rings L ≫= DotbeamCore.dots)
  = seqZ 0 (TotalDots c).
Proof.
  cbv zeta. unfold DotbeamCore.layout.
  set (N := Z.to_nat (Rings c)).
  assert (EN : seqZ 1 (Rings c) = seqZ 1 (Z.of_nat N))
    by (unfold N, seqZ; by rewrite Nat2Z.id).
  rewrite EN.
  pose proof (layout_loop (Rings c) N 1 []) as Hloop.
  change (3 * 1 * (1 - 1)) with 0 in Hloop. cbv zeta in Hloop.
  rewrite Hloop. clear Hloop.
  cbn [DotbeamCore.rings DotbeamCore.totalDots app].
  assert (ET : TotalDots c = 3 * (1 + Z.of_nat N) * (1 + Z.of_nat N - 1)).
  { rewrite TotalDots_eq. unfold N. lia. }
  split; [by rewrite ET|]. split; [|split].
  - rewrite <- list_fmap_compose. rewrite <- (list_fmap_id (seqZ 1 (Z.of_nat N))) at 2.
    by apply list_fmap_ext.
  - apply Forall_fmap, Forall_forall. intros n Hn. apply elem_of_seqZ in Hn.
    cbn. unfold len. rewrite length_fmap, length_seqZ. split; [lia|done].
  - rewrite ring_indices, (indices_join N 1) by lia.
    change (3 * 1 * (1 - 1)) with 0. f_equal. lia.
Qed.

End Layouts.

Section Colours.
Import Go.

(** X24. The colour of a dot survives rendering and matching: the three
    palettes (Go, npm, browser) hold the same eight colours in the same
    order, and for every dot value the colour [RenderFrame] paints it with
    is matched back to the value's three low bits, by the browser
    scanner's [matchColor] and by the sampler of the Go render tests
    alike. *)
Theorem colour_roundtrip (value : Z) :
  (fun c => (R c, G c, B c)) <$> DefaultColors = Npm.COLORS /\
  (fun c => (DotbeamCore.r c, DotbeamCore.g c, DotbeamCore.b c)) <$> DotbeamCore.PALETTE
  = Npm.COLORS /\
  Scanner.matchColor (R (dotColor value)) (G (dotColor value)) (B (dotColor value))
  = Z.land value 0x07 /\
  matchColorFromImage (R (dotColor value)) (G (dotColor value)) (B (dotColor value))
  = Z.land value 0x07.
Proof.
  split; [reflexivity|]. split; [reflexivity|].
  unfold dotColor.
  assert (Hk : 0 <= Z.land value 7 < 8).
  { assert (E : Z.land value 7 = value mod 8) by (apply (Z.land_ones value 3); lia).
    rewrite E. apply Z.mod_pos_bound. lia. }
  set (k := Z.land value 7) in *. clearbody k.
  assert (Hc : k = 0 \/ k = 1 \/ k = 2 \/ k = 3 \/ k = 4 \/ k = 5 \/ k = 6 \/ k = 7) by lia.
  destruct Hc as [-> | [-> | [-> | [-> | [-> | [-> | [-> | ->]]]]]]];
    split; vm_compute; reflexivity.
Qed.

End Colours.
